(** * hszinc: the fast Zinc grid parser ([hszinc/fast_zincparser.py])

    A shallow embedding of the fast-path parser and the properties its
    specification states about it.  Python strings are sequences of code
    points; exceptions are an explicit error result; the Python runtime
    functions and the classes of the package that are used but not defined
    in the module ([float], [int], [strptime], [iso8601.parse_date],
    [Version], the Unicode tables behind [\d], [\w], [\s]) are the fields
    of the class [Externals]. *)

From Stdlib Require Import Ascii String.
From Stdlib Require Import List NArith ZArith Bool Lia Arith.
Import Datatypes ListNotations.

Set Implicit Arguments.

(** ** Code points and strings *)

Definition char := N.
Bind Scope N_scope with char.
Definition str := list char.

(** Literals: an ASCII Rocq string read as a Python string. *)
Definition py (s : string) : str :=
  List.map N_of_ascii (list_ascii_of_string s).

Definition dq : char := 34%N.        (* the double quote *)
Definition bslash : char := 92%N.    (* the backslash *)
Definition btick : char := 96%N.     (* the backtick *)
Definition nl : char := 10%N.        (* line feed *)
Definition sp : char := 32%N.        (* space *)
Definition ch (a : ascii) : char := N_of_ascii a.
Arguments ch : simpl never.
Arguments py : simpl never.

Definition in_range (lo hi c : char) : bool := (N.leb lo c && N.leb c hi)%bool.
Arguments in_range (lo hi c)%_N.
Definition one_of (l : str) (c : char) : bool := existsb (N.eqb c) l.

Definition ascii_lower (c : char) : bool := in_range 97 122 c.
Definition ascii_upper (c : char) : bool := in_range 65 90 c.
Definition ascii_digit (c : char) : bool := in_range 48 57 c.
Definition ascii_alnum (c : char) : bool :=
  (ascii_lower c || ascii_upper c || ascii_digit c)%bool.
(** The ASCII code points CPython counts as white space:
    TAB, LF, VT, FF, CR, FS, GS, RS, US and SPACE. *)
Definition ascii_space (c : char) : bool :=
  (in_range 9 13 c || in_range 28 32 c)%bool.
Definition is_ascii (c : char) : bool := N.ltb c 128%N.

Definition str_eqb (a b : str) : bool :=
  if list_eq_dec N.eq_dec a b then true else false.

(** [s.startswith(p)] *)
Fixpoint startswith (p s : str) : bool :=
  match p, s with
  | [], _ => true
  | _ :: _, [] => false
  | a :: p', b :: s' => (N.eqb a b && startswith p' s')%bool
  end.

(** [s.endswith(p)] *)
Definition endswith (p s : str) : bool := startswith (rev p) (rev s).

(** [sub in s] for strings *)
Fixpoint contains (sub s : str) : bool :=
  (startswith sub s ||
   match s with
   | [] => false
   | _ :: s' => contains sub s'
   end)%bool.

(** [c in s] for one character *)
Definition has_char (c : char) (s : str) : bool := existsb (N.eqb c) s.

(** [s.split(sep)] for a one-character separator: never the empty list. *)
Fixpoint split_on (sep : char) (s : str) : list str :=
  match s with
  | [] => [[]]
  | c :: s' =>
      if N.eqb c sep then [] :: split_on sep s'
      else match split_on sep s' with
           | [] => [[c]]
           | w :: ws => (c :: w) :: ws
           end
  end.

(** [s.split(sep, 1)]: the text before the first separator and, when there
    is one, the text after it. *)
Fixpoint split_once (sep : char) (s : str) : str * option str :=
  match s with
  | [] => ([], None)
  | c :: s' =>
      if N.eqb c sep then ([], Some s')
      else let '(a, b) := split_once sep s' in (c :: a, b)
  end.

(** [s[:n]] *)
Definition slice_to (n : nat) (s : str) : str := firstn n s.

(** ** Errors

    Every [raise] of the module has its own constructor; an exception
    raised inside a runtime function is a [BuiltinError] naming the
    function and its argument. *)

Inductive builtin := BFloat | BInt16 | BChr | BStrptime | BIso8601 | BVersion.

Inductive error :=
| ComplexType                    (* _parse_scalar: Complex type - use slow parser *)
| InvalidMetadata                (* _parse_meta: tag must start with lowercase letter *)
| InvalidTagName (key : str)     (* _parse_meta: Invalid tag name *)
| ComplexGrid                    (* parse_grid_fast: Complex grid - use slow parser *)
| ComplexTimezone                (* Complex metadata with timezone names *)
| ComplexUriEscaping             (* Complex URI escaping - use slow parser *)
| EmptyGrid                      (* Empty grid *)
| MissingVersion                 (* Invalid grid: missing version on line 1 *)
| MissingColumnHeaders           (* Invalid grid: missing column headers *)
| InvalidColumnMetadata          (* Invalid column metadata - use slow parser *)
| ComplexUriEscapingRow          (* Complex URI escaping in row *)
| MalformedValue (val : str)     (* Malformed value in row *)
| BuiltinError (f : builtin) (arg : str).

Inductive result (A : Type) : Type :=
| Ok (a : A)
| Err (e : error).
Arguments Ok {A} a.
Arguments Err {A} e.

Definition bind {A B} (m : result A) (k : A -> result B) : result B :=
  match m with
  | Ok a => k a
  | Err e => Err e
  end.

Notation "x <- m ;; k" := (bind m (fun x => k))
  (at level 61, m at next level, right associativity).
Notation "'check' b 'else' e ;; k" := (if b then k else Err e)
  (at level 61, b at next level, e at next level, right associativity).

Definition of_option {A} (e : error) (o : option A) : result A :=
  match o with
  | Some a => Ok a
  | None => Err e
  end.

Definition is_ok {A} (r : result A) : bool :=
  match r with Ok _ => true | Err _ => false end.

(** The value of a hexadecimal digit [0-9a-fA-F]. *)
Definition hex_value (c : char) : option N :=
  if ascii_digit c then Some (c - 48)%N
  else if in_range 97 102 c then Some (c - 87)%N
  else if in_range 65 70 c then Some (c - 55)%N
  else None.

Definition is_hex (c : char) : bool :=
  match hex_value c with Some _ => true | None => false end.

(** The ASCII letters g-z and G-Z, [x] and [X] apart. *)
Definition non_hex_letter (c : char) : bool :=
  ((in_range 103 122 c || in_range 71 90 c)
   && negb (N.eqb c 120%N) && negb (N.eqb c 88%N))%bool.

(** ** The runtime the module calls into *)

Class Externals : Type := {
  (** the Unicode database, consulted for the code points above ASCII *)
  uni_isspace : char -> bool;      (* str.isspace, regex \s *)
  uni_isdecimal : char -> bool;    (* regex \d *)
  uni_isalnum : char -> bool;      (* regex \w, the underscore apart *)
  uni_isdigit : char -> bool;      (* str.isdigit *)
  uni_isupper : char -> bool;      (* str.isupper *)
  uni_upper : char -> str;         (* str.upper *)
  (** double precision numbers and [float(s)] *)
  float : Type;
  py_float : str -> option float;
  float_inf : float;
  float_neg_inf : float;
  float_nan : float;
  (** [int(s, 16)] *)
  py_int16 : str -> option Z;
  (** [datetime.datetime.strptime(s, '%Y-%m-%d').date()] *)
  pydate : Type;
  strptime_date : str -> option pydate;
  (** [datetime.datetime.strptime(s, fmt).time()]; the flag chooses
      ['%H:%M:%S.%f'] over ['%H:%M:%S'] *)
  pytime : Type;
  strptime_time : bool -> str -> option pytime;
  (** [iso8601.parse_date(s)], [dt.tzinfo is not None] and
      [dt.astimezone(timezone(name))]; [None] is an exception *)
  pydatetime : Type;
  iso8601_parse_date : str -> option pydatetime;
  has_tzinfo : pydatetime -> bool;
  astimezone_named : pydatetime -> str -> option pydatetime;
  (** [Version(s)] of [hszinc.version] *)
  version : Type;
  mk_version : str -> option version
}.

(** What the proofs use of [int(s, 16)]: four hexadecimal digits are read
    as the number they write, and a text with a letter that is no digit in
    base 16 (and not the [x] of a prefix) is refused. *)
Class ExternalsSpec (E : Externals) : Prop := {
  py_int16_hex :
    forall a b c d va vb vc vd,
      hex_value a = Some va -> hex_value b = Some vb ->
      hex_value c = Some vc -> hex_value d = Some vd ->
      py_int16 [a; b; c; d]
      = Some (Z.of_N (((va * 16 + vb) * 16 + vc) * 16 + vd));
  py_int16_reject :
    forall s c, In c s -> non_hex_letter c = true -> py_int16 s = None
}.


(** ** Regular expressions

    The patterns of the module are kept as syntax trees and run by a
    backtracking matcher that lists the ways a pattern matches a prefix of
    the text in the order Python's [re] tries them (greedy repetition
    first, the left alternative first); [re.match] is the first of them.
    A leading [^] is not written: [match] starts at position 0.  Where a
    comment quotes a pattern of the source, DQ stands for the double quote
    and a blank separates a star from a closing parenthesis. *)

Inductive re : Type :=
| Eps
| Chr (p : char -> bool)
| Seq (a b : re)
| Alt (a b : re)
| Star (a : re)
| Grp (n : nat) (a : re)
| Eos.

Definition caps := list (nat * str).

(** Greedy repetition of [body]; an iteration has to consume text, which
    every repeated pattern of the module does. *)
Fixpoint star_iter (body : caps -> str -> list (caps * str)) (fuel : nat)
    (c : caps) (s : str) {struct fuel} : list (caps * str) :=
  match fuel with
  | O => [(c, s)]
  | S fuel' =>
      flat_map (fun '(c', s') =>
                  if Nat.ltb (length s') (length s)
                  then star_iter body fuel' c' s' else [])
               (body c s)
      ++ [(c, s)]
  end.

Fixpoint rmatch (r : re) (c : caps) (s : str) {struct r} : list (caps * str) :=
  match r with
  | Eps => [(c, s)]
  | Chr p =>
      match s with
      | x :: s' => if p x then [(c, s')] else []
      | [] => []
      end
  | Seq a b => flat_map (fun '(c', s') => rmatch b c' s') (rmatch a c s)
  | Alt a b => rmatch a c s ++ rmatch b c s
  | Star a => star_iter (rmatch a) (length s) c s
  | Grp n a =>
      map (fun '(c', s') => ((n, firstn (length s - length s') s) :: c', s'))
          (rmatch a c s)
  | Eos =>
      (* [$]: the end of the text, or just before a final line feed *)
      match s with
      | [] => [(c, s)]
      | [x] => if N.eqb x nl then [(c, s)] else []
      | _ => []
      end
  end.

(** [m.group(n)]; [None] when the group took no part in the match. *)
Fixpoint group (n : nat) (c : caps) : option str :=
  match c with
  | [] => None
  | (k, v) :: c' => if Nat.eqb k n then Some v else group n c'
  end.

(** [pattern.match(s)]: the groups and the text after the match. *)
Definition re_match (r : re) (s : str) : option (caps * str) :=
  hd_error (rmatch r [] s).

Definition re_test (r : re) (s : str) : bool :=
  match re_match r s with Some _ => true | None => false end.

(** [re.search(pattern, s)] as a truth value. *)
Fixpoint re_search (r : re) (s : str) : bool :=
  (re_test r s ||
   match s with
   | [] => false
   | _ :: s' => re_search r s'
   end)%bool.

Definition lit (c : char) : re := Chr (N.eqb c).
Definition lits (s : str) : re := fold_right (fun c r => Seq (lit c) r) Eps s.
Definition cat (l : list re) : re := fold_right Seq Eps l.
Definition Plus (a : re) : re := Seq a (Star a).
Definition Opt (a : re) : re := Alt a Eps.
Fixpoint Rep (n : nat) (a : re) : re :=
  match n with
  | O => Eps
  | S n' => Seq a (Rep n' a)
  end.
Definition none_of (l : str) (c : char) : bool := negb (one_of l c).

Section Parser.

Context {E : Externals}.

(** ** Character classes *)

Definition isspace (c : char) : bool :=
  if is_ascii c then ascii_space c else uni_isspace c.
Definition isdigit (c : char) : bool :=
  if is_ascii c then ascii_digit c else uni_isdigit c.
Definition isupper (c : char) : bool :=
  if is_ascii c then ascii_upper c else uni_isupper c.
(** [\d] *)
Definition re_digit (c : char) : bool :=
  if is_ascii c then ascii_digit c else uni_isdecimal c.
(** [\w] *)
Definition re_word (c : char) : bool :=
  if is_ascii c then (ascii_alnum c || N.eqb c 95)%bool else uni_isalnum c.
(** [\s] *)
Definition re_space (c : char) : bool := isspace c.

(** [s.upper()] *)
Definition upper (s : str) : str :=
  flat_map (fun c => if is_ascii c
                     then [if ascii_lower c then (c - 32)%N else c]
                     else uni_upper c) s.

(** [s.strip()] *)
Fixpoint lstrip (s : str) : str :=
  match s with
  | [] => []
  | c :: s' => if isspace c then lstrip s' else s
  end.
Definition rstrip (s : str) : str := rev (lstrip (rev s)).
Definition strip (s : str) : str := rstrip (lstrip s).

(** ** The patterns of the module *)

Definition D : re := Chr re_digit.
Definition not_dq (c : char) : bool := negb (N.eqb c dq).

(** [^ver:DQ([^DQ]+)DQ] *)
Definition VERSION_RE : re :=
  cat [lits (py "ver:"); lit dq; Grp 1 (Plus (Chr not_dq)); lit dq].

(** [C\(([^,]+),([^)]+)\)] *)
Definition COORD_RE : re :=
  cat [lits (py "C("); Grp 1 (Plus (Chr (none_of (py ","))));
       lit (ch ","); Grp 2 (Plus (Chr (none_of (py ")")))); lit (ch ")")].

(** [@([\w:.\-~]* )(?: DQ([^DQ]+)DQ)?] *)
Definition ref_char (c : char) : bool := (re_word c || one_of (py ":.-~") c)%bool.
Definition REF_RE : re :=
  cat [lit (ch "@"); Grp 1 (Star (Chr ref_char));
       Opt (cat [lit sp; lit dq; Grp 2 (Plus (Chr not_dq)); lit dq])].

(** [Bin\(([^\)]* )\)] *)
Definition BIN_RE : re :=
  cat [lits (py "Bin("); Grp 1 (Star (Chr (none_of (py ")")))); lit (ch ")")].

(** [(\w+)\(DQ([^DQ]* )DQ\)] *)
Definition XSTR_RE : re :=
  cat [Grp 1 (Plus (Chr re_word)); lit (ch "("); lit dq;
       Grp 2 (Star (Chr not_dq)); lit dq; lit (ch ")")].

(** [(\d{4}-\d{2}-\d{2}T\d{2}:\d{2}:\d{2}(?:\.\d+)?(?:Z|[+-]\d{2}:\d{2})?)(?: (\w+))?] *)
Definition DATETIME_RE : re :=
  cat [Grp 1 (cat [Rep 4 D; lit (ch "-"); Rep 2 D; lit (ch "-"); Rep 2 D;
                   lit (ch "T"); Rep 2 D; lit (ch ":"); Rep 2 D; lit (ch ":");
                   Rep 2 D;
                   Opt (cat [lit (ch "."); Plus D]);
                   Opt (Alt (lit (ch "Z"))
                            (cat [Chr (one_of (py "+-")); Rep 2 D;
                                  lit (ch ":"); Rep 2 D]))]);
       Opt (cat [lit sp; Grp 2 (Plus (Chr re_word))])].

(** [^\d{4}-\d{2}-\d{2}$] *)
Definition DATE_RE : re :=
  cat [Rep 4 D; lit (ch "-"); Rep 2 D; lit (ch "-"); Rep 2 D; Eos].

(** [^(\d{2}:\d{2}:\d{2}(?:\.\d+)?)$] *)
Definition TIME_RE : re :=
  cat [Grp 1 (cat [Rep 2 D; lit (ch ":"); Rep 2 D; lit (ch ":"); Rep 2 D;
                   Opt (cat [lit (ch "."); Plus D])]);
       Eos].

(** [^([+-]?(?:\d+_)*\d+(?:\.\d+)?(?:[eE][+-]?\d+)?)([\w%_/$\u0080-\uffff]+)?$] *)
Definition unit_char (c : char) : bool :=
  (re_word c || one_of (py "%_/$") c || in_range 128 65535 c)%bool.
Definition NUMBER_RE : re :=
  cat [Grp 1 (cat [Opt (Chr (one_of (py "+-")));
                   Star (cat [Plus D; lit (ch "_")]);
                   Plus D;
                   Opt (cat [lit (ch "."); Plus D]);
                   Opt (cat [Chr (one_of (py "eE"));
                             Opt (Chr (one_of (py "+-"))); Plus D])]);
       Opt (Grp 2 (Plus (Chr unit_char)));
       Eos].

(** [^`([^`]* )`$] *)
Definition URI_RE : re :=
  cat [lit btick; Grp 1 (Star (Chr (fun c => negb (N.eqb c btick))));
       lit btick; Eos].

(** [^DQ((?:[^DQ\\]|\\[bfnrt\\DQ$]|\\[uU][0-9a-fA-F]{4})* )DQ$] *)
Definition STR_RE : re :=
  cat [lit dq;
       Grp 1 (Star (Alt (Chr (none_of [dq; bslash]))
                   (Alt (cat [lit bslash;
                              Chr (one_of (py "bfnrt" ++ [bslash; dq] ++ py "$"))])
                        (cat [lit bslash; Chr (one_of (py "uU"));
                              Rep 4 (Chr is_hex)]))));
       lit dq; Eos].

(** [^[a-z][a-zA-Z0-9_]*$], the tag names of [_parse_meta] *)
Definition tag_char (c : char) : bool := (ascii_alnum c || N.eqb c 95)%bool.
Definition TAG_RE : re :=
  cat [Chr ascii_lower; Star (Chr tag_char); Eos].

(** [T\d{2}:\d{2}:\d{2}[^,\n]*[+-]\d{2}:\d{2}\s+[A-Z][a-zA-Z_]+] *)
Definition TZ_NAME_RE : re :=
  cat [lit (ch "T"); Rep 2 D; lit (ch ":"); Rep 2 D; lit (ch ":"); Rep 2 D;
       Star (Chr (none_of [ch ","; nl]));
       Chr (one_of (py "+-")); Rep 2 D; lit (ch ":"); Rep 2 D;
       Plus (Chr re_space);
       Chr ascii_upper;
       Plus (Chr (fun c => (ascii_lower c || ascii_upper c || N.eqb c 95)%bool))].

(** [\s[A-Z][A-Z]+] *)
Definition UPPER_TAG_RE : re :=
  cat [Chr re_space; Chr ascii_upper; Plus (Chr ascii_upper)].

(** [^[a-zA-Z_]\w*\(] *)
Definition IDENT_CALL_RE : re :=
  cat [Chr (fun c => (ascii_lower c || ascii_upper c || N.eqb c 95)%bool);
       Star (Chr re_word); lit (ch "(")].

(** ** Scalar values

    Modelled from the spec: the scalar classes of [hszinc.datatypes]
    ([Quantity], [Coordinate], [Uri], [Bin], [Ref], [XStr] and the
    singletons [MARKER], [NA], [REMOVE]) are not defined in the module; they
    are the variants of the tagged union of the data model, each holding
    the arguments its constructor is called with.  Python's [None] is
    [VNull], a [str] is [VStr], a [float] is [VNumber] without a unit. *)

Inductive scalar : Type :=
| VNull
| VMarker
| VNA
| VRemove
| VBool (b : bool)
| VNumber (f : float) (unit : option str)
| VStr (s : str)
| VUri (s : str)
| VBin (mime : str)
| VXStr (tag payload : str)
| VCoord (lat lng : float)
| VRef (id : str) (dis : option str)
| VDate (d : pydate)
| VTime (t : pytime)
| VDateTime (dt : pydatetime).

(** ** [_unescape] *)

(** [chr(n)] *)
Definition py_chr (n : Z) : option char :=
  if ((0 <=? n) && (n <=? 1114111))%Z then Some (Z.to_N n) else None.

(** What the branches for an escaped character other than a [\u] escape
    append to the result. *)
Definition escaped (uri : bool) (esc_c : char) : str :=
  if N.eqb esc_c (ch "b") then [8%N]
  else if N.eqb esc_c (ch "f") then [12%N]
  else if N.eqb esc_c (ch "n") then [10%N]
  else if N.eqb esc_c (ch "r") then [13%N]
  else if N.eqb esc_c (ch "t") then [9%N]
  else if (uri && N.eqb esc_c (ch "#"))%bool then [bslash; esc_c]
  else [esc_c].

(** The [while] loop, from position [i] on: [s] is [s[i:]] and the value
    is what the loop still appends to [result]. *)
Fixpoint unescape_scan (uri : bool) (s : str) {struct s} : result str :=
  match s with
  | [] => Ok []
  | c :: rest =>
      match rest with
      | [] => Ok [c]
      | esc_c :: rest' =>
          if negb (N.eqb c bslash) then
            r <- unescape_scan uri rest ;; Ok (c :: r)
          else
            match rest' with
            | h1 :: h2 :: h3 :: h4 :: rest'' =>
                if one_of (py "uU") esc_c then
                  let hex := [h1; h2; h3; h4] in
                  n <- of_option (BuiltinError BInt16 hex) (py_int16 hex) ;;
                  x <- of_option (BuiltinError BChr hex) (py_chr n) ;;
                  r <- unescape_scan uri rest'' ;; Ok (x :: r)
                else
                  r <- unescape_scan uri rest' ;; Ok (escaped uri esc_c ++ r)
            | _ =>
                r <- unescape_scan uri rest' ;; Ok (escaped uri esc_c ++ r)
            end
      end
  end.

Definition _unescape (uri : bool) (s : str) : result str :=
  if negb (has_char bslash s) then Ok s else unescape_scan uri s.

(** ** [_parse_scalar] *)

Definition is_empty (s : str) : bool :=
  match s with [] => true | _ => false end.

(** [m.group(n)] of a group that takes part in every match *)
Definition grp (n : nat) (m : caps) : str :=
  match group n m with Some v => v | None => [] end.

Definition to_float (s : str) : result float :=
  of_option (BuiltinError BFloat s) (py_float s).

(** [s.replace('_', '')] *)
Definition drop_underscores (s : str) : str :=
  filter (fun c => negb (N.eqb c (ch "_"))) s.

(** The rules of the ordered dispatch.  Each is [None] when the token
    falls through to the next rule, and the returned value or the raised
    error otherwise. *)

Definition rule_coord (value : str) : option (result scalar) :=
  if startswith (py "C(") value then
    match re_match COORD_RE value with
    | Some (m, _) =>
        Some (lat <- to_float (grp 1 m) ;;
              lng <- to_float (grp 2 m) ;;
              Ok (VCoord lat lng))
    | None => None
    end
  else None.

Definition rule_ref (value : str) : option (result scalar) :=
  if startswith (py "@") value then
    match re_match REF_RE value with
    | Some (m, _) => Some (Ok (VRef (grp 1 m) (group 2 m)))
    | None => None
    end
  else None.

Definition rule_bin (value : str) : option (result scalar) :=
  if startswith (py "Bin(") value then
    match re_match BIN_RE value with
    | Some (m, _) => Some (Ok (VBin (grp 1 m)))
    | None => None
    end
  else None.

Definition rule_xstr (value : str) : option (result scalar) :=
  if (has_char (ch "(") value && endswith (py ")") value
      && negb (startswith (py "C(") value))%bool then
    match re_match XSTR_RE value with
    | Some (m, _) =>
        Some (payload <- _unescape false (grp 2 m) ;;
              Ok (VXStr (grp 1 m) payload))
    | None => None
    end
  else None.

Definition rule_uri (value : str) : option (result scalar) :=
  if startswith [btick] value then
    match re_match URI_RE value with
    | Some (m, _) => Some (u <- _unescape true (grp 1 m) ;; Ok (VUri u))
    | None => None
    end
  else None.

Definition rule_str (value : str) : option (result scalar) :=
  if startswith [dq] value then
    match re_match STR_RE value with
    | Some (m, _) => Some (u <- _unescape false (grp 1 m) ;; Ok (VStr u))
    | None => None
    end
  else None.

Definition rule_datetime (value : str) : option (result scalar) :=
  if (has_char (ch "T") value
      && match value with
         | c :: _ => (isdigit c || N.eqb c (ch "-"))%bool
         | [] => false
         end)%bool then
    match re_match DATETIME_RE value with
    | Some (m, _) =>
        let dt_str := grp 1 m in
        let tz_name := group 2 m in
        Some (dt <- of_option (BuiltinError BIso8601 (upper dt_str))
                              (iso8601_parse_date (upper dt_str)) ;;
              match tz_name with
              | Some ((_ :: _) as name) =>
                  if has_tzinfo dt then
                    match astimezone_named dt name with
                    | Some dt' => Ok (VDateTime dt')
                    | None => Ok (VDateTime dt)
                    end
                  else Ok (VDateTime dt)
              | _ => Ok (VDateTime dt)
              end)
    | None => None
    end
  else None.

Definition rule_date (value : str) : option (result scalar) :=
  match re_match DATE_RE value with
  | Some _ =>
      Some (d <- of_option (BuiltinError BStrptime value) (strptime_date value) ;;
            Ok (VDate d))
  | None => None
  end.

Definition rule_time (value : str) : option (result scalar) :=
  match re_match TIME_RE value with
  | Some (m, _) =>
      let time_str := grp 1 m in
      Some (t <- of_option (BuiltinError BStrptime time_str)
                           (strptime_time (has_char (ch ".") time_str) time_str) ;;
            Ok (VTime t))
  | None => None
  end.

Definition rule_number (value : str) : option (result scalar) :=
  match re_match NUMBER_RE value with
  | Some (m, _) =>
      let num_str := drop_underscores (grp 1 m) in
      let unit := group 2 m in
      Some (num <- to_float num_str ;;
            match unit with
            | Some ((_ :: _) as u) => Ok (VNumber num (Some u))
            | _ => Ok (VNumber num None)
            end)
  | None => None
  end.

(** [a] when the rule applies, the rest of the dispatch otherwise. *)
Definition or_else {A} (o : option A) (k : A) : A :=
  match o with Some a => a | None => k end.

Definition complex_prefix (value : str) : bool :=
  (startswith (py "[") value || startswith (py "{") value
   || startswith (py "<<") value)%bool.

Definition _parse_scalar (value : str) : result scalar :=
  let value := strip value in
  if is_empty value then Ok VNull
  else if complex_prefix value then Err ComplexType
  else if str_eqb value (py "M") then Ok VMarker
  else if str_eqb value (py "N") then Ok VNull
  else if str_eqb value (py "NA") then Ok VNA
  else if str_eqb value (py "R") then Ok VRemove
  else if str_eqb value (py "T") then Ok (VBool true)
  else if str_eqb value (py "F") then Ok (VBool false)
  else if str_eqb value (py "INF") then Ok (VNumber float_inf None)
  else if str_eqb value (py "-INF") then Ok (VNumber float_neg_inf None)
  else if str_eqb value (py "NaN") then Ok (VNumber float_nan None)
  else
    or_else (rule_coord value) (
    or_else (rule_ref value) (
    or_else (rule_bin value) (
    or_else (rule_xstr value) (
    or_else (rule_uri value) (
    or_else (rule_str value) (
    or_else (rule_datetime value) (
    or_else (rule_date value) (
    or_else (rule_time value) (
    or_else (rule_number value) (
    Ok (VStr value))))))))))).

(** ** [_split_csv_values] *)

(** The variables of the scanning loop. *)
Record csv_state : Type := mk_csv {
  values : list str;
  current : str;
  in_string : bool;
  in_uri : bool;
  escape_next : bool;
  paren_depth : Z
}.

Definition csv_init : csv_state := mk_csv [] [] false false false 0.

(** One turn of the [while] loop, on the character [c]. *)
Definition csv_step (st : csv_state) (c : char) : csv_state :=
  let '(mk_csv vs cur ins inu esc depth) := st in
  if esc then mk_csv vs (cur ++ [c]) ins inu false depth
  else if (N.eqb c bslash && (ins || inu))%bool then
    mk_csv vs (cur ++ [c]) ins inu true depth
  else if (N.eqb c dq && negb inu)%bool then
    mk_csv vs (cur ++ [c]) (negb ins) inu esc depth
  else if (N.eqb c btick && negb ins)%bool then
    mk_csv vs (cur ++ [c]) ins (negb inu) esc depth
  else if (N.eqb c (ch "(") && negb ins && negb inu)%bool then
    mk_csv vs (cur ++ [c]) ins inu esc (depth + 1)
  else if (N.eqb c (ch ")") && negb ins && negb inu)%bool then
    mk_csv vs (cur ++ [c]) ins inu esc (depth - 1)
  else if (N.eqb c (ch ",") && negb ins && negb inu && Z.eqb depth 0)%bool then
    mk_csv (vs ++ [strip cur]) [] ins inu esc depth
  else mk_csv vs (cur ++ [c]) ins inu esc depth.

(** [line and line[-1] == ','] *)
Definition ends_with_comma (line : str) : bool :=
  match rev line with
  | c :: _ => N.eqb c (ch ",")
  | [] => false
  end.

Definition _split_csv_values (line : str) : list str :=
  let st := fold_left csv_step line csv_init in
  if (negb (is_empty (current st)) || ends_with_comma line)%bool
  then values st ++ [strip (current st)]
  else values st.

(** ** Ordered mappings

    Modelled from the spec: [SortableDict] of [hszinc.sortabledict] is not
    defined in the module; it is the ordered mapping of the data model, a
    sequence of (key, value) pairs in insertion order in which writing an
    existing key replaces its value and keeps its position.  A built-in
    [dict] behaves the same way. *)

Definition dict (V : Type) : Type := list (str * V).

Fixpoint dict_set {V} (k : str) (v : V) (d : dict V) : dict V :=
  match d with
  | [] => [(k, v)]
  | (k', v') :: d' =>
      if str_eqb k' k then (k', v) :: d' else (k', v') :: dict_set k v d'
  end.

Fixpoint dict_get {V} (k : str) (d : dict V) : option V :=
  match d with
  | [] => None
  | (k', v') :: d' => if str_eqb k' k then Some v' else dict_get k d'
  end.

Definition keys {V} (d : dict V) : list str := map fst d.

(** ** [_parse_meta] *)

(** An entry of [items]: a bare string or a [(key, value)] tuple. *)
Inductive meta_item : Type :=
| Bare (name : str)
| Pair (key val : str).

Record meta_state : Type := mk_meta {
  items : list meta_item;
  current_key : option str;
  current_val : str;
  in_quote : bool;
  m_in_uri : bool;
  m_escape_next : bool
}.

Definition meta_init : meta_state := mk_meta [] None [] false false false.

(** The truth value of [current_key]: neither [None] nor the empty string. *)
Definition truthy (k : option str) : option str :=
  match k with
  | Some (_ :: _) => k
  | _ => None
  end.

(** [items] and [current_key] once the text [val_str] of an item is complete
    (at a separating space and at the end of the text). *)
Definition close_item (its : list meta_item) (key : option str) (cur : str)
  : list meta_item * option str :=
  let val_str := strip cur in
  if is_empty val_str then (its, key)
  else match truthy key with
       | Some k => (its ++ [Pair k val_str], None)
       | None => (its ++ [Bare val_str], key)
       end.

(** One turn of the [while] loop, on the character [c]. *)
Definition meta_step (st : meta_state) (c : char) : meta_state :=
  let '(mk_meta its key cur inq inu esc) := st in
  if esc then mk_meta its key (cur ++ [c]) inq inu false
  else if N.eqb c bslash then mk_meta its key (cur ++ [c]) inq inu true
  else if (N.eqb c dq && negb inu)%bool then
    mk_meta its key (cur ++ [c]) (negb inq) inu esc
  else if (N.eqb c btick && negb inq)%bool then
    mk_meta its key (cur ++ [c]) inq (negb inu) esc
  else if (N.eqb c (ch ":") && negb inq && negb inu
           && match key with None => true | Some _ => false end)%bool then
    mk_meta its (Some (strip cur)) [] inq inu esc
  else if (N.eqb c sp && negb inq && negb inu)%bool then
    let '(its', key') := close_item its key cur in
    mk_meta its' key' [] inq inu esc
  else mk_meta its key (cur ++ [c]) inq inu esc.

(** [items] after the loop and the handling of the last item. *)
Definition meta_items (meta_str : str) : list meta_item :=
  let st := fold_left meta_step meta_str meta_init in
  fst (close_item (items st) (current_key st) (current_val st)).

Definition meta := dict scalar.

(** The loop that converts [items] to the mapping. *)
Fixpoint meta_convert (its : list meta_item) (m : meta) : result meta :=
  match its with
  | [] => Ok m
  | Pair key val :: its' =>
      check re_test TAG_RE key else InvalidTagName key ;;
      v <- _parse_scalar val ;;
      meta_convert its' (dict_set key v m)
  | Bare item :: its' =>
      check re_test TAG_RE item else InvalidTagName item ;;
      meta_convert its' (dict_set item VMarker m)
  end.

Definition _parse_meta (meta_str : str) : result meta :=
  match meta_str with
  | [] => Ok []
  | c :: _ =>
      check negb (isupper c) else InvalidMetadata ;;
      meta_convert (meta_items meta_str) []
  end.

(** ** Grids

    Modelled from the spec: [Grid] of [hszinc.grid] is not defined in the
    module; it is the grid of the data model: a version, an ordered
    metadata mapping, the ordered list of the columns (a name and a
    metadata mapping each) and the ordered list of the rows, to which
    [append] adds a row at the end. *)

Definition row := dict scalar.

Record grid : Type := mk_grid {
  g_version : version;
  g_metadata : meta;
  g_columns : list (str * meta);
  g_rows : list row
}.

Definition grid_append (g : grid) (r : row) : grid :=
  mk_grid (g_version g) (g_metadata g) (g_columns g) (g_rows g ++ [r]).

(** ** [parse_grid_fast] *)

(** [s.split(sep, maxsplit)] *)
Fixpoint split_on_max (sep : char) (maxsplit : nat) (s : str) : list str :=
  match maxsplit with
  | O => [s]
  | S n =>
      match split_once sep s with
      | (a, None) => [a]
      | (a, Some b) => a :: split_on_max sep n b
      end
  end.

(** One column of the header line. *)
Definition parse_column (col_str : str) : result (str * meta) :=
  let col_str := strip col_str in
  if has_char sp col_str then
    match split_once sp col_str with
    | (col_name, Some rest) =>
        col_meta <- _parse_meta rest ;; Ok (col_name, col_meta)
    | (col_name, None) => Ok (col_name, [])
    end
  else Ok (col_str, []).

Fixpoint parse_columns (col_parts : list str) : result (list (str * meta)) :=
  match col_parts with
  | [] => Ok []
  | col_str :: rest =>
      col <- parse_column col_str ;;
      cols <- parse_columns rest ;;
      Ok (col :: cols)
  end.

(** The check of one field of a row line. *)
Definition value_ok (val : str) : bool :=
  let val := strip val in
  match val with
  | [] => true
  | c :: _ =>
      if (negb (one_of ([dq; btick] ++ py "@MNTFRCB") c)
          && negb (isdigit c) && negb (one_of (py "-+") c))%bool
      then negb (negb (re_test IDENT_CALL_RE val)
                 && negb (existsb (str_eqb val)
                            [py "INF"; py "-INF"; py "NaN"; py "NA"]))
      else true
  end.

Fixpoint validate_values (vals : list str) : result unit :=
  match vals with
  | [] => Ok tt
  | val :: rest =>
      check value_ok val else MalformedValue (strip val) ;;
      validate_values rest
  end.

(** [while len(values) < len(col_names): values.append('')] *)
Definition pad_values (n : nat) (vals : list str) : list str :=
  vals ++ repeat [] (n - length vals).

(** The loop over [enumerate(col_names)], from index [i] on. *)
Fixpoint build_row (col_names : list str) (i : nat) (vals : list str)
    (row_data : row) : result row :=
  match col_names with
  | [] => Ok row_data
  | col_name :: names' =>
      v <- (if Nat.ltb i (length vals) then _parse_scalar (nth i vals [])
            else Ok VNull) ;;
      build_row names' (S i) vals (dict_set col_name v row_data)
  end.

(** One non-blank row line, already stripped. *)
Definition parse_row (col_names : list str) (line : str) : result row :=
  check negb (contains [bslash; btick] line) else ComplexUriEscapingRow ;;
  let vals := _split_csv_values line in
  _ <- validate_values vals ;;
  let vals := pad_values (length col_names) vals in
  build_row col_names 0 vals [].

(** The loop over the row lines, appending to [g]. *)
Fixpoint parse_rows (col_names : list str) (lines : list str) (g : grid)
  : result grid :=
  match lines with
  | [] => Ok g
  | l :: rest =>
      let line := strip l in
      if is_empty line then parse_rows col_names rest g
      else
        row_data <- parse_row col_names line ;;
        parse_rows col_names rest (grid_append g row_data)
  end.

Definition parse_grid_fast (grid_str : str) : result grid :=
  check negb (contains (py "<<") grid_str || has_char (ch "{") grid_str)
    else ComplexGrid ;;
  let header_sample := slice_to (Nat.min 200 (length grid_str)) grid_str in
  check negb (has_char (ch "[") header_sample) else ComplexGrid ;;
  _ <- match split_on_max nl 2 grid_str with
       | first_line :: _ =>
           check negb (re_search TZ_NAME_RE first_line) else ComplexTimezone ;;
           check negb (contains [bslash; btick] first_line)
             else ComplexUriEscaping ;;
           Ok tt
       | [] => Ok tt
       end ;;
  match split_on nl grid_str with
  | [] => Err EmptyGrid
  | line1 :: lines =>
      match re_match VERSION_RE line1 with
      | None => Err MissingVersion
      | Some (ver_match, after) =>
          ver <- of_option (BuiltinError BVersion (grp 1 ver_match))
                           (mk_version (grp 1 ver_match)) ;;
          grid_meta <- _parse_meta (strip after) ;;
          match lines with
          | [] => Err MissingColumnHeaders
          | col_line :: lines =>
              check negb (re_search UPPER_TAG_RE col_line)
                else InvalidColumnMetadata ;;
              columns <- parse_columns (_split_csv_values col_line) ;;
              parse_rows (map fst columns) lines
                         (mk_grid ver grid_meta columns [])
          end
      end
  end.

(** ** [parse_grid]

    The full-grammar parser [hszinc.zincparser.parse_grid] is the argument
    [parse_grid_slow]; it returns a grid or raises an exception of its
    own. *)

Inductive outcome (X : Type) : Type :=
| Returns (g : grid)
| Raises (x : X).
Arguments Returns {X} g.
Arguments Raises {X} x.

Definition parse_grid {X} (parse_grid_slow : str -> bool -> outcome X)
    (grid_str : str) (parseAll : bool) : outcome X :=
  match parse_grid_fast grid_str with
  | Ok g => Returns g
  | Err _ => parse_grid_slow grid_str parseAll
  end.

End Parser.

Arguments Returns {E X} g.
Arguments Raises {E X} x.

(** ** A runtime to run the examples

    The theorems below hold for every [Externals].  The examples are run
    in this one, which is the Python runtime on the texts of the examples
    and a rough stand-in elsewhere: ASCII only, decimal literals without
    an exponent as numbers, hexadecimal digits for [int(s, 16)], dates and
    times as the numbers of their fields, every date-time text accepted,
    time zones unresolved. *)

Module Ref.

Inductive rfloat : Type :=
| Dec (mantissa : Z) (decimals : nat)   (* mantissa / 10^decimals *)
| Inf
| NegInf
| NaN.

Fixpoint read_digits (s : str) (acc : N) : option N :=
  match s with
  | [] => Some acc
  | c :: s' =>
      if ascii_digit c then read_digits s' (acc * 10 + (c - 48))%N else None
  end.

Definition read_number (s : str) : option N :=
  match s with
  | [] => None
  | _ => read_digits s 0%N
  end.

Definition read_decimal (s : str) : option rfloat :=
  let '(neg, body) :=
    match s with
    | c :: s' =>
        if N.eqb c (ch "-") then (true, s')
        else if N.eqb c (ch "+") then (false, s') else (false, s)
    | [] => (false, [])
    end in
  let sign := fun n : N => if neg : bool then (- Z.of_N n)%Z else Z.of_N n in
  match split_once (ch ".") body with
  | (ip, None) => option_map (fun n => Dec (sign n) 0) (read_number ip)
  | (ip, Some fp) =>
      match read_number ip, read_number fp with
      | Some _, Some _ =>
          option_map (fun n => Dec (sign n) (length fp)) (read_number (ip ++ fp))
      | _, _ => None
      end
  end.

Fixpoint read_hex (s : str) (acc : N) : option N :=
  match s with
  | [] => Some acc
  | c :: s' =>
      match hex_value c with
      | Some v => read_hex s' (acc * 16 + v)%N
      | None => None
      end
  end.

Definition int16 (s : str) : option Z :=
  match s with
  | [] => None
  | _ => option_map Z.of_N (read_hex s 0%N)
  end.

(** the fields of a text such as [2020-01-31] or [23:59:59], in bounds *)
Definition read_fields (sep : char) (bounds : list (N * N)) (s : str)
  : option (list N) :=
  let fields := map read_number (split_on sep s) in
  if Nat.eqb (length fields) (length bounds)
     && forallb (fun '(f, (lo, hi)) =>
                   match f with
                   | Some n => (N.leb lo n && N.leb n hi)%bool
                   | None => false
                   end) (combine fields bounds)
  then Some (map (fun f => match f with Some n => n | None => 0%N end) fields)
  else None.

Definition date (s : str) : option (list N) :=
  read_fields (ch "-") [(1, 9999); (1, 12); (1, 31)]%N s.

Definition time (frac : bool) (s : str) : option (list N) :=
  let clock := read_fields (ch ":") [(0, 23); (0, 59); (0, 59)]%N in
  if frac then
    match split_once (ch ".") s with
    | (hms, Some f) =>
        match clock hms, read_number f with
        | Some l, Some n =>
            if Nat.leb (length f) 6 then Some (l ++ [n]) else None
        | _, _ => None
        end
    | (_, None) => None
    end
  else clock s.

Definition version_of (s : str) : option str :=
  match read_decimal s with Some (Dec _ _) => Some s | _ => None end.

Definition externals : Externals := {|
  uni_isspace := fun _ => false;
  uni_isdecimal := fun _ => false;
  uni_isalnum := fun _ => false;
  uni_isdigit := fun _ => false;
  uni_isupper := fun _ => false;
  uni_upper := fun c => [c];
  float := rfloat;
  py_float := read_decimal;
  float_inf := Inf;
  float_neg_inf := NegInf;
  float_nan := NaN;
  py_int16 := int16;
  pydate := list N;
  strptime_date := date;
  pytime := list N;
  strptime_time := time;
  pydatetime := str;
  iso8601_parse_date := fun s => Some s;
  has_tzinfo := fun _ => true;
  astimezone_named := fun _ _ => None;
  version := str;
  mk_version := version_of
|}.

End Ref.


(** * Notions of the specification

    What the statements below need to say what the spec says: the
    trackers of the field splitter, tag names, the separator of a tag
    token. *)

Section SpecNotions.

Context {E : Externals}.

(** The control character an escape letter stands for. *)
Definition control_char (e : char) : option char :=
  if N.eqb e (ch "b") then Some 8%N
  else if N.eqb e (ch "f") then Some 12%N
  else if N.eqb e (ch "n") then Some 10%N
  else if N.eqb e (ch "r") then Some 13%N
  else if N.eqb e (ch "t") then Some 9%N
  else None.

(** The code point four hexadecimal digits write. *)
Definition hex4 (va vb vc vd : N) : char :=
  (((va * 16 + vb) * 16 + vc) * 16 + vd)%N.

(** *** The field splitter, in the words of the spec

    Three trackers (inside a double-quoted string, inside a backtick URI,
    the paren depth) and the escape a backslash inside a string or URI
    puts on the next character; a comma is a separator when all of them
    are inactive; the fields are the trimmed pieces between the
    separators. *)

Record trackers : Type := mk_trackers {
  t_in_string : bool;
  t_in_uri : bool;
  t_escape : bool;
  t_depth : Z
}.

Definition trackers_init : trackers := mk_trackers false false false 0.

Definition inactive (t : trackers) : bool :=
  (negb (t_in_string t) && negb (t_in_uri t) && negb (t_escape t)
   && Z.eqb (t_depth t) 0)%bool.

(** How a character moves the trackers. *)
Definition track (t : trackers) (c : char) : trackers :=
  let '(mk_trackers ins inu esc depth) := t in
  if esc then mk_trackers ins inu false depth
  else if (N.eqb c bslash && (ins || inu))%bool then mk_trackers ins inu true depth
  else if (N.eqb c dq && negb inu)%bool then mk_trackers (negb ins) inu false depth
  else if (N.eqb c btick && negb ins)%bool then mk_trackers ins (negb inu) false depth
  else if (N.eqb c (ch "(") && negb ins && negb inu)%bool
  then mk_trackers ins inu false (depth + 1)
  else if (N.eqb c (ch ")") && negb ins && negb inu)%bool
  then mk_trackers ins inu false (depth - 1)
  else t.

(** The trackers among the variables of the loop of [_split_csv_values]. *)
Definition trackers_of (st : csv_state) : trackers :=
  mk_trackers (in_string st) (in_uri st) (escape_next st) (paren_depth st).

Definition separator (t : trackers) (c : char) : bool :=
  (N.eqb c (ch ",") && inactive t)%bool.

(** The pieces of [line] between the separators, [cur] being the piece
    under way. *)
Fixpoint cut (t : trackers) (cur : str) (line : str) : list str :=
  match line with
  | [] => [cur]
  | c :: rest =>
      if separator t c then cur :: cut t [] rest
      else cut (track t c) (cur ++ [c]) rest
  end.

Fixpoint count_separators (t : trackers) (line : str) : nat :=
  match line with
  | [] => 0
  | c :: rest =>
      if separator t c then S (count_separators t rest)
      else count_separators (track t c) rest
  end.

Definition split_fields (line : str) : list str :=
  match line with
  | [] => []
  | _ => map strip (cut trackers_init [] line)
  end.

(** A text without white space at either end. *)
Definition trimmed (s : str) : Prop :=
  (forall c r, s = c :: r -> isspace c = false)
  /\ (forall c r, s = r ++ [c] -> isspace c = false).

(** *** The separator of a tag token *)

(** The variables of the scanning loop of [_parse_meta] before the
    character at position [i]. *)
Definition meta_state_at (s : str) (i : nat) : meta_state :=
  fold_left meta_step (firstn i s) meta_init.

(** The character at position [i] is taken as the key/value separator:
    it is a colon and the loop, instead of appending it to the text under
    way as every other branch does with a colon, starts that text anew
    (the branch that makes the text before the colon the key). *)
Definition separator_at (s : str) (i : nat) : bool :=
  match nth_error s i with
  | Some c =>
      (N.eqb c (ch ":") && is_empty (current_val (meta_state_at s (S i))))%bool
  | None => false
  end.

(** The character at position [k] is a space that ends a token: it is met
    outside a string and outside a URI, and it is not escaped. *)
Definition token_break_at (s : str) (k : nat) : Prop :=
  nth_error s k = Some sp
  /\ in_quote (meta_state_at s k) = false
  /\ m_in_uri (meta_state_at s k) = false
  /\ m_escape_next (meta_state_at s k) = false.

(** *** The scalar decoder *)

(** The token begins with an opening bracket, an opening brace or [<<]. *)
Definition begins_complex (t : str) : Prop :=
  exists r, t = py "[" ++ r \/ t = py "{" ++ r \/ t = py "<<" ++ r.

(** The tokens decoded as a singleton or a special number. *)
Definition literal_tokens : list str :=
  [py "M"; py "N"; py "NA"; py "R"; py "T"; py "F";
   py "INF"; py "-INF"; py "NaN"].

(** The pattern rules, in the order of the dispatch. *)
Definition decoding_rules : list (str -> option (result scalar)) :=
  [rule_coord; rule_ref; rule_bin; rule_xstr; rule_uri; rule_str;
   rule_datetime; rule_date; rule_time; rule_number].

Definition matches_no_rule (t : str) : Prop :=
  ~ In t literal_tokens /\ Forall (fun rule => rule t = None) decoding_rules.

(** The dispatch after the literal tokens. *)
Definition dispatch (value : str) : result scalar :=
  fold_right (fun rule k => or_else (rule value) k) (Ok (VStr value))
             decoding_rules.

(** An exception raised inside a runtime function. *)
Definition builtin_error (e : error) : Prop :=
  exists f a, e = BuiltinError f a.

(** *** Tag lists *)

(** A tag name: a lowercase ASCII letter, then ASCII letters, digits and
    underscores. *)
Definition tag_name (k : str) : Prop :=
  exists c r, k = c :: r /\ ascii_lower c = true
              /\ Forall (fun x => tag_char x = true) r.

(** The name of an entry of [items]. *)
Definition item_name (it : meta_item) : str :=
  match it with
  | Bare name => name
  | Pair key _ => key
  end.

(** The tokens of a tag list without quotes: a bare tag, or a name, a
    colon and a value. *)
Inductive tag_token : Type :=
| TBare (name : str)
| TPair (name value : str).

Definition token_name (tok : tag_token) : str :=
  match tok with
  | TBare name => name
  | TPair name _ => name
  end.

Definition render_token (tok : tag_token) : str :=
  match tok with
  | TBare name => name
  | TPair name value => name ++ [ch ":"] ++ value
  end.

(** The tokens, one space between two of them. *)
Fixpoint render_tags (toks : list tag_token) : str :=
  match toks with
  | [] => []
  | [tok] => render_token tok
  | tok :: rest => render_token tok ++ [sp] ++ render_tags rest
  end.

(** A character that is no white space, no backslash and no delimiter of
    a string or a URI. *)
Definition plain_char (c : char) : Prop :=
  isspace c = false /\ c <> bslash /\ c <> dq /\ c <> btick.

Definition name_text (n : str) : Prop :=
  n <> [] /\ Forall (fun c => plain_char c /\ c <> ch ":") n.

Definition value_text (v : str) : Prop :=
  v <> [] /\ Forall plain_char v.

Definition token_text (tok : tag_token) : Prop :=
  match tok with
  | TBare name => name_text name
  | TPair name value => name_text name /\ value_text value
  end.

Definition item_of (tok : tag_token) : meta_item :=
  match tok with
  | TBare name => Bare name
  | TPair name value => Pair name value
  end.

(** The value a token gives its tag. *)
Definition token_value (tok : tag_token) (x : scalar) : Prop :=
  match tok with
  | TBare _ => x = VMarker
  | TPair _ value => _parse_scalar value = Ok x
  end.

(** The mapping of a list of tokens and their values, written in order. *)
Definition tags_of (toks : list tag_token) (xs : list scalar) : meta :=
  fold_left (fun m '(tok, x) => dict_set (token_name tok) x m)
            (combine toks xs) [].

(** The names of the items under way are trimmed texts. *)
Definition meta_inv (its : list meta_item) (key : option str) : Prop :=
  Forall (fun it => trimmed (item_name it)) its
  /\ (forall k, key = Some k -> trimmed k).

(** The key and the text under way once the loop has read a token. *)
Definition token_key (tok : tag_token) : option str :=
  match tok with
  | TBare _ => None
  | TPair name _ => Some name
  end.

Definition token_val (tok : tag_token) : str :=
  match tok with
  | TBare name => name
  | TPair _ value => value
  end.

(** *** Rows *)

(** The row lines of a text: the lines after the header line, trimmed,
    the blank ones left out. *)
Definition row_lines (grid_str : str) : list str :=
  filter (fun l => negb (is_empty l))
         (map strip (skipn 2 (split_on nl grid_str))).

(** The name a column of the header line declares: its text up to the
    first space. *)
Definition column_name (col_str : str) : str :=
  fst (split_once sp (strip col_str)).

Definition declared_columns (grid_str : str) : list str :=
  map column_name (_split_csv_values (nth 1 (split_on nl grid_str) [])).

(** The names in the order of their first occurrence. *)
Fixpoint first_occurrences_from (seen names : list str) : list str :=
  match names with
  | [] => seen
  | n :: rest =>
      first_occurrences_from
        (if existsb (str_eqb n) seen then seen else seen ++ [n]) rest
  end.

Definition first_occurrences (names : list str) : list str :=
  first_occurrences_from [] names.

(** The row [r] is the row of the line [line] under the columns [names]:
    its keys are the column names in declared order; the entry of the
    column at index [j] (the last of its name) is the decoded field [j] of
    the line, and Null when the line has no field [j]. *)
Definition row_of_line (names : list str) (line : str) (r : row) : Prop :=
  let fields := _split_csv_values line in
  keys r = first_occurrences names
  /\ forall j name,
       nth_error names j = Some name ->
       (forall j', j < j' -> nth_error names j' <> Some name) ->
       exists x, dict_get name r = Some x
                 /\ (j < length fields -> _parse_scalar (nth j fields []) = Ok x)
                 /\ (length fields <= j -> x = VNull).

(** A grid of four columns whose one row line has two fields. *)
Definition grid_text_2_of_4 : str :=
  py "ver:" ++ [dq] ++ py "3.0" ++ [dq; nl] ++ py "a,b,c,d" ++ [nl] ++ py "M,T".

(** The repetition of a character class stops in front of [s]: [s] is
    empty or its first character is not of the class. *)
Definition stops (p : char -> bool) (s : str) : Prop :=
  forall x r, s = x :: r -> p x = false.

(** The pattern has a group of index [n]. *)
Fixpoint has_group (r : re) (n : nat) : bool :=
  match r with
  | Eps | Chr _ | Eos => false
  | Seq a b | Alt a b => (has_group a n || has_group b n)%bool
  | Star a => has_group a n
  | Grp k a => (Nat.eqb k n || has_group a n)%bool
  end.

(** The optional display name of [REF_RE]. *)
Definition REF_DIS_RE : re :=
  cat [lit sp; lit dq; Grp 2 (Plus (Chr not_dq)); lit dq].

End SpecNotions.

(** * The data of the examples *)

(** A stand-in for the full-grammar parser: the fast path where it
    succeeds, an exception elsewhere. *)
Definition slow_example (grid_str : str) (parseAll : bool)
  : outcome (E := Ref.externals) unit :=
  match parse_grid_fast (E := Ref.externals) grid_str with
  | Ok g => Returns g
  | Err _ => Raises tt
  end.

Definition two_tag_tokens : str := py "a:1 b:2".

(** The token ["a":5], its key in double quotes. *)
Definition quoted_key_token : str := [dq] ++ py "a" ++ [dq] ++ py ":5".

(** The URI token [`\uzzzz`]. *)
Definition bad_escape_token : str := [btick; bslash] ++ py "uzzzz" ++ [btick].

Definition two_tokens : list tag_token :=
  [TBare (py "foo"); TPair (py "bar") (py "5")].

Definition grid_2_of_4 : grid (E := Ref.externals) :=
  @mk_grid Ref.externals (py "3.0") []
    [(py "a", []); (py "b", []); (py "c", []); (py "d", [])]
    [[(py "a", VMarker); (py "b", VBool true); (py "c", VNull); (py "d", VNull)]].

(** The version line [ver:"3.0"] and the line feed after it. *)
Definition version_line : str := py "ver:" ++ [dq] ++ py "3.0" ++ [dq; nl].

(** * The rest of the module, and the notions of its further properties *)

(** [sep.join(l)] *)
Fixpoint join (sep : str) (l : list str) : str :=
  match l with
  | [] => []
  | [x] => x
  | x :: rest => x ++ sep ++ join sep rest
  end.

Section MoreNotions.

Context {E : Externals}.

(** ** [parse_scalar]: the scalar decoder as the package calls it; the
    version is not used. *)
Definition parse_scalar (scalar_data : str) (ver : version) : result scalar :=
  _parse_scalar scalar_data.

(** A character the splitter gives no meaning to, white space apart: no
    comma, no double quote, no backtick and no paren. *)
Definition csv_plain (c : char) : bool :=
  none_of ([dq; btick] ++ py "(),") c.

(** A field the splitter reads as one block: a text of such characters, a
    double-quoted string or a backtick URI, the last two without a
    backslash and without their delimiter inside. *)
Definition csv_block (f : str) : Prop :=
  Forall (fun c => csv_plain c = true) f
  \/ (exists q, f = dq :: q ++ [dq] /\ ~ In dq q /\ ~ In bslash q)
  \/ (exists u, f = btick :: u ++ [btick] /\ ~ In btick u /\ ~ In bslash u).

(** ** The content of a string token *)

(** The repeated part of [STR_RE]. *)
Definition STR_BODY : re :=
  Alt (Chr (none_of [dq; bslash]))
      (Alt (cat [lit bslash;
                 Chr (one_of (py "bfnrt" ++ [bslash; dq] ++ py "$"))])
           (cat [lit bslash; Chr (one_of (py "uU")); Rep 4 (Chr is_hex)])).

(** One unit of the content: a character that is no double quote and no
    backslash; a backslash and one of [b f n r t \ DQ $]; a backslash, [u]
    or [U] and four hexadecimal digits. *)
Definition esc_unit (u : str) : Prop :=
  (exists x, u = [x] /\ none_of [dq; bslash] x = true)
  \/ (exists e, u = [bslash; e]
                /\ one_of (py "bfnrt" ++ [bslash; dq] ++ py "$") e = true)
  \/ (exists e h1 h2 h3 h4,
        u = [bslash; e; h1; h2; h3; h4] /\ one_of (py "uU") e = true
        /\ is_hex h1 = true /\ is_hex h2 = true
        /\ is_hex h3 = true /\ is_hex h4 = true).

Inductive escaped_text : str -> Prop :=
| et_nil : escaped_text []
| et_unit u s : esc_unit u -> escaped_text s -> escaped_text (u ++ s).

(** ** Number tokens *)

Definition ascii_letter (c : char) : bool := (ascii_lower c || ascii_upper c)%bool.

(** A decimal literal: an optional sign, digits, and an optional fraction
    of a point and digits. *)
Definition decimal (n : str) : Prop :=
  exists sgn ds frac,
    n = sgn ++ ds ++ frac
    /\ (sgn = [] \/ sgn = [ch "-"] \/ sgn = [ch "+"])
    /\ ds <> [] /\ Forall (fun c => ascii_digit c = true) ds
    /\ (frac = []
        \/ exists fs, frac = ch "." :: fs /\ fs <> []
                      /\ Forall (fun c => ascii_digit c = true) fs).

(** The characters of a number token. *)
Definition number_char (c : char) : bool :=
  (ascii_digit c || ascii_letter c || N.eqb c (ch "."))%bool.

(** ** Tag lists with values in delimiters *)

(** A value in delimiters: a double-quoted string or a backtick URI,
    without a backslash and without its delimiter inside. *)
Definition quoted_value (v : str) : Prop :=
  (exists q, v = dq :: q ++ [dq] /\ ~ In dq q /\ ~ In bslash q)
  \/ (exists u, v = btick :: u ++ [btick] /\ ~ In btick u /\ ~ In bslash u).

(** A token of a tag list whose value may be in delimiters. *)
Definition tag_text (tok : tag_token) : Prop :=
  match tok with
  | TBare name => name_text name
  | TPair name value =>
      name_text name /\ (value_text value \/ quoted_value value)
  end.

(** ** Columns *)

(** The tag list a column of the header line declares: its text after the
    first space, the empty text when it has no space. *)
Definition column_tags (col_str : str) : str :=
  match split_once sp (strip col_str) with
  | (_, Some rest) => rest
  | (_, None) => []
  end.

(** ** Dates and times *)

(** A text of [n] ASCII digits. *)
Definition digits (n : nat) (s : str) : Prop :=
  length s = n /\ Forall (fun c => ascii_digit c = true) s.

(** The characters of a date or a time. *)
Definition clock_char (c : char) : bool :=
  (ascii_digit c || one_of (py "-:.") c)%bool.

End MoreNotions.

(** ** The data of the examples of the further properties *)

(** A grid with grid tags, a column with tags and one row. *)
Definition grid_text_tags : str :=
  py "ver:" ++ [dq] ++ py "3.0" ++ [dq] ++ py " site dis:" ++ [dq]
  ++ py "Main hall" ++ [dq; nl]
  ++ py "ts,val unit:" ++ [dq] ++ py "kW" ++ [dq] ++ py " point" ++ [nl]
  ++ py "1," ++ [dq] ++ py "a b" ++ [dq].

Definition grid_tags : grid (E := Ref.externals) :=
  @mk_grid Ref.externals (py "3.0")
    [(py "site", VMarker); (py "dis", VStr (py "Main hall"))]
    [(py "ts", []);
     (py "val", [(py "unit", VStr (py "kW")); (py "point", VMarker)])]
    [[(py "ts", VNumber (E := Ref.externals) (Ref.Dec 1 0) None);
      (py "val", VStr (py "a b"))]].

(** The tag list [dis:"Main hall" site]. *)
Definition quoted_tokens : list tag_token :=
  [TPair (py "dis") ([dq] ++ py "Main hall" ++ [dq]); TBare (py "site")].

(** The string body [a\nb], with its escape. *)
Definition escaped_body : str := py "a" ++ [bslash] ++ py "nb".
(** * Properties *)

Unset Implicit Arguments.

(** ** Strings *)

Lemma str_eqb_eq a b : str_eqb a b = true <-> a = b.
Proof.
  unfold str_eqb. destruct (list_eq_dec N.eq_dec a b); split; congruence.
Qed.

Lemma str_eqb_refl a : str_eqb a a = true.
Proof. now apply str_eqb_eq. Qed.

Lemma str_eqb_neq a b : str_eqb a b = false <-> a <> b.
Proof.
  unfold str_eqb. destruct (list_eq_dec N.eq_dec a b); split; congruence.
Qed.

Lemma startswith_spec p s : startswith p s = true <-> exists t, s = p ++ t.
Proof.
  revert s. induction p as [|a p IH]; intros s; simpl.
  - split; [intros _; now exists s | reflexivity].
  - destruct s as [|b s].
    + split; [discriminate | intros [t Ht]; discriminate].
    + rewrite andb_true_iff, N.eqb_eq, IH. split.
      * intros [-> [t ->]]. now exists t.
      * intros [t Ht]. injection Ht as -> ->. split; [reflexivity | now exists t].
Qed.

Lemma contains_spec sub s :
  contains sub s = true <-> exists a b, s = a ++ sub ++ b.
Proof.
  induction s as [|c s IH].
  - simpl. rewrite orb_false_r, startswith_spec. split.
    + intros [t Ht]. now exists [], t.
    + intros [a [b Hab]]. destruct a; [now exists b | discriminate].
  - simpl. rewrite orb_true_iff, startswith_spec, IH. split.
    + intros [[t Ht] | [a [b Hab]]].
      * now exists [], t.
      * exists (c :: a), b. now rewrite Hab.
    + intros [[|x a] [b Hab]].
      * left. now exists b.
      * right. injection Hab as -> ->. now exists a, b.
Qed.

Lemma has_char_In c s : has_char c s = true <-> In c s.
Proof.
  unfold has_char. rewrite existsb_exists. split.
  - intros [x [Hx Heq]]. apply N.eqb_eq in Heq. now subst.
  - intros H. exists c. split; [assumption | apply N.eqb_refl].
Qed.

Lemma has_char_false c s : has_char c s = false <-> ~ In c s.
Proof.
  rewrite <- has_char_In. destruct (has_char c s); split; congruence.
Qed.

Lemma slice_to_min n s : slice_to (Nat.min n (length s)) s = firstn n s.
Proof.
  unfold slice_to. destruct (Nat.le_ge_cases n (length s)) as [H | H].
  - now rewrite Nat.min_l.
  - rewrite Nat.min_r by assumption.
    now rewrite firstn_all, firstn_all2.
Qed.

Section Properties.

Context {E : Externals}.

(** ** The dispatcher and the eligibility checks *)

(** C3.  A text that contains [<<] or an opening brace anywhere, or an
    opening bracket among its first 200 characters, is rejected by
    [parse_grid_fast] with its "Complex grid" error, the first two checks
    of the function: nothing of a grid has been built. *)
Theorem parse_grid_fast_rejects_complex (grid_str : str) :
  (exists a b, grid_str = a ++ py "<<" ++ b)
  \/ In (ch "{") grid_str
  \/ In (ch "[") (firstn 200 grid_str) ->
  parse_grid_fast grid_str = Err ComplexGrid.
Proof.
  intros H. unfold parse_grid_fast.
  destruct (contains (py "<<") grid_str) eqn:Hlt; [reflexivity|].
  destruct (has_char (ch "{") grid_str) eqn:Hbr; [reflexivity|].
  cbn [orb negb].
  destruct H as [H | [H | H]].
  - apply contains_spec in H. congruence.
  - apply has_char_In in H. congruence.
  - rewrite slice_to_min. apply has_char_In in H. now rewrite H.
Qed.

(** The dispatcher on a text the fast path fails on. *)
Lemma parse_grid_on_failure
    (X : Type) (parse_grid_slow : str -> bool -> outcome X)
    (grid_str : str) (parseAll : bool) (e : error) :
  parse_grid_fast grid_str = Err e ->
  parse_grid parse_grid_slow grid_str parseAll
  = parse_grid_slow grid_str parseAll.
Proof.
  intros H. unfold parse_grid. now rewrite H.
Qed.

(** C2.  When the fast path fails, with whatever error, [parse_grid] is
    the full-grammar parser called on the whole original text with the
    caller's [parseAll]: its grid or its exception, and nothing of the
    fast path. *)
Theorem parse_grid_falls_back
    (X : Type) (parse_grid_slow : str -> bool -> outcome X)
    (grid_str : str) (parseAll : bool) (e : error) :
  parse_grid_fast grid_str = Err e ->
  parse_grid parse_grid_slow grid_str parseAll
  = parse_grid_slow grid_str parseAll.
Proof.
  apply parse_grid_on_failure.
Qed.

(** ** The escape decoder *)

Lemma unescape_scan_plain uri s :
  ~ In bslash s -> unescape_scan uri s = Ok s.
Proof.
  induction s as [|c rest IH]; intros Hs; [reflexivity|].
  simpl. destruct rest as [|esc_c rest']; [reflexivity|].
  destruct (N.eqb_spec c bslash) as [-> | Hc].
  - exfalso. apply Hs. now left.
  - cbn [negb]. rewrite IH.
    + reflexivity.
    + intros H. apply Hs. now right.
Qed.

Lemma unescape_is_scan uri s : _unescape uri s = unescape_scan uri s.
Proof.
  unfold _unescape. destruct (has_char bslash s) eqn:H; [reflexivity|].
  symmetry. apply unescape_scan_plain. now apply has_char_false.
Qed.

Lemma scan_plain_char uri c rest :
  c <> bslash ->
  unescape_scan uri (c :: rest)
  = (r <- unescape_scan uri rest ;; Ok (c :: r)).
Proof.
  intros Hc. simpl. destruct rest as [|esc_c rest']; [reflexivity|].
  apply N.eqb_neq in Hc. now rewrite Hc.
Qed.

Lemma scan_escape uri e rest :
  (one_of (py "uU") e = false \/ length rest < 4) ->
  unescape_scan uri (bslash :: e :: rest)
  = (r <- unescape_scan uri rest ;; Ok (escaped uri e ++ r)).
Proof.
  intros H.
  change (unescape_scan uri (bslash :: e :: rest))
    with (match rest with
          | h1 :: h2 :: h3 :: h4 :: rest'' =>
              if one_of (py "uU") e then
                let hex := [h1; h2; h3; h4] in
                n <- of_option (BuiltinError BInt16 hex) (py_int16 hex) ;;
                x <- of_option (BuiltinError BChr hex) (py_chr n) ;;
                r <- unescape_scan uri rest'' ;; Ok (x :: r)
              else r <- unescape_scan uri rest ;; Ok (escaped uri e ++ r)
          | _ => r <- unescape_scan uri rest ;; Ok (escaped uri e ++ r)
          end).
  destruct rest as [|h1 [|h2 [|h3 [|h4 rest'']]]]; try reflexivity.
  destruct H as [H | H]; [now rewrite H | simpl in H; lia].
Qed.

Lemma scan_unicode uri e h1 h2 h3 h4 rest :
  one_of (py "uU") e = true ->
  unescape_scan uri (bslash :: e :: h1 :: h2 :: h3 :: h4 :: rest)
  = (n <- of_option (BuiltinError BInt16 [h1; h2; h3; h4])
                    (py_int16 [h1; h2; h3; h4]) ;;
     x <- of_option (BuiltinError BChr [h1; h2; h3; h4]) (py_chr n) ;;
     r <- unescape_scan uri rest ;; Ok (x :: r)).
Proof.
  intros H.
  change (unescape_scan uri (bslash :: e :: h1 :: h2 :: h3 :: h4 :: rest))
    with (if one_of (py "uU") e then
            let hex := [h1; h2; h3; h4] in
            n <- of_option (BuiltinError BInt16 hex) (py_int16 hex) ;;
            x <- of_option (BuiltinError BChr hex) (py_chr n) ;;
            r <- unescape_scan uri rest ;; Ok (x :: r)
          else r <- unescape_scan uri (h1 :: h2 :: h3 :: h4 :: rest) ;;
               Ok (escaped uri e ++ r)).
  now rewrite H.
Qed.

Lemma hex_value_bound c v : hex_value c = Some v -> (v < 16)%N.
Proof.
  unfold hex_value, ascii_digit, in_range.
  destruct (N.leb_spec 48 c), (N.leb_spec c 57); cbn [andb];
    try (intros [= <-]; lia);
    destruct (N.leb_spec 97 c), (N.leb_spec c 102); cbn [andb];
    try (intros [= <-]; lia);
    destruct (N.leb_spec 65 c), (N.leb_spec c 70); cbn [andb];
    try (intros [= <-]; lia); discriminate.
Qed.

Lemma py_chr_of_N (n : N) : (n <= 1114111)%N -> py_chr (Z.of_N n) = Some n.
Proof.
  intros H. unfold py_chr.
  replace (0 <=? Z.of_N n)%Z with true by (symmetry; apply Z.leb_le; lia).
  replace (Z.of_N n <=? 1114111)%Z with true by (symmetry; apply Z.leb_le; lia).
  cbn [andb]. now rewrite N2Z.id.
Qed.

Lemma escaped_control uri e x : control_char e = Some x -> escaped uri e = [x].
Proof.
  unfold control_char, escaped.
  repeat match goal with
         | |- context [N.eqb e ?k] => destruct (N.eqb e k)
         end; intros [= <-]; reflexivity.
Qed.

Lemma escaped_other uri e :
  control_char e = None ->
  escaped uri e = if (uri && N.eqb e (ch "#"))%bool then [bslash; e] else [e].
Proof.
  unfold control_char, escaped.
  repeat match goal with
         | |- context [N.eqb e (ch ?k)] =>
             lazymatch k with
             | "#"%char => fail
             | _ => destruct (N.eqb e (ch k))
             end
         end; try discriminate; reflexivity.
Qed.

Lemma control_char_not_u e x :
  control_char e = Some x -> one_of (py "uU") e = false.
Proof.
  unfold control_char.
  repeat match goal with
         | |- context [N.eqb e ?k] => destruct (N.eqb_spec e k)
         end; try discriminate; subst; intros _; reflexivity.
Qed.

Section WithRuntimeLaws.

Context {ES : ExternalsSpec E}.

(** C9 (as amended).  [_unescape] returns a text without a backslash as
    it is.  On the other texts it reads, from left to right: [\u] or [\U]
    and four hexadecimal digits as the one code point they write; [\b],
    [\f], [\n], [\r], [\t] as the control character; a backslash and any
    other character (a [u] or [U] with fewer than four characters after
    it among them) as that character, with its backslash kept when it is
    [#] in URI mode; every other character as itself.  A [\u] or [\U]
    with four characters after it is never read as an escaped [u]: the
    four characters go to [int(_, 16)] and [chr] whatever they are, and
    the decoder raises the error of [int] when one of them is a letter
    that no hexadecimal number has. *)
Theorem unescape_decodes :
  (forall uri s, ~ In bslash s -> _unescape uri s = Ok s)
  /\ (forall uri e a b c d va vb vc vd rest,
        e = ch "u" \/ e = ch "U" ->
        hex_value a = Some va -> hex_value b = Some vb ->
        hex_value c = Some vc -> hex_value d = Some vd ->
        _unescape uri (bslash :: e :: a :: b :: c :: d :: rest)
        = (r <- _unescape uri rest ;; Ok (hex4 va vb vc vd :: r)))
  /\ (forall uri e x rest,
        control_char e = Some x ->
        _unescape uri (bslash :: e :: rest)
        = (r <- _unescape uri rest ;; Ok (x :: r)))
  /\ (forall uri e rest,
        control_char e = None ->
        (e <> ch "u" /\ e <> ch "U") \/ length rest < 4 ->
        _unescape uri (bslash :: e :: rest)
        = (r <- _unescape uri rest ;;
           Ok ((if (uri && N.eqb e (ch "#"))%bool then [bslash; e] else [e])
               ++ r)))
  /\ (forall uri c rest,
        c <> bslash ->
        _unescape uri (c :: rest) = (r <- _unescape uri rest ;; Ok (c :: r)))
  /\ (forall uri e a b c d rest,
        e = ch "u" \/ e = ch "U" ->
        _unescape uri (bslash :: e :: a :: b :: c :: d :: rest)
        = (n <- of_option (BuiltinError BInt16 [a; b; c; d])
                          (py_int16 [a; b; c; d]) ;;
           x <- of_option (BuiltinError BChr [a; b; c; d]) (py_chr n) ;;
           r <- _unescape uri rest ;; Ok (x :: r)))
  /\ (forall uri e a b c d rest x,
        e = ch "u" \/ e = ch "U" ->
        In x [a; b; c; d] -> non_hex_letter x = true ->
        _unescape uri (bslash :: e :: a :: b :: c :: d :: rest)
        = Err (BuiltinError BInt16 [a; b; c; d])).
Proof.
  repeat split.
  7: { intros uri e a b c d rest x He Hx Hn.
       rewrite unescape_is_scan, scan_unicode
         by (destruct He as [-> | ->]; reflexivity).
       now rewrite (py_int16_reject [a; b; c; d] x Hx Hn). }
  6: { intros uri e a b c d rest He.
       rewrite !unescape_is_scan, scan_unicode
         by (destruct He as [-> | ->]; reflexivity).
       reflexivity. }
  - intros uri s Hs. rewrite unescape_is_scan. now apply unescape_scan_plain.
  - intros uri e a b c d va vb vc vd rest He Ha Hb Hc Hd.
    rewrite !unescape_is_scan, scan_unicode.
    + rewrite (py_int16_hex _ _ _ _ Ha Hb Hc Hd). cbn [of_option bind].
      apply hex_value_bound in Ha, Hb, Hc, Hd.
      rewrite py_chr_of_N by lia. reflexivity.
    + destruct He as [-> | ->]; reflexivity.
  - intros uri e x rest Hx.
    rewrite !unescape_is_scan, scan_escape.
    + now rewrite (escaped_control uri _ _ Hx).
    + left. now apply control_char_not_u with x.
  - intros uri e rest Hx He.
    rewrite !unescape_is_scan, scan_escape.
    + now rewrite (escaped_other uri _ Hx).
    + destruct He as [[Hu HU] | Hlen]; [left | now right].
      change (one_of (py "uU") e)
        with (N.eqb e (ch "u") || (N.eqb e (ch "U") || false))%bool.
      apply N.eqb_neq in Hu, HU. now rewrite Hu, HU.
  - intros uri c rest Hc. rewrite !unescape_is_scan. now apply scan_plain_char.
Qed.

End WithRuntimeLaws.

(** ** [strip] *)

Lemma lstrip_split s :
  exists p, s = p ++ lstrip s /\ Forall (fun c => isspace c = true) p.
Proof.
  induction s as [|c s [p [Hp Hall]]].
  - now exists [].
  - simpl. destruct (isspace c) eqn:Hc.
    + exists (c :: p). split; [now rewrite Hp at 1 | now constructor].
    + now exists [].
Qed.

Lemma lstrip_head s c r : lstrip s = c :: r -> isspace c = false.
Proof.
  induction s as [|x s IH]; [discriminate|].
  simpl. destruct (isspace x) eqn:Hx; [exact IH|].
  intros [= <- _]. exact Hx.
Qed.

Lemma lstrip_fixed s :
  (forall c r, s = c :: r -> isspace c = false) -> lstrip s = s.
Proof.
  destruct s as [|c s]; [reflexivity|].
  intros H. simpl. now rewrite (H c s eq_refl).
Qed.

Lemma rstrip_split s :
  exists q, s = rstrip s ++ q /\ Forall (fun c => isspace c = true) q.
Proof.
  unfold rstrip. destruct (lstrip_split (rev s)) as [p [Hp Hall]].
  exists (rev p). split.
  - rewrite <- rev_app_distr, <- Hp. now rewrite rev_involutive.
  - now apply Forall_rev.
Qed.

Lemma rstrip_last s c r : rstrip s = r ++ [c] -> isspace c = false.
Proof.
  unfold rstrip. intros H.
  apply (f_equal (@rev char)) in H.
  rewrite rev_involutive, rev_app_distr in H. simpl in H.
  now apply lstrip_head in H.
Qed.

Lemma strip_trimmed s : trimmed (strip s).
Proof.
  unfold strip. split.
  - intros c r H.
    destruct (rstrip_split (lstrip s)) as [q [Hq _]].
    rewrite H in Hq. simpl in Hq. now apply lstrip_head in Hq.
  - intros c r H. now apply rstrip_last in H.
Qed.

Lemma trimmed_strip s : trimmed s -> strip s = s.
Proof.
  intros [Hhd Hlast]. unfold strip. rewrite (lstrip_fixed s Hhd).
  unfold rstrip. rewrite lstrip_fixed; [apply rev_involutive|].
  intros c r H. apply (Hlast c (rev r)).
  rewrite <- (rev_involutive s), H. reflexivity.
Qed.

Lemma strip_idempotent s : strip (strip s) = strip s.
Proof. apply trimmed_strip, strip_trimmed. Qed.

Lemma strip_nil : strip [] = [].
Proof. reflexivity. Qed.

(** ** The field splitter *)

Lemma csv_step_separator st c :
  separator (trackers_of st) c = true ->
  csv_step st c
  = mk_csv (values st ++ [strip (current st)]) [] (in_string st) (in_uri st)
           (escape_next st) (paren_depth st).
Proof.
  destruct st as [vs cur ins inu esc depth].
  unfold separator, inactive, trackers_of. cbn.
  destruct (N.eqb_spec c (ch ",")) as [-> | ]; [|discriminate].
  destruct ins, inu, esc; cbn; try discriminate.
  intros H. now rewrite H.
Qed.

Lemma csv_step_other st c :
  separator (trackers_of st) c = false ->
  values (csv_step st c) = values st
  /\ current (csv_step st c) = current st ++ [c]
  /\ trackers_of (csv_step st c) = track (trackers_of st) c.
Proof.
  destruct st as [vs cur ins inu esc depth].
  unfold separator, inactive, trackers_of, csv_step, track. cbn.
  destruct esc; [now repeat split|].
  destruct (N.eqb c bslash && (ins || inu))%bool; [now repeat split|].
  destruct (N.eqb c dq && negb inu)%bool; [now repeat split|].
  destruct (N.eqb c btick && negb ins)%bool; [now repeat split|].
  destruct (N.eqb c (ch "(") && negb ins && negb inu)%bool; [now repeat split|].
  destruct (N.eqb c (ch ")") && negb ins && negb inu)%bool; [now repeat split|].
  destruct (N.eqb c (ch ",")), ins, inu; cbn; try (now repeat split).
  intros H. rewrite H. now repeat split.
Qed.

Lemma csv_fold_cut line : forall st,
  let st' := fold_left csv_step line st in
  values st' ++ [strip (current st')]
  = values st ++ map strip (cut (trackers_of st) (current st) line).
Proof.
  induction line as [|c rest IH]; intros st; [reflexivity|].
  cbn [fold_left cut]. cbn zeta in *. rewrite IH.
  destruct (separator (trackers_of st) c) eqn:Hsep.
  - rewrite (csv_step_separator st c Hsep). cbn.
    now rewrite <- app_assoc.
  - destruct (csv_step_other st c Hsep) as (-> & -> & ->). reflexivity.
Qed.

Lemma csv_step_current st c :
  current (csv_step st c) <> [] \/ c = ch ",".
Proof.
  destruct (separator (trackers_of st) c) eqn:Hsep.
  - right. unfold separator in Hsep.
    apply andb_true_iff in Hsep as [Hc _]. now apply N.eqb_eq in Hc.
  - left. destruct (csv_step_other st c Hsep) as (_ & -> & _).
    now destruct (current st).
Qed.

Lemma split_csv_values_is_split_fields line :
  _split_csv_values line = split_fields line.
Proof.
  destruct line as [|c0 line0] eqn:Hline; [reflexivity|].
  rewrite <- Hline. unfold _split_csv_values, split_fields.
  assert (Hne : line <> []) by (rewrite Hline; discriminate).
  destruct (exists_last Hne) as [l [c Hl]].
  assert (Hcond : (negb (is_empty (current (fold_left csv_step line csv_init)))
                   || ends_with_comma line)%bool = true).
  { rewrite Hl, fold_left_app. cbn [fold_left].
    unfold ends_with_comma. rewrite rev_app_distr. cbn [rev app].
    destruct (csv_step_current (fold_left csv_step l csv_init) c) as [H | ->].
    - destruct (current _); [congruence | reflexivity].
    - apply orb_true_r. }
  rewrite Hcond, (csv_fold_cut line csv_init). cbn.
  now rewrite Hline.
Qed.

Lemma cut_length t cur line :
  length (cut t cur line) = S (count_separators t line).
Proof.
  revert t cur. induction line as [|c rest IH]; intros t cur; [reflexivity|].
  cbn. destruct (separator t c); cbn; now rewrite IH.
Qed.

Lemma track_separator t c : separator t c = true -> track t c = t.
Proof.
  destruct t as [ins inu esc depth]. unfold separator, inactive. cbn.
  destruct (N.eqb_spec c (ch ",")) as [-> | ]; [|discriminate].
  destruct ins, inu, esc; cbn; try discriminate. reflexivity.
Qed.

Lemma cut_trailing_comma line : forall t cur,
  inactive (fold_left track line t) = true ->
  cut t cur (line ++ [ch ","]) = cut t cur line ++ [[]].
Proof.
  induction line as [|c rest IH]; intros t cur Hin.
  - cbn in *. unfold separator. rewrite Hin. reflexivity.
  - cbn [app cut fold_left] in *.
    destruct (separator t c) eqn:Hsep.
    + rewrite (track_separator t c Hsep) in Hin. now rewrite IH.
    + now rewrite IH.
Qed.

(** C7.  [_split_csv_values] cuts the line at the commas met while no
    string, no URI and no paren is open, and nowhere else, and trims the
    pieces: it is [split_fields].  A line that is not empty has one field
    more than it has separators; a comma at the end of a line, met with the
    trackers inactive, adds exactly one empty field to the fields of the
    line before it; every field is trimmed; and the line of the spec is
    split as the spec says. *)
Theorem split_csv_values_correct :
  (forall line, _split_csv_values line = split_fields line)
  /\ (forall line,
        line <> [] ->
        length (_split_csv_values line)
        = S (count_separators trackers_init line))
  /\ (forall line,
        line <> [] ->
        inactive (fold_left track line trackers_init) = true ->
        _split_csv_values (line ++ [ch ","]) = _split_csv_values line ++ [[]])
  /\ (forall line field,
        In field (_split_csv_values line) ->
        trimmed field /\ strip field = field)
  /\ _split_csv_values (py "a," ++ [dq] ++ py "b,c" ++ [dq] ++ py ",d")
     = [py "a"; [dq] ++ py "b,c" ++ [dq]; py "d"].
Proof.
  repeat split.
  - apply split_csv_values_is_split_fields.
  - intros line Hne. rewrite split_csv_values_is_split_fields.
    destruct line; [congruence|]. unfold split_fields.
    now rewrite length_map, cut_length.
  - intros line Hne Hin. rewrite !split_csv_values_is_split_fields.
    unfold split_fields. destruct line as [|c l]; [congruence|].
    cbn [app]. change (c :: l ++ [ch ","]) with ((c :: l) ++ [ch ","]).
    rewrite cut_trailing_comma by assumption.
    now rewrite map_app.
  - rewrite split_csv_values_is_split_fields in H.
    unfold split_fields in H. destruct line; [contradiction|].
    apply in_map_iff in H as [x [<- _]]. apply strip_trimmed.
  - rewrite split_csv_values_is_split_fields in H.
    unfold split_fields in H. destruct line; [contradiction|].
    apply in_map_iff in H as [x [<- _]]. apply strip_trimmed.
  - rewrite split_csv_values_is_split_fields in H.
    unfold split_fields in H. destruct line; [contradiction|].
    apply in_map_iff in H as [x [<- _]]. apply strip_idempotent.
Qed.

(** ** The separator of a tag token *)

Lemma firstn_snoc {A} (s : list A) k c :
  nth_error s k = Some c -> firstn (S k) s = firstn k s ++ [c].
Proof.
  revert k. induction s as [|x s IH]; intros [|k] H; try discriminate.
  - now injection H as ->.
  - cbn in *. now rewrite (IH k H).
Qed.

Lemma meta_state_step s k c :
  nth_error s k = Some c ->
  meta_state_at s (S k) = meta_step (meta_state_at s k) c.
Proof.
  intros H. unfold meta_state_at.
  now rewrite (firstn_snoc s k c H), fold_left_app.
Qed.

Lemma meta_state_end s k :
  nth_error s k = None -> meta_state_at s (S k) = meta_state_at s k.
Proof.
  intros H. apply nth_error_None in H. unfold meta_state_at.
  now rewrite !firstn_all2 by lia.
Qed.

Lemma close_item_key its key cur :
  snd (close_item its key cur) = key \/ snd (close_item its key cur) = None.
Proof.
  unfold close_item. destruct (is_empty (strip cur)); [now left|].
  destruct (truthy key); [now right | now left].
Qed.

(** A key appears only at a colon met outside strings and URIs. *)
Lemma meta_step_sets_key st c k :
  current_key st = None ->
  current_key (meta_step st c) = Some k ->
  c = ch ":" /\ in_quote st = false /\ m_in_uri st = false
  /\ m_escape_next st = false /\ k = strip (current_val st).
Proof.
  destruct st as [its key cur inq inu esc]. cbn. intros ->.
  destruct esc; [discriminate|].
  destruct (N.eqb c bslash); [discriminate|].
  destruct (N.eqb c dq && negb inu)%bool; [discriminate|].
  destruct (N.eqb c btick && negb inq)%bool; [discriminate|].
  destruct (N.eqb_spec c (ch ":")) as [-> | Hc].
  - destruct inq, inu; cbn.
    4: { intros [= <-]. now repeat split. }
    all: destruct (_ && _)%bool;
      [destruct (close_item its None cur) eqn:Hci;
       pose proof (close_item_key its None cur) as Hk; rewrite Hci in Hk;
       cbn in *; destruct Hk; congruence
      | discriminate].
  - cbn [andb]. destruct (_ && _)%bool; [|discriminate].
    destruct (close_item its None cur) eqn:Hci.
    pose proof (close_item_key its None cur) as Hk. rewrite Hci in Hk.
    cbn in *. destruct Hk; congruence.
Qed.

(** A key is dropped only at a space that ends a token. *)
Lemma meta_step_drops_key st c k :
  current_key st = Some k ->
  current_key (meta_step st c) = None ->
  c = sp /\ in_quote st = false /\ m_in_uri st = false
  /\ m_escape_next st = false.
Proof.
  destruct st as [its key cur inq inu esc]. cbn. intros ->.
  destruct esc; [discriminate|].
  destruct (N.eqb c bslash); [discriminate|].
  destruct (N.eqb c dq && negb inu)%bool; [discriminate|].
  destruct (N.eqb c btick && negb inq)%bool; [discriminate|].
  rewrite andb_false_r.
  destruct (N.eqb_spec c sp) as [-> | Hc]; [|discriminate].
  destruct inq, inu; cbn; try discriminate. now repeat split.
Qed.

(** What the loop does with a colon: it takes it as the separator, and
    then holds no text under way, exactly when no character is escaped, no
    string and no URI is open and no key is held. *)
Lemma meta_step_colon st :
  current_val (meta_step st (ch ":")) = [] ->
  current_key st = None /\ in_quote st = false /\ m_in_uri st = false
  /\ m_escape_next st = false
  /\ current_key (meta_step st (ch ":")) = Some (strip (current_val st)).
Proof.
  destruct st as [its key cur inq inu esc]. cbn [meta_step].
  destruct esc; [intros H; now apply app_eq_nil in H as [_ H]|].
  change (N.eqb (ch ":") bslash) with false.
  change (N.eqb (ch ":") dq) with false.
  change (N.eqb (ch ":") btick) with false.
  change (N.eqb (ch ":") sp) with false.
  change (N.eqb (ch ":") (ch ":")) with true.
  cbn [andb].
  destruct inq, inu, key; cbn [negb andb current_val current_key];
    intros H; try (now apply app_eq_nil in H as [_ H]).
  now repeat split.
Qed.

Lemma meta_step_colon_taken its cur :
  meta_step (mk_meta its None cur false false false) (ch ":")
  = mk_meta its (Some (strip cur)) [] false false false.
Proof. reflexivity. Qed.

Lemma separator_at_inv s i :
  separator_at s i = true ->
  exists k, nth_error s i = Some (ch ":")
            /\ current_key (meta_state_at s i) = None
            /\ current_key (meta_state_at s (S i)) = Some k
            /\ in_quote (meta_state_at s i) = false
            /\ m_in_uri (meta_state_at s i) = false
            /\ m_escape_next (meta_state_at s i) = false
            /\ k = strip (current_val (meta_state_at s i)).
Proof.
  unfold separator_at.
  destruct (nth_error s i) as [c|] eqn:Hc; [|discriminate].
  rewrite (meta_state_step s i c Hc).
  intros H. apply andb_true_iff in H as [H1 H2].
  apply N.eqb_eq in H1. subst c.
  assert (H0 : current_val (meta_step (meta_state_at s i) (ch ":")) = []).
  { now destruct (current_val _). }
  destruct (meta_step_colon _ H0) as (Hk & Hq & Hu & He & Hk').
  exists (strip (current_val (meta_state_at s i))). now repeat split.
Qed.

(** The converse: the guard of the branch. *)
Lemma separator_at_guard s i :
  nth_error s i = Some (ch ":") ->
  current_key (meta_state_at s i) = None ->
  in_quote (meta_state_at s i) = false ->
  m_in_uri (meta_state_at s i) = false ->
  m_escape_next (meta_state_at s i) = false ->
  separator_at s i = true.
Proof.
  intros Hc Hk Hq Hu He. unfold separator_at.
  rewrite Hc, (meta_state_step s i _ Hc).
  destruct (meta_state_at s i) as [its key cur inq inu esc].
  cbn in Hk, Hq, Hu, He. subst. reflexivity.
Qed.

(** Without a token break the key stays. *)
Lemma key_kept_until_break s i : forall n k0,
  current_key (meta_state_at s (S i)) = Some k0 ->
  (forall k, i < k < S i + n -> ~ token_break_at s k) ->
  exists k1, current_key (meta_state_at s (S i + n)) = Some k1.
Proof.
  induction n as [|n IH]; intros k0 H0 Hnb.
  - exists k0. now rewrite Nat.add_0_r.
  - destruct (IH k0 H0) as [k1 Hk1]; [intros k Hk; apply Hnb; lia|].
    replace (S i + S n) with (S (S i + n)) by lia.
    destruct (nth_error s (S i + n)) as [c|] eqn:Hc.
    + rewrite (meta_state_step s _ c Hc).
      destruct (current_key (meta_step (meta_state_at s (S i + n)) c))
        as [k2|] eqn:Hk2; [now exists k2|].
      exfalso. apply (Hnb (S i + n)); [lia|].
      destruct (meta_step_drops_key _ _ _ Hk1 Hk2) as (-> & Hq & Hu & He).
      now repeat split.
    + rewrite (meta_state_end s _ Hc). now exists k1.
Qed.

(** C8 (as amended).  The character that [_parse_meta] takes as the
    key/value separator of a token is a colon met while no string and no
    URI is open, and two such colons are always apart by a space that ends
    a token: the separator is recognised at most once in a token.  The
    text before the colon, stripped, becomes the key. *)
Theorem meta_separator_once (s : str) (i : nat) :
  separator_at s i = true ->
  nth_error s i = Some (ch ":")
  /\ in_quote (meta_state_at s i) = false
  /\ m_in_uri (meta_state_at s i) = false
  /\ current_key (meta_state_at s (S i))
     = Some (strip (current_val (meta_state_at s i)))
  /\ (forall j, i < j -> separator_at s j = true ->
                exists k, i < k < j /\ token_break_at s k).
Proof.
  intros Hi.
  destruct (separator_at_inv s i Hi) as (k0 & Hc & _ & Hk0 & Hq & Hu & _ & Hk).
  subst k0. repeat split; try assumption.
  intros j Hij Hj. destruct (separator_at_inv s j Hj) as (_ & _ & Hnone & _).
  assert (Hdec : forall n, (exists k, i < k < S i + n /\ token_break_at s k)
                           \/ (forall k, i < k < S i + n -> ~ token_break_at s k)).
  { induction n as [|n [[k [Hk Hb]] | IHn]].
    - right. intros k Hk. lia.
    - left. exists k. split; [lia | assumption].
    - assert (Hd : token_break_at s (S i + n) \/ ~ token_break_at s (S i + n)).
      { unfold token_break_at. generalize (meta_state_at s (S i + n)) as st.
        intros st.
        destruct (nth_error s (S i + n)) as [c|]; [|right; now intros [? _]].
        destruct (N.eq_dec c sp) as [-> | Hne];
          [|right; intros [[= ?] _]; congruence].
        destruct (in_quote st), (m_in_uri st), (m_escape_next st);
          try (right; intros (_ & ? & ? & ?); discriminate).
        left. repeat split; reflexivity. }
      destruct Hd as [Hb | Hnb].
      + left. exists (S i + n). split; [lia | assumption].
      + right. intros k Hk.
        destruct (Nat.eq_dec k (S i + n)) as [-> | Hne]; [assumption|].
        apply IHn. lia. }
  destruct (Hdec (j - S i)) as [[k [Hk Hb]] | Hnb].
  - exists k. split; [lia | assumption].
  - exfalso.
    destruct (key_kept_until_break s i (j - S i) _ Hk0 Hnb) as [k1 Hk1].
    replace (S i + (j - S i)) with j in Hk1 by lia. congruence.
Qed.

(** ** The errors of [_parse_scalar] *)

Lemma complex_prefix_spec t : complex_prefix t = true <-> begins_complex t.
Proof.
  unfold complex_prefix, begins_complex.
  rewrite !orb_true_iff, !startswith_spec. split.
  - intros [[[r Hr] | [r Hr]] | [r Hr]]; exists r; auto.
  - intros [r [Hr | [Hr | Hr]]]; [left; left | left; right | right]; now exists r.
Qed.

Lemma of_option_builtin {A} f a (o : option A) e :
  of_option (BuiltinError f a) o = Err e -> builtin_error e.
Proof.
  destruct o; [discriminate|]. intros [= <-]. now exists f, a.
Qed.

Lemma bind_err {A B} (m : result A) (k : A -> result B) e :
  bind m k = Err e -> m = Err e \/ exists a, m = Ok a /\ k a = Err e.
Proof.
  destruct m as [a | e']; cbn; intros H.
  - right. now exists a.
  - left. congruence.
Qed.

Lemma bind_err_ok {A B} (m : result A) (k : A -> result B) b :
  bind m k = Ok b -> exists a, k a = Ok b.
Proof.
  destruct m as [a | e]; cbn; [now exists a | discriminate].
Qed.

Lemma unescape_scan_error uri : forall n s e,
  length s <= n -> unescape_scan uri s = Err e -> builtin_error e.
Proof.
  induction n as [|n IH]; intros s e Hlen.
  - destruct s; [discriminate | cbn in Hlen; lia].
  - destruct s as [|c rest]; [discriminate|].
    destruct (N.eq_dec c bslash) as [-> | Hc].
    + destruct rest as [|esc_c rest']; [discriminate|].
      destruct (one_of (py "uU") esc_c) eqn:Hu.
      * destruct rest' as [|h1 [|h2 [|h3 [|h4 rest'']]]].
        5: { rewrite (scan_unicode uri esc_c h1 h2 h3 h4 rest'' Hu).
             intros H. apply bind_err in H as [H | [x [_ H]]];
               [now apply of_option_builtin in H|].
             apply bind_err in H as [H | [y [_ H]]];
               [now apply of_option_builtin in H|].
             apply bind_err in H as [H | [z [_ H]]]; [|discriminate].
             apply (IH rest'' e); [cbn in Hlen; lia | exact H]. }
        all: rewrite scan_escape by (right; cbn; lia);
          intros H; apply bind_err in H as [H | [x [_ H]]]; [|discriminate];
          refine (IH _ e _ H); cbn in *; lia.
      * rewrite scan_escape by now left.
        intros H. apply bind_err in H as [H | [x [_ H]]]; [|discriminate].
        apply (IH rest' e); [cbn in Hlen; lia | exact H].
    + rewrite scan_plain_char by assumption.
      intros H. apply bind_err in H as [H | [x [_ H]]]; [|discriminate].
      apply (IH rest e); [cbn in Hlen; lia | exact H].
Qed.

Lemma unescape_error uri s e : _unescape uri s = Err e -> builtin_error e.
Proof.
  rewrite unescape_is_scan. apply (unescape_scan_error uri (length s)). lia.
Qed.

Lemma rule_error (value : str) (e : error) :
  In (Some (Err e)) (map (fun rule => rule value) decoding_rules) ->
  builtin_error e.
Proof.
  cbn. intros H.
  repeat destruct H as [H | H]; try contradiction.
  - unfold rule_coord in H.
    destruct (startswith _ value); [|discriminate].
    destruct (re_match COORD_RE value) as [[m r]|]; [|discriminate].
    injection H as H.
    apply bind_err in H as [H | [x [_ H]]]; [now apply of_option_builtin in H|].
    apply bind_err in H as [H | [y [_ H]]]; [now apply of_option_builtin in H|].
    discriminate.
  - unfold rule_ref in H.
    destruct (startswith _ value); [|discriminate].
    destruct (re_match REF_RE value) as [[m r]|]; discriminate.
  - unfold rule_bin in H.
    destruct (startswith _ value); [|discriminate].
    destruct (re_match BIN_RE value) as [[m r]|]; discriminate.
  - unfold rule_xstr in H.
    destruct (_ && _)%bool; [|discriminate].
    destruct (re_match XSTR_RE value) as [[m r]|]; [|discriminate].
    injection H as H.
    apply bind_err in H as [H | [x [_ H]]]; [|discriminate].
    now apply unescape_error in H.
  - unfold rule_uri in H.
    destruct (startswith _ value); [|discriminate].
    destruct (re_match URI_RE value) as [[m r]|]; [|discriminate].
    injection H as H.
    apply bind_err in H as [H | [x [_ H]]]; [|discriminate].
    now apply unescape_error in H.
  - unfold rule_str in H.
    destruct (startswith _ value); [|discriminate].
    destruct (re_match STR_RE value) as [[m r]|]; [|discriminate].
    injection H as H.
    apply bind_err in H as [H | [x [_ H]]]; [|discriminate].
    now apply unescape_error in H.
  - unfold rule_datetime in H.
    destruct (_ && _)%bool; [|discriminate].
    destruct (re_match DATETIME_RE value) as [[m r]|]; [|discriminate].
    injection H as H.
    apply bind_err in H as [H | [dt [_ H]]]; [now apply of_option_builtin in H|].
    destruct (group 2 m) as [[|c name]|]; try discriminate.
    destruct (has_tzinfo dt); [|discriminate].
    destruct (astimezone_named dt (c :: name)); discriminate.
  - unfold rule_date in H.
    destruct (re_match DATE_RE value); [|discriminate].
    injection H as H.
    apply bind_err in H as [H | [x [_ H]]]; [|discriminate].
    now apply of_option_builtin in H.
  - unfold rule_time in H.
    destruct (re_match TIME_RE value) as [[m r]|]; [|discriminate].
    injection H as H.
    apply bind_err in H as [H | [x [_ H]]]; [|discriminate].
    now apply of_option_builtin in H.
  - unfold rule_number in H.
    destruct (re_match NUMBER_RE value) as [[m r]|]; [|discriminate].
    injection H as H.
    apply bind_err in H as [H | [x [_ H]]]; [now apply of_option_builtin in H|].
    destruct (group 2 m) as [[|c u]|]; discriminate.
Qed.

Lemma dispatch_error value e :
  dispatch value = Err e -> builtin_error e.
Proof.
  unfold dispatch. intros H. apply (rule_error value e).
  revert H. generalize decoding_rules as rules.
  induction rules as [|rule rules IH]; [discriminate|].
  cbn. destruct (rule value) as [r|]; cbn.
  - intros ->. now left.
  - intros H. right. now apply IH.
Qed.

Lemma dispatch_error_rule value e :
  dispatch value = Err e ->
  exists rule, In rule decoding_rules /\ rule value = Some (Err e).
Proof.
  unfold dispatch. generalize decoding_rules as rules.
  induction rules as [|rule rules IH]; [discriminate|].
  cbn. destruct (rule value) as [r|] eqn:Hr; cbn.
  - intros ->. exists rule. split; [now left | assumption].
  - intros H. destruct (IH H) as [rule' [Hin Hrule]].
    exists rule'. split; [now right | assumption].
Qed.

Lemma dispatch_no_rule value :
  Forall (fun rule => rule value = None) decoding_rules ->
  dispatch value = Ok (VStr value).
Proof.
  unfold dispatch. generalize decoding_rules as rules.
  induction rules as [|rule rules IH]; [reflexivity|].
  intros H. inversion H as [|? ? Hr Hrest]; subst. cbn. rewrite Hr. cbn.
  now apply IH.
Qed.

(** [_parse_scalar], one case for each outcome of the tests before the
    pattern rules. *)
Lemma parse_scalar_cases (v : str) :
  let t := strip v in
  (t = [] /\ _parse_scalar v = Ok VNull)
  \/ (t <> [] /\ complex_prefix t = true /\ _parse_scalar v = Err ComplexType)
  \/ (t <> [] /\ complex_prefix t = false /\ In t literal_tokens
      /\ exists x, _parse_scalar v = Ok x)
  \/ (t <> [] /\ complex_prefix t = false /\ ~ In t literal_tokens
      /\ _parse_scalar v = dispatch t).
Proof.
  intros t. unfold _parse_scalar. fold t.
  destruct t as [|c r] eqn:Ht; [left; now split|]. rewrite <- Ht.
  assert (Hne : t <> []) by (rewrite Ht; discriminate).
  right. cbn [is_empty].
  replace (is_empty t) with false by (rewrite Ht; reflexivity).
  destruct (complex_prefix t) eqn:Hcp; [left; now repeat split|].
  right.
  unfold literal_tokens.
  repeat match goal with
         | |- context [if str_eqb t ?l then _ else _] =>
             let Heq := fresh "Heq" in
             destruct (str_eqb t l) eqn:Heq;
             [apply str_eqb_eq in Heq; left; repeat split; auto;
              [rewrite Heq; cbn; tauto | eexists; reflexivity]
             | apply str_eqb_neq in Heq]
         end.
  right. repeat split; auto.
  cbn. intuition congruence.
Qed.

(** ** The matcher on patterns that fail at once *)

Lemma rmatch_chr_fail p caps c r :
  p c = false -> rmatch (Chr p) caps (c :: r) = [].
Proof. intros H. cbn. now rewrite H. Qed.

Lemma rmatch_seq_fail a b caps s :
  rmatch a caps s = [] -> rmatch (Seq a b) caps s = [].
Proof. intros H. cbn. now rewrite H. Qed.

Lemma rmatch_grp_fail n a caps s :
  rmatch a caps s = [] -> rmatch (Grp n a) caps s = [].
Proof. intros H. cbn. now rewrite H. Qed.

Lemma rmatch_star_fail a caps s :
  rmatch a caps s = [] -> rmatch (Star a) caps s = [(caps, s)].
Proof.
  intros H. cbn. destruct (length s); cbn; [reflexivity|]. now rewrite H.
Qed.

Lemma rmatch_opt_fail a caps s :
  rmatch a caps s = [] -> rmatch (Opt a) caps s = [(caps, s)].
Proof. intros H. cbn. now rewrite H. Qed.

Lemma rmatch_seq_one a b caps s caps' s' :
  rmatch a caps s = [(caps', s')] ->
  rmatch (Seq a b) caps s = rmatch b caps' s'.
Proof. intros H. cbn. rewrite H. cbn. apply app_nil_r. Qed.

(** Goals on one character between known bounds. *)
Ltac char_solve :=
  cbv -[N.eqb N.leb N.ltb N.le N.lt];
  repeat match goal with
         | |- context [N.leb ?a ?b] => destruct (N.leb_spec a b)
         | |- context [N.ltb ?a ?b] => destruct (N.ltb_spec a b)
         | |- context [N.eqb ?a ?b] => destruct (N.eqb_spec a b)
         end;
  try reflexivity; try lia; try discriminate.

Lemma lower_bounds c : ascii_lower c = true -> (97 <= c <= 122)%N.
Proof.
  unfold ascii_lower, in_range. rewrite andb_true_iff, !N.leb_le. tauto.
Qed.

Lemma lower_not_space c : ascii_lower c = true -> isspace c = false.
Proof. intros H. apply lower_bounds in H. char_solve. Qed.

Lemma lower_not_digit c : ascii_lower c = true -> re_digit c = false.
Proof. intros H. apply lower_bounds in H. char_solve. Qed.

Lemma lower_has_char x t :
  ascii_lower x = false ->
  Forall (fun c => ascii_lower c = true) t -> has_char x t = false.
Proof.
  intros Hx Ht. apply has_char_false. intros Hin.
  rewrite Forall_forall in Ht. specialize (Ht x Hin). congruence.
Qed.

Lemma startswith_head a p c r : a <> c -> startswith (a :: p) (c :: r) = false.
Proof. intros H. cbn. apply N.eqb_neq in H. now rewrite H. Qed.

(** A token of lowercase ASCII letters matches no rule of the decoder. *)
Lemma lowercase_matches_no_rule (t : str) :
  t <> [] ->
  Forall (fun c => ascii_lower c = true) t ->
  strip t = t /\ complex_prefix t = false /\ matches_no_rule t.
Proof.
  intros Hne Hall. destruct t as [|c r]; [congruence|].
  pose proof (Forall_inv Hall) as Hc. cbn beta in Hc.
  pose proof (lower_bounds c Hc) as Hb.
  assert (Hsw : forall a p, (a < 97)%N \/ (122 < a)%N ->
                            startswith (a :: p) (c :: r) = false).
  { intros a p Ha. apply startswith_head. lia. }
  split; [|split; [|split]].
  - apply trimmed_strip. split.
    + intros c' r' [= <- _]. now apply lower_not_space.
    + intros c' r' Heq. apply lower_not_space.
      rewrite Forall_forall in Hall. apply Hall. rewrite Heq.
      apply in_or_app. right. now left.
  - unfold complex_prefix.
    change (py "[") with [91%N]. change (py "{") with [123%N].
    change (py "<<") with [60%N; 60%N].
    rewrite !Hsw by lia. reflexivity.
  - unfold literal_tokens. cbn [In]. intros H.
    repeat (destruct H as [H | H]); try contradiction;
      vm_compute in H; inversion H; subst; lia.
  - unfold decoding_rules. repeat constructor.
    + unfold rule_coord. change (py "C(") with [67%N; 40%N].
      now rewrite Hsw by lia.
    + unfold rule_ref. change (py "@") with [64%N]. now rewrite Hsw by lia.
    + unfold rule_bin. change (py "Bin(") with [66; 105; 110; 40]%N.
      now rewrite Hsw by lia.
    + unfold rule_xstr. now rewrite (lower_has_char (ch "(") (c :: r)).
    + unfold rule_uri. unfold btick. now rewrite Hsw by lia.
    + unfold rule_str. unfold dq. now rewrite Hsw by lia.
    + unfold rule_datetime. now rewrite (lower_has_char (ch "T") (c :: r)).
    + unfold rule_date, re_match, DATE_RE, cat. cbn [fold_right Rep].
      rewrite rmatch_seq_fail; [reflexivity|].
      rewrite rmatch_seq_fail; [reflexivity|].
      apply rmatch_chr_fail. now apply lower_not_digit.
    + unfold rule_time, re_match, TIME_RE, cat. cbn [fold_right Rep].
      rewrite rmatch_seq_fail; [reflexivity|].
      apply rmatch_grp_fail.
      rewrite rmatch_seq_fail; [reflexivity|].
      rewrite rmatch_seq_fail; [reflexivity|].
      apply rmatch_chr_fail. now apply lower_not_digit.
    + unfold rule_number, re_match, NUMBER_RE, cat, Plus. cbn [fold_right].
      rewrite rmatch_seq_fail; [reflexivity|].
      apply rmatch_grp_fail.
      rewrite (rmatch_seq_one _ _ [] (c :: r) [] (c :: r)).
      2: { apply rmatch_opt_fail, rmatch_chr_fail. char_solve. }
      rewrite (rmatch_seq_one _ _ [] (c :: r) [] (c :: r)).
      2: { apply rmatch_star_fail.
           rewrite rmatch_seq_fail; [reflexivity|].
           rewrite rmatch_seq_fail; [reflexivity|].
           apply rmatch_chr_fail. now apply lower_not_digit. }
      rewrite rmatch_seq_fail; [reflexivity|].
      rewrite rmatch_seq_fail; [reflexivity|].
      apply rmatch_chr_fail. now apply lower_not_digit.
Qed.

(** C4 (as amended).  [_parse_scalar] raises its own "Complex type" error
    exactly on the tokens that begin, once trimmed, with an opening
    bracket, an opening brace or [<<]; any other error it raises is the
    exception of a runtime conversion ([float], [int], [chr], [strptime],
    [iso8601.parse_date]) of a token that matches the pattern of a rule; a
    token that matches no rule is returned as it is, trimmed, as a string,
    and the tokens of lowercase letters are such tokens. *)
Theorem parse_scalar_errors (v : str) :
  (begins_complex (strip v) <-> _parse_scalar v = Err ComplexType)
  /\ (forall e, _parse_scalar v = Err e ->
                e = ComplexType
                \/ (builtin_error e
                    /\ exists rule, In rule decoding_rules
                                    /\ rule (strip v) = Some (Err e)))
  /\ (strip v <> [] -> ~ begins_complex (strip v) ->
      matches_no_rule (strip v) ->
      _parse_scalar v = Ok (VStr (strip v)))
  /\ (v <> [] -> Forall (fun c => ascii_lower c = true) v ->
      _parse_scalar v = Ok (VStr v)).
Proof.
  assert (Hbuiltin : forall e, builtin_error e -> e <> ComplexType).
  { intros e [f [a ->]]. discriminate. }
  assert (Hmain : strip v <> [] -> complex_prefix (strip v) = false ->
                  matches_no_rule (strip v) ->
                  _parse_scalar v = Ok (VStr (strip v))).
  { intros Hne Hcp [Hlit Hrules].
    destruct (parse_scalar_cases v) as [[H _] | [(_ & H & _) | [(_ & _ & H & _) | H]]];
      try congruence; try contradiction.
    destruct H as (_ & _ & _ & ->). now apply dispatch_no_rule. }
  split; [split|split; [|split]].
  - intros Hb. apply complex_prefix_spec in Hb.
    destruct (parse_scalar_cases v) as [[H _] | [(_ & _ & H) | [(_ & H & _) | (_ & H & _)]]];
      try congruence.
    rewrite H in Hb. discriminate.
  - intros Herr. apply complex_prefix_spec.
    destruct (parse_scalar_cases v) as [[_ H] | [(_ & H & _) | [(_ & _ & _ & [x H]) | (_ & _ & _ & H)]]];
      try congruence.
    rewrite H in Herr. apply dispatch_error in Herr.
    now apply Hbuiltin in Herr.
  - intros e Herr.
    destruct (parse_scalar_cases v) as [[_ H] | [(_ & _ & H) | [(_ & _ & _ & [x H]) | (_ & _ & _ & H)]]].
    + congruence.
    + left. congruence.
    + congruence.
    + rewrite H in Herr. right. split; [now apply dispatch_error in Herr|].
      now apply dispatch_error_rule.
  - intros Hne Hnb. apply Hmain; [assumption|].
    destruct (complex_prefix (strip v)) eqn:Hcp; [|reflexivity].
    apply complex_prefix_spec in Hcp. contradiction.
  - intros Hne Hall.
    destruct (lowercase_matches_no_rule v Hne Hall) as (Hs & Hcp & Hno).
    rewrite <- Hs at 2. apply Hmain; rewrite Hs; assumption.
Qed.

(** A URI token whose [\u] escape is followed by four characters that are
    no hexadecimal number raises the error of [int(s, 16)], in every
    runtime, and does not begin with a bracket, a brace or [<<]. *)
Lemma parse_scalar_bad_unicode_escape {ES : ExternalsSpec E} :
  _parse_scalar ([btick; bslash] ++ py "uzzzz" ++ [btick])
  = Err (BuiltinError BInt16 (py "zzzz")).
Proof.
  assert (H : _parse_scalar ([btick; bslash] ++ py "uzzzz" ++ [btick])
              = (u <- _unescape true (bslash :: py "uzzzz") ;; Ok (VUri u)))
    by reflexivity.
  rewrite H, unescape_is_scan.
  change (bslash :: py "uzzzz")
    with (bslash :: ch "u" :: ch "z" :: ch "z" :: ch "z" :: ch "z" :: []).
  rewrite scan_unicode by reflexivity.
  rewrite (py_int16_reject [ch "z"; ch "z"; ch "z"; ch "z"] (ch "z"));
    [reflexivity | now left | reflexivity].
Qed.

(** ** Tag names *)

Lemma star_chr_sound p : forall fuel caps s c' s',
  In (c', s') (star_iter (rmatch (Chr p)) fuel caps s) ->
  c' = caps /\ exists pre, s = pre ++ s' /\ Forall (fun x => p x = true) pre.
Proof.
  induction fuel as [|fuel IH]; intros caps s c' s' Hin.
  - cbn in Hin. destruct Hin as [[= <- <-] | []]. split; [reflexivity|].
    now exists [].
  - cbn [star_iter] in Hin. apply in_app_or in Hin as [Hin | Hin].
    + apply in_flat_map in Hin as [[c1 s1] [H1 H2]].
      cbn in H1. destruct s as [|x s]; [contradiction|].
      destruct (p x) eqn:Hx; [|contradiction].
      destruct H1 as [[= <- <-] | []].
      destruct (Nat.ltb _ _); [|contradiction].
      apply IH in H2 as [-> [pre [-> Hpre]]]. split; [reflexivity|].
      exists (x :: pre). split; [reflexivity | now constructor].
    + destruct Hin as [[= <- <-] | []]. split; [reflexivity|]. now exists [].
Qed.

Lemma star_iter_last body fuel caps s :
  In (caps, s) (star_iter body fuel caps s).
Proof.
  destruct fuel; cbn; [now left|]. apply in_or_app. right. now left.
Qed.

Lemma star_chr_complete p : forall pre fuel caps s s',
  length s <= fuel ->
  s = pre ++ s' -> Forall (fun x => p x = true) pre ->
  In (caps, s') (star_iter (rmatch (Chr p)) fuel caps s).
Proof.
  induction pre as [|x pre IH]; intros fuel caps s s' Hlen -> Hpre.
  - apply star_iter_last.
  - destruct fuel as [|fuel]; [cbn in Hlen; lia|].
    inversion Hpre as [|? ? Hx Hrest]; subst.
    cbn [star_iter]. apply in_or_app. left.
    apply in_flat_map. exists (caps, pre ++ s'). split.
    + cbn. rewrite Hx. now left.
    + replace (Nat.ltb (length (pre ++ s')) (length ((x :: pre) ++ s')))
        with true by (symmetry; apply Nat.ltb_lt; cbn; lia).
      apply IH; [cbn in Hlen; lia | reflexivity | assumption].
Qed.

Lemma re_test_true r s :
  re_test r s = true <-> exists m, In m (rmatch r [] s).
Proof.
  unfold re_test, re_match. destruct (rmatch r [] s) as [|m l]; cbn.
  - split; [discriminate | intros [m []]].
  - split; [intros _; exists m; now left | reflexivity].
Qed.

Lemma nl_is_space : isspace nl = true.
Proof. reflexivity. Qed.

Lemma tag_re_sound k : re_test TAG_RE k = true -> trimmed k -> tag_name k.
Proof.
  intros H [_ Hlast]. apply re_test_true in H as [[m s] Hin].
  unfold TAG_RE, cat in Hin. cbn [fold_right] in Hin.
  cbn [rmatch] in Hin. destruct k as [|c r]; [contradiction|].
  destruct (ascii_lower c) eqn:Hc; [|contradiction].
  cbn [flat_map] in Hin. rewrite app_nil_r in Hin.
  apply in_flat_map in Hin as [[c1 s1] [H1 H2]].
  apply star_chr_sound in H1 as [-> [pre [-> Hpre]]].
  destruct s1 as [|x [|y s1]].
  - exists c, pre. rewrite app_nil_r. now repeat split.
  - cbn in H2. destruct (N.eqb_spec x nl) as [-> | ]; [|contradiction].
    specialize (Hlast nl (c :: pre) eq_refl). now rewrite nl_is_space in Hlast.
  - contradiction.
Qed.

Lemma tag_re_complete k : tag_name k -> re_test TAG_RE k = true.
Proof.
  intros (c & r & -> & Hc & Hr). apply re_test_true.
  exists ([], []).
  unfold TAG_RE, cat. cbn [fold_right]. cbn [rmatch]. rewrite Hc.
  cbn [flat_map]. rewrite app_nil_r.
  apply in_flat_map. exists ([], []). split.
  - apply (star_chr_complete tag_char r); [lia | now rewrite app_nil_r | assumption].
  - cbn. now left.
Qed.

(** ** The tag-list parser: every name is checked *)

Lemma truthy_some key k : truthy key = Some k -> key = Some k.
Proof. destruct key as [[|c r]|]; cbn; congruence. Qed.

Lemma close_item_inv its key cur :
  meta_inv its key ->
  meta_inv (fst (close_item its key cur)) (snd (close_item its key cur)).
Proof.
  intros [Hits Hkey]. unfold close_item.
  destruct (is_empty (strip cur)); [now split|].
  destruct (truthy key) as [k|] eqn:Hk; cbn.
  - split; [|discriminate].
    apply Forall_app. split; [assumption|].
    constructor; [|constructor]. cbn. apply Hkey. now apply truthy_some.
  - split; [|assumption].
    apply Forall_app. split; [assumption|].
    constructor; [|constructor]. cbn. apply strip_trimmed.
Qed.

Lemma meta_step_inv st c :
  meta_inv (items st) (current_key st) ->
  meta_inv (items (meta_step st c)) (current_key (meta_step st c)).
Proof.
  destruct st as [its key cur inq inu esc]. cbn. intros Hinv.
  destruct esc; [exact Hinv|].
  destruct (N.eqb c bslash); [exact Hinv|].
  destruct (N.eqb c dq && negb inu)%bool; [exact Hinv|].
  destruct (N.eqb c btick && negb inq)%bool; [exact Hinv|].
  destruct (_ && _)%bool.
  - cbn. split; [apply Hinv|]. intros k [= <-]. apply strip_trimmed.
  - destruct (_ && _)%bool; [|exact Hinv].
    pose proof (close_item_inv its key cur Hinv) as H.
    destruct (close_item its key cur). exact H.
Qed.

Lemma meta_fold_inv s : forall st,
  meta_inv (items st) (current_key st) ->
  meta_inv (items (fold_left meta_step s st))
           (current_key (fold_left meta_step s st)).
Proof.
  induction s as [|c s IH]; intros st H; [exact H|].
  cbn. apply IH. now apply meta_step_inv.
Qed.

Lemma meta_items_trimmed s :
  Forall (fun it => trimmed (item_name it)) (meta_items s).
Proof.
  unfold meta_items. apply close_item_inv, meta_fold_inv.
  split; [constructor | discriminate].
Qed.

Lemma dict_set_keys {V} k (v : V) m x :
  In x (keys (dict_set k v m)) -> x = k \/ In x (keys m).
Proof.
  induction m as [|[k' v'] m IH]; cbn.
  - intros [<- | []]. now left.
  - destruct (str_eqb k' k); cbn.
    + intros [<- | H]; right; [now left | now right].
    + intros [<- | H]; [right; now left|].
      destruct (IH H) as [-> | H']; [now left | right; now right].
Qed.

Lemma meta_convert_keys its : forall m0 m,
  meta_convert its m0 = Ok m ->
  forall k, In k (keys m) ->
    In k (keys m0)
    \/ exists it, In it its /\ item_name it = k /\ re_test TAG_RE k = true.
Proof.
  induction its as [|it its IH]; intros m0 m H k Hk.
  - cbn in H. injection H as ->. now left.
  - destruct it as [name | key val]; cbn [meta_convert] in H.
    + destruct (re_test TAG_RE name) eqn:Hre; [|discriminate].
      destruct (IH _ _ H k Hk) as [Hin | (it & Hit & Hn & Ht)].
      * apply dict_set_keys in Hin as [-> | Hin]; [|now left].
        right. exists (Bare name). repeat split; [now left | assumption].
      * right. exists it. repeat split; [now right | assumption | assumption].
    + destruct (re_test TAG_RE key) eqn:Hre; [|discriminate].
      destruct (_parse_scalar val) as [x|]; [|discriminate]. cbn [bind] in H.
      destruct (IH _ _ H k Hk) as [Hin | (it & Hit & Hn & Ht)].
      * apply dict_set_keys in Hin as [-> | Hin]; [|now left].
        right. exists (Pair key val). repeat split; [now left | assumption].
      * right. exists it. repeat split; [now right | assumption | assumption].
Qed.

Lemma parse_meta_keys s m :
  _parse_meta s = Ok m -> forall k, In k (keys m) -> tag_name k.
Proof.
  intros H k Hk. unfold _parse_meta in H.
  destruct s as [|c s]; [injection H as <-; contradiction|].
  destruct (negb (isupper c)); [|discriminate].
  destruct (meta_convert_keys _ _ _ H k Hk) as [[] | (it & Hit & <- & Ht)].
  apply tag_re_sound; [assumption|].
  pose proof (meta_items_trimmed (c :: s)) as Hall.
  rewrite Forall_forall in Hall. now apply Hall.
Qed.

Lemma meta_convert_invalid its : forall m0,
  (exists it, In it its /\ re_test TAG_RE (item_name it) = false) ->
  exists e, meta_convert its m0 = Err e.
Proof.
  induction its as [|it its IH]; intros m0 [bad [Hin Hbad]]; [contradiction|].
  destruct it as [name | key val]; cbn [meta_convert].
  - destruct (re_test TAG_RE name) eqn:Hre; [|now eexists].
    apply IH. destruct Hin as [<- | Hin]; [cbn [item_name] in Hbad; congruence|].
    now exists bad.
  - destruct (re_test TAG_RE key) eqn:Hre; [|now eexists].
    destruct (_parse_scalar val) as [x | e]; [|now exists e]. cbn [bind].
    apply IH. destruct Hin as [<- | Hin]; [cbn [item_name] in Hbad; congruence|].
    now exists bad.
Qed.

(** ** The tag-list parser on tokens without quotes *)

Lemma plain_not_sp c : plain_char c -> c <> sp.
Proof. intros [H _] ->. discriminate H. Qed.

Lemma meta_step_plain its key cur c :
  plain_char c -> (c <> ch ":" \/ key <> None) ->
  meta_step (mk_meta its key cur false false false) c
  = mk_meta its key (cur ++ [c]) false false false.
Proof.
  intros Hp Hc. pose proof (plain_not_sp c Hp) as Hsp.
  destruct Hp as (_ & Hb & Hq & Ht).
  apply N.eqb_neq in Hb, Hq, Ht, Hsp. cbn. rewrite Hb, Hq, Ht, Hsp. cbn.
  destruct (N.eqb_spec c (ch ":")) as [-> | _]; [|reflexivity].
  destruct key; [reflexivity|]. destruct Hc; congruence.
Qed.

Lemma meta_fold_plain s : forall its key cur,
  Forall plain_char s ->
  (Forall (fun c => c <> ch ":") s \/ key <> None) ->
  fold_left meta_step s (mk_meta its key cur false false false)
  = mk_meta its key (cur ++ s) false false false.
Proof.
  induction s as [|c s IH]; intros its key cur Hp Hc.
  - now rewrite app_nil_r.
  - inversion Hp as [|? ? Hpc Hps]; subst. cbn [fold_left].
    rewrite meta_step_plain.
    + rewrite IH; [now rewrite <- app_assoc | assumption |].
      destruct Hc as [Hc | Hc]; [left; now inversion Hc | now right].
    + assumption.
    + destruct Hc as [Hc | Hc]; [left; now inversion Hc | now right].
Qed.

Lemma plain_text_strip n :
  Forall (fun c => isspace c = false) n -> strip n = n.
Proof.
  intros H. apply trimmed_strip. rewrite Forall_forall in H. split.
  - intros c r ->. apply H. now left.
  - intros c r ->. apply H. apply in_or_app. right. now left.
Qed.

Lemma name_text_plain n :
  name_text n ->
  n <> [] /\ Forall plain_char n /\ Forall (fun c => c <> ch ":") n
  /\ strip n = n.
Proof.
  intros [Hne Hall]. repeat split; try assumption.
  - eapply Forall_impl; [|exact Hall]. now intros c [H _].
  - eapply Forall_impl; [|exact Hall]. now intros c [_ H].
  - apply plain_text_strip. eapply Forall_impl; [|exact Hall].
    now intros c [[H _] _].
Qed.

Lemma value_text_plain v :
  value_text v -> v <> [] /\ Forall plain_char v /\ strip v = v.
Proof.
  intros [Hne Hall]. repeat split; try assumption.
  apply plain_text_strip. eapply Forall_impl; [|exact Hall]. now intros c [H _].
Qed.

Lemma scan_token tok its :
  token_text tok ->
  fold_left meta_step (render_token tok) (mk_meta its None [] false false false)
  = mk_meta its (token_key tok) (token_val tok) false false false.
Proof.
  destruct tok as [n | n v]; cbn [token_text render_token token_key token_val].
  - intros H. apply name_text_plain in H as (_ & Hp & Hc & _).
    rewrite meta_fold_plain; [reflexivity | assumption | now left].
  - intros [Hn Hv]. apply name_text_plain in Hn as (_ & Hp & Hc & Hs).
    apply value_text_plain in Hv as (_ & Hpv & _).
    rewrite fold_left_app, meta_fold_plain; [|assumption|now left].
    cbn [app fold_left]. change (meta_step (mk_meta its None n false false false) (ch ":"))
      with (mk_meta its (Some (strip n)) [] false false false).
    rewrite Hs, meta_fold_plain; [reflexivity | assumption | right; discriminate].
Qed.

Lemma close_token tok its :
  token_text tok ->
  close_item its (token_key tok) (token_val tok) = (its ++ [item_of tok], None).
Proof.
  destruct tok as [n | n v]; cbn [token_text token_key token_val item_of].
  - intros H. apply name_text_plain in H as (Hne & _ & _ & Hs).
    unfold close_item. rewrite Hs. destruct n; [congruence | reflexivity].
  - intros [Hn Hv]. apply name_text_plain in Hn as (Hne & _).
    apply value_text_plain in Hv as (Hnv & _ & Hs).
    unfold close_item. rewrite Hs.
    destruct v; [congruence|]. destruct n; [congruence | reflexivity].
Qed.

Lemma meta_step_space its key cur :
  meta_step (mk_meta its key cur false false false) sp
  = mk_meta (fst (close_item its key cur)) (snd (close_item its key cur)) []
            false false false.
Proof.
  cbn [meta_step]. change (N.eqb sp bslash) with false.
  change (N.eqb sp dq) with false. change (N.eqb sp btick) with false.
  change (N.eqb sp (ch ":")) with false. change (N.eqb sp sp) with true.
  cbn [andb negb]. now destruct (close_item its key cur).
Qed.

Lemma meta_items_render_from toks : forall its,
  toks <> [] -> Forall token_text toks ->
  let st := fold_left meta_step (render_tags toks)
                      (mk_meta its None [] false false false) in
  fst (close_item (items st) (current_key st) (current_val st))
  = its ++ map item_of toks.
Proof.
  induction toks as [|tok rest IH]; intros its Hne Hall; [congruence|].
  inversion Hall as [|? ? Htok Hrest]; subst.
  destruct rest as [|tok2 rest].
  - cbn [render_tags]. cbn zeta. rewrite scan_token by assumption. cbn.
    now rewrite close_token by assumption.
  - change (render_tags (tok :: tok2 :: rest))
      with (render_token tok ++ [sp] ++ render_tags (tok2 :: rest)).
    cbn zeta. rewrite fold_left_app, scan_token by assumption.
    cbn [app fold_left]. rewrite meta_step_space, close_token by assumption.
    cbn [fst snd]. cbn zeta in IH. rewrite IH; [|discriminate|assumption].
    now rewrite <- app_assoc.
Qed.

Lemma meta_items_render toks :
  Forall token_text toks -> meta_items (render_tags toks) = map item_of toks.
Proof.
  intros H. destruct toks as [|tok rest]; [reflexivity|].
  apply (meta_items_render_from (tok :: rest) []); [discriminate | assumption].
Qed.

Lemma meta_convert_tokens toks : forall xs m0,
  Forall (fun tok => tag_name (token_name tok)) toks ->
  Forall2 token_value toks xs ->
  meta_convert (map item_of toks) m0
  = Ok (fold_left (fun m '(tok, x) => dict_set (token_name tok) x m)
                  (combine toks xs) m0).
Proof.
  induction toks as [|tok toks IH]; intros xs m0 Hn Hv.
  - inversion Hv. reflexivity.
  - inversion Hv as [|? x ? xs' Hx Hxs]; subst.
    inversion Hn as [|? ? Hname Hnames]; subst.
    apply tag_re_complete in Hname.
    destruct tok as [n | n v]; cbn [map item_of meta_convert token_name] in *.
    + rewrite Hname. cbn in Hx. subst x. now rewrite (IH xs').
    + rewrite Hname. cbn in Hx. rewrite Hx. cbn [bind]. now rewrite (IH xs').
Qed.

Lemma render_tags_head tok rest :
  token_text tok ->
  exists c r s, token_name tok = c :: r /\ render_tags (tok :: rest) = c :: s.
Proof.
  intros H.
  assert (Hn : exists c r, token_name tok = c :: r).
  { destruct tok as [n | n v]; cbn in *;
      [destruct H as [Hne _] | destruct H as [[Hne _] _]];
      (destruct n as [|c r]; [congruence | now exists c, r]). }
  destruct Hn as [c [r Hn]]. exists c, r.
  assert (Hr : exists s, render_token tok = c :: s).
  { destruct tok as [n | n v]; cbn in *; subst; eexists; reflexivity. }
  destruct Hr as [s Hr].
  destruct rest as [|tok2 rest].
  - exists s. now split.
  - exists (s ++ [sp] ++ render_tags (tok2 :: rest)). split; [assumption|].
    change (render_tags (tok :: tok2 :: rest))
      with (render_token tok ++ [sp] ++ render_tags (tok2 :: rest)).
    now rewrite Hr.
Qed.

Lemma lower_not_upper c : ascii_lower c = true -> isupper c = false.
Proof. intros H. apply lower_bounds in H. char_solve. Qed.

Lemma parse_meta_tokens toks xs :
  Forall token_text toks ->
  Forall (fun tok => tag_name (token_name tok)) toks ->
  Forall2 token_value toks xs ->
  _parse_meta (render_tags toks) = Ok (tags_of toks xs).
Proof.
  intros Ht Hn Hv. destruct toks as [|tok rest].
  - inversion Hv. reflexivity.
  - destruct (render_tags_head tok rest (Forall_inv Ht)) as (c & r & s & Hname & Hr).
    unfold _parse_meta. rewrite Hr, <- Hr.
    pose proof (Forall_inv Hn) as (c' & r' & Heq & Hc & _). cbn beta in Heq.
    rewrite Hname in Heq. injection Heq as <- <-.
    rewrite (lower_not_upper c Hc). cbn [negb].
    rewrite meta_items_render by assumption.
    unfold tags_of. now apply meta_convert_tokens.
Qed.

Lemma parse_meta_invalid_token toks :
  Forall token_text toks ->
  Exists (fun tok => ~ tag_name (token_name tok)) toks ->
  exists e, _parse_meta (render_tags toks) = Err e.
Proof.
  intros Ht Hbad. destruct toks as [|tok rest]; [inversion Hbad|].
  destruct (render_tags_head tok rest (Forall_inv Ht)) as (c & r & s & Hname & Hr).
  unfold _parse_meta. rewrite Hr, <- Hr.
  destruct (isupper c); [cbn [negb]; now eexists|]. cbn [negb].
  rewrite meta_items_render by assumption.
  apply meta_convert_invalid.
  apply Exists_exists in Hbad as [bad [Hin Hnot]].
  exists (item_of bad). split; [now apply in_map|].
  destruct (re_test TAG_RE (item_name (item_of bad))) eqn:Hre; [|reflexivity].
  exfalso. apply Hnot.
  rewrite Forall_forall in Ht. specialize (Ht bad Hin).
  assert (Hs : strip (token_name bad) = token_name bad).
  { destruct bad as [n | n v]; cbn in *;
      [|destruct Ht as [Ht _]]; now apply name_text_plain in Ht. }
  replace (item_name (item_of bad)) with (token_name bad) in Hre
    by now destruct bad.
  apply tag_re_sound; [assumption|]. rewrite <- Hs. apply strip_trimmed.
Qed.

(** ** What a grid returned by [parse_grid_fast] went through *)

Lemma parse_grid_fast_inv (grid_str : str) (g : grid) :
  parse_grid_fast grid_str = Ok g ->
  exists line1 col_line lines ver_match after ver grid_meta columns,
    split_on nl grid_str = line1 :: col_line :: lines
    /\ re_match VERSION_RE line1 = Some (ver_match, after)
    /\ mk_version (grp 1 ver_match) = Some ver
    /\ _parse_meta (strip after) = Ok grid_meta
    /\ parse_columns (_split_csv_values col_line) = Ok columns
    /\ parse_rows (map fst columns) lines (mk_grid ver grid_meta columns [])
       = Ok g.
Proof.
  unfold parse_grid_fast. intros H.
  destruct (negb (contains _ _ || has_char _ _)); [|discriminate].
  destruct (negb (has_char _ _)); [|discriminate].
  apply bind_err_ok in H as [_ H].
  destruct (split_on nl grid_str) as [|line1 lines0] eqn:Hsplit; [discriminate|].
  destruct (re_match VERSION_RE line1) as [[ver_match after]|] eqn:Hre;
    [|discriminate].
  destruct (mk_version (grp 1 ver_match)) as [ver|] eqn:Hver; [|discriminate].
  cbn [of_option bind] in H.
  destruct (_parse_meta (strip after)) as [grid_meta|] eqn:Hmeta; [|discriminate].
  cbn [bind] in H.
  destruct lines0 as [|col_line lines]; [discriminate|].
  destruct (negb (re_search UPPER_TAG_RE col_line)); [|discriminate].
  destruct (parse_columns (_split_csv_values col_line)) as [columns|] eqn:Hcols;
    [|discriminate].
  cbn [bind] in H.
  exists line1, col_line, lines, ver_match, after, ver, grid_meta, columns.
  repeat split; assumption || reflexivity.
Qed.

(** ** A failing tag list fails the grid *)

Lemma grid_meta_failure grid_str line1 rest ver_match after e :
  split_on nl grid_str = line1 :: rest ->
  re_match VERSION_RE line1 = Some (ver_match, after) ->
  _parse_meta (strip after) = Err e ->
  exists e', parse_grid_fast grid_str = Err e'.
Proof.
  intros Hsplit Hre Hmeta.
  destruct (parse_grid_fast grid_str) as [g | e'] eqn:Hp; [|now exists e'].
  apply parse_grid_fast_inv in Hp
    as (l1 & cl & ls & vm & af & ver & gm & cols & Hs & Hr & _ & Hm & _).
  rewrite Hsplit in Hs. injection Hs as -> ->.
  rewrite Hre in Hr. injection Hr as -> ->. congruence.
Qed.

Lemma parse_columns_failure col_parts col_str e :
  In col_str col_parts -> parse_column col_str = Err e ->
  exists e', parse_columns col_parts = Err e'.
Proof.
  induction col_parts as [|c cs IH]; intros Hin Hcol; [contradiction|].
  cbn [parse_columns].
  destruct (parse_column c) as [col | e0] eqn:Hc; [|now exists e0]. cbn [bind].
  destruct Hin as [-> | Hin]; [congruence|].
  destruct (IH Hin Hcol) as [e' ->]. now exists e'.
Qed.

Lemma split_once_app sep a b :
  ~ In sep a -> split_once sep (a ++ sep :: b) = (a, Some b).
Proof.
  induction a as [|c a IH]; intros Hin; cbn.
  - now rewrite N.eqb_refl.
  - destruct (N.eqb_spec c sep) as [-> | _]; [exfalso; apply Hin; now left|].
    rewrite IH; [reflexivity | intros H; apply Hin; now right].
Qed.

Lemma parse_column_meta_failure col_str name tags e :
  strip col_str = name ++ sp :: tags -> ~ In sp name ->
  _parse_meta tags = Err e -> parse_column col_str = Err e.
Proof.
  intros Hs Hname Hmeta. unfold parse_column. rewrite Hs.
  replace (has_char sp (name ++ sp :: tags)) with true
    by (symmetry; apply has_char_In, in_or_app; right; now left).
  now rewrite split_once_app, Hmeta.
Qed.

Lemma column_meta_failure grid_str line1 col_line rest col_str name tags e :
  split_on nl grid_str = line1 :: col_line :: rest ->
  In col_str (_split_csv_values col_line) ->
  strip col_str = name ++ sp :: tags -> ~ In sp name ->
  _parse_meta tags = Err e ->
  exists e', parse_grid_fast grid_str = Err e'.
Proof.
  intros Hsplit Hin Hs Hname Hmeta.
  destruct (parse_grid_fast grid_str) as [g | e'] eqn:Hp; [|now exists e'].
  apply parse_grid_fast_inv in Hp
    as (l1 & cl & ls & vm & af & ver & gm & cols & Hsp & _ & _ & _ & Hc & _).
  rewrite Hsplit in Hsp. injection Hsp as -> -> ->.
  destruct (parse_columns_failure _ col_str e Hin
              (parse_column_meta_failure col_str name tags e Hs Hname Hmeta))
    as [e' He']. congruence.
Qed.

Lemma parse_meta_invalid_item s it :
  In it (meta_items s) -> ~ tag_name (item_name it) ->
  exists e, _parse_meta s = Err e.
Proof.
  intros Hin Hbad. unfold _parse_meta.
  destruct s as [|c s]; [contradiction|].
  destruct (isupper c); [cbn [negb]; now eexists|]. cbn [negb].
  apply meta_convert_invalid. exists it. split; [assumption|].
  destruct (re_test TAG_RE (item_name it)) eqn:Hre; [|reflexivity].
  exfalso. apply Hbad. apply tag_re_sound; [assumption|].
  pose proof (meta_items_trimmed (c :: s)) as Hall.
  rewrite Forall_forall in Hall. now apply Hall.
Qed.

(** What [_parse_meta] does check.  Every key of a mapping it returns is
    a tag name: a lowercase ASCII letter followed by ASCII letters, digits
    and underscores; an item of the list whose name is no tag name
    raises (a token that gives no item is not checked).  On
    a list of tokens without quotes, a name that is no tag name raises,
    and otherwise each bare tag is written with the Marker
    and each [name:value] with the scalar its value decodes to, in the
    order of the tokens.  A tag list that raises, on the version line or
    in a column of the header line, fails [parse_grid_fast], and
    [parse_grid] then is the fallback.  [foo] maps [foo] to the Marker,
    [foo:5] maps it to the number [float("5")], and the name [Foo] is
    refused. *)
Theorem parse_meta_tag_names :
  (forall s m, _parse_meta s = Ok m -> forall k, In k (keys m) -> tag_name k)
  /\ (forall s it,
        In it (meta_items s) -> ~ tag_name (item_name it) ->
        exists e, _parse_meta s = Err e)
  /\ (forall toks,
        Forall token_text toks ->
        Exists (fun tok => ~ tag_name (token_name tok)) toks ->
        exists e, _parse_meta (render_tags toks) = Err e)
  /\ (forall toks xs,
        Forall token_text toks ->
        Forall (fun tok => tag_name (token_name tok)) toks ->
        Forall2 token_value toks xs ->
        _parse_meta (render_tags toks) = Ok (tags_of toks xs))
  /\ (forall grid_str line1 rest ver_match after e,
        split_on nl grid_str = line1 :: rest ->
        re_match VERSION_RE line1 = Some (ver_match, after) ->
        _parse_meta (strip after) = Err e ->
        (exists e', parse_grid_fast grid_str = Err e')
        /\ forall X (slow : str -> bool -> outcome X) parseAll,
             parse_grid slow grid_str parseAll = slow grid_str parseAll)
  /\ (forall grid_str line1 col_line rest col_str name tags e,
        split_on nl grid_str = line1 :: col_line :: rest ->
        In col_str (_split_csv_values col_line) ->
        strip col_str = name ++ sp :: tags -> ~ In sp name ->
        _parse_meta tags = Err e ->
        (exists e', parse_grid_fast grid_str = Err e')
        /\ forall X (slow : str -> bool -> outcome X) parseAll,
             parse_grid slow grid_str parseAll = slow grid_str parseAll)
  /\ _parse_meta (py "foo") = Ok [(py "foo", VMarker)]
  /\ _parse_meta (py "foo:5")
     = (num <- to_float (py "5") ;; Ok [(py "foo", VNumber num None)])
  /\ _parse_meta (py "Foo") = Err InvalidMetadata
  /\ _parse_meta (py "bar Foo") = Err (InvalidTagName (py "Foo")).
Proof.
  split; [exact parse_meta_keys|].
  split; [exact parse_meta_invalid_item|].
  split; [exact parse_meta_invalid_token|].
  split; [exact parse_meta_tokens|].
  split; [|split].
  - intros grid_str line1 rest ver_match after e Hs Hr Hm.
    destruct (grid_meta_failure _ _ _ _ _ _ Hs Hr Hm) as [e' He'].
    split; [now exists e'|]. intros X slow parseAll.
    now apply parse_grid_on_failure with e'.
  - intros grid_str line1 col_line rest col_str name tags e Hs Hin Hc Hn Hm.
    destruct (column_meta_failure _ _ _ _ _ _ _ _ Hs Hin Hc Hn Hm) as [e' He'].
    split; [now exists e'|]. intros X slow parseAll.
    now apply parse_grid_on_failure with e'.
  - repeat split; try (vm_compute; reflexivity).
    assert (H1 : _parse_meta (py "foo:5")
                 = (v <- _parse_scalar (py "5") ;; Ok [(py "foo", v)]))
      by reflexivity.
    assert (H2 : _parse_scalar (py "5")
                 = (num <- to_float (py "5") ;; Ok (VNumber num None)))
      by reflexivity.
    rewrite H1, H2. now destruct (to_float (py "5")).
Qed.

(** ** Rows *)

Lemma dict_get_set_same {V} k (v : V) m : dict_get k (dict_set k v m) = Some v.
Proof.
  induction m as [|[k' v'] m IH]; cbn.
  - now rewrite str_eqb_refl.
  - destruct (str_eqb k' k) eqn:Hk; cbn; now rewrite Hk.
Qed.

Lemma dict_get_set_other {V} k k' (v : V) m :
  k <> k' -> dict_get k (dict_set k' v m) = dict_get k m.
Proof.
  intros Hne. induction m as [|[k0 v0] m IH]; cbn.
  - apply not_eq_sym, str_eqb_neq in Hne. now rewrite Hne.
  - destruct (str_eqb k0 k') eqn:Hk; cbn.
    + apply str_eqb_eq in Hk. subst k0.
      apply not_eq_sym, str_eqb_neq in Hne. now rewrite Hne.
    + destruct (str_eqb k0 k); [reflexivity | exact IH].
Qed.

Lemma dict_set_keys_eq {V} k (v : V) m :
  keys (dict_set k v m)
  = if existsb (str_eqb k) (keys m) then keys m else keys m ++ [k].
Proof.
  induction m as [|[k' v'] m IH]; cbn; [reflexivity|].
  destruct (str_eqb k' k) eqn:Hk.
  - apply str_eqb_eq in Hk. subst k'. now rewrite str_eqb_refl.
  - replace (str_eqb k k') with false.
    + cbn. fold (keys (dict_set k v m)). rewrite IH. fold (keys m).
      now destruct (existsb (str_eqb k) (keys m)).
    + symmetry. apply str_eqb_neq. apply str_eqb_neq in Hk. congruence.
Qed.

Lemma parse_scalar_empty : _parse_scalar [] = Ok VNull.
Proof. reflexivity. Qed.

Lemma build_row_untouched names : forall i vals row0 r k,
  build_row names i vals row0 = Ok r ->
  ~ In k names -> dict_get k r = dict_get k row0.
Proof.
  induction names as [|n names IH]; intros i vals row0 r k H Hk.
  - cbn in H. now injection H as ->.
  - cbn [build_row] in H. apply bind_err_ok in H as [v H].
    rewrite (IH _ _ _ _ k H) by (intros Hin; apply Hk; now right).
    apply dict_get_set_other. intros ->. apply Hk. now left.
Qed.

Lemma build_row_value i vals x :
  (if Nat.ltb i (length vals) then _parse_scalar (nth i vals []) else Ok VNull)
  = Ok x ->
  _parse_scalar (nth i vals []) = Ok x.
Proof.
  destruct (Nat.ltb_spec i (length vals)) as [Hlt | Hge]; [tauto|].
  intros H. now rewrite nth_overflow.
Qed.

Lemma build_row_spec names : forall i vals row0 r,
  build_row names i vals row0 = Ok r ->
  keys r = first_occurrences_from (keys row0) names
  /\ forall j name,
       nth_error names j = Some name ->
       (forall j', j < j' -> nth_error names j' <> Some name) ->
       exists x, dict_get name r = Some x
                 /\ _parse_scalar (nth (i + j) vals []) = Ok x.
Proof.
  induction names as [|n names IH]; intros i vals row0 r H.
  - cbn in H. injection H as ->. split; [reflexivity|].
    intros [|j] name Hj; discriminate.
  - cbn [build_row] in H.
    destruct (if Nat.ltb i (length vals) then _ else _) as [v|] eqn:Hv;
      [|discriminate].
    cbn [bind] in H. apply build_row_value in Hv.
    destruct (IH _ _ _ _ H) as [Hkeys Hvals]. split.
    + rewrite Hkeys, dict_set_keys_eq. reflexivity.
    + intros [|j] name Hj Hlast.
      * cbn in Hj. injection Hj as ->. exists v. rewrite Nat.add_0_r. split.
        -- rewrite (build_row_untouched _ _ _ _ _ name H).
           ++ apply dict_get_set_same.
           ++ intros Hin. apply In_nth_error in Hin as [j' Hj'].
              apply (Hlast (S j')); [lia | exact Hj'].
        -- exact Hv.
      * cbn in Hj. destruct (Hvals j name Hj) as [x [Hx Hp]].
        -- intros j' Hlt. apply (Hlast (S j')). lia.
        -- exists x. split; [exact Hx|].
           now replace (i + S j) with (S i + j) by lia.
Qed.

Lemma nth_pad_values n vals j : nth j (pad_values n vals) [] = nth j vals [].
Proof.
  unfold pad_values. destruct (Nat.lt_ge_cases j (length vals)) as [Hlt | Hge].
  - now rewrite app_nth1.
  - rewrite app_nth2 by assumption. rewrite (nth_overflow vals) by assumption.
    destruct (Nat.lt_ge_cases (j - length vals) (n - length vals)) as [H | H].
    + now rewrite nth_repeat_lt.
    + apply nth_overflow. now rewrite repeat_length.
Qed.

Lemma parse_row_spec names line r :
  parse_row names line = Ok r -> row_of_line names line r.
Proof.
  unfold parse_row. intros H.
  destruct (negb (contains _ line)); [|discriminate].
  apply bind_err_ok in H as [_ H].
  apply build_row_spec in H as [Hkeys Hvals].
  split; [exact Hkeys|].
  intros j name Hj Hlast. destruct (Hvals j name Hj Hlast) as [x [Hx Hp]].
  cbn [Nat.add] in Hp. rewrite nth_pad_values in Hp.
  exists x. split; [exact Hx|]. split; [now intros _|].
  intros Hge. rewrite nth_overflow in Hp by assumption.
  rewrite parse_scalar_empty in Hp. congruence.
Qed.

Lemma parse_rows_spec names lines : forall g0 g,
  parse_rows names lines g0 = Ok g ->
  g_version g = g_version g0 /\ g_metadata g = g_metadata g0
  /\ g_columns g = g_columns g0
  /\ exists rs,
       g_rows g = g_rows g0 ++ rs
       /\ Forall2 (row_of_line names)
                  (filter (fun l => negb (is_empty l)) (map strip lines)) rs.
Proof.
  induction lines as [|l lines IH]; intros g0 g H.
  - cbn in H. injection H as <-. repeat split. exists [].
    split; [now rewrite app_nil_r | constructor].
  - cbn [parse_rows] in H. cbn [map filter].
    destruct (is_empty (strip l)) eqn:Hblank; cbn [negb].
    + now apply IH.
    + destruct (parse_row names (strip l)) as [r|] eqn:Hr; [|discriminate].
      cbn [bind] in H. apply IH in H as (Hv & Hm & Hc & rs & Hrows & Hall).
      cbn in Hv, Hm, Hc, Hrows. repeat split; try assumption.
      exists (r :: rs). split.
      * now rewrite Hrows, <- app_assoc.
      * constructor; [now apply parse_row_spec | assumption].
Qed.

Lemma parse_column_name col_str col :
  parse_column col_str = Ok col -> fst col = column_name col_str.
Proof.
  unfold parse_column, column_name.
  destruct (has_char sp (strip col_str)) eqn:Hsp.
  - destruct (split_once sp (strip col_str)) as [name [rest|]].
    + intros H. apply bind_err_ok in H as [m [= <-]]. reflexivity.
    + now intros [= <-].
  - intros [= <-]. cbn [fst].
    apply has_char_false in Hsp. revert Hsp.
    induction (strip col_str) as [|c s IH]; intros Hsp; [reflexivity|].
    cbn. destruct (N.eqb_spec c sp) as [-> | _]; [exfalso; apply Hsp; now left|].
    destruct (split_once sp s) as [a b] eqn:Hab. cbn in *.
    rewrite <- IH; [reflexivity | intros H; apply Hsp; now right].
Qed.

Lemma parse_columns_names col_parts : forall columns,
  parse_columns col_parts = Ok columns ->
  map fst columns = map column_name col_parts.
Proof.
  induction col_parts as [|c cs IH]; intros columns H.
  - cbn in H. now injection H as <-.
  - cbn [parse_columns] in H.
    destruct (parse_column c) as [col|] eqn:Hc; [|discriminate].
    destruct (parse_columns cs) as [cols|]; [|discriminate].
    cbn in H. injection H as <-. cbn.
    now rewrite (parse_column_name c col Hc), (IH cols eq_refl).
Qed.

Lemma first_occurrences_from_nodup names : forall seen,
  NoDup (seen ++ names) -> first_occurrences_from seen names = seen ++ names.
Proof.
  induction names as [|n names IH]; intros seen Hnd; cbn.
  - now rewrite app_nil_r.
  - replace (existsb (str_eqb n) seen) with false.
    + rewrite IH; rewrite <- app_assoc; [reflexivity | exact Hnd].
    + symmetry. apply not_true_is_false. intros Hex.
      apply existsb_exists in Hex as [x [Hx Heq]].
      apply str_eqb_eq in Heq. subst x.
      apply NoDup_remove_2 in Hnd. apply Hnd. apply in_or_app. now left.
Qed.

Lemma first_occurrences_nodup names :
  NoDup names -> first_occurrences names = names.
Proof. intros H. now apply (first_occurrences_from_nodup names []). Qed.

(** C6.  In a grid returned by [parse_grid_fast] the columns are those the
    header line declares, and the rows are, in the order of the source, the
    rows of the row lines: the keys of a row are the column names in
    declared order, the entry of a column is the decoded field at the index
    of the column, Null when the line has fewer fields, and the fields
    beyond the columns give no entry.  The row [M,T] under the columns
    [a,b,c,d] is two decoded values and two nulls. *)
Theorem parse_grid_fast_rows :
  (forall grid_str g,
     parse_grid_fast grid_str = Ok g ->
     let names := map fst (g_columns g) in
     names = declared_columns grid_str
     /\ Forall2 (row_of_line names) (row_lines grid_str) (g_rows g)
     /\ (NoDup names -> Forall (fun r => keys r = names) (g_rows g)))
  /\ parse_grid_fast grid_text_2_of_4
     = (ver <- of_option (BuiltinError BVersion (py "3.0"))
                         (mk_version (py "3.0")) ;;
        Ok (mk_grid ver []
              [(py "a", []); (py "b", []); (py "c", []); (py "d", [])]
              [[(py "a", VMarker); (py "b", VBool true);
                (py "c", VNull); (py "d", VNull)]])).
Proof.
  split; [|reflexivity].
  intros grid_str g H names.
  apply parse_grid_fast_inv in H
    as (line1 & col_line & lines & vm & after & ver & gm & cols
        & Hsplit & _ & _ & _ & Hcols & Hrows).
  apply parse_rows_spec in Hrows as (_ & _ & Hc & rs & Hrs & Hall).
  cbn in Hc, Hrs. subst names. rewrite Hc, Hrs.
  assert (Hnames : map fst cols = declared_columns grid_str).
  { unfold declared_columns. rewrite Hsplit. cbn [nth].
    now apply parse_columns_names. }
  assert (Hlines : row_lines grid_str
                   = filter (fun l => negb (is_empty l)) (map strip lines)).
  { unfold row_lines. now rewrite Hsplit. }
  split; [exact Hnames|]. split; [now rewrite Hlines|].
  intros Hnd. clear Hrs Hlines.
  induction Hall as [|l r ls rs' [Hk _] _ IH]; [constructor|].
  constructor; [|exact IH].
  now rewrite Hk, first_occurrences_nodup.
Qed.

(** ** The first match of a pattern *)

Lemma hd_flat_map {A B} (f : A -> list B) x l y :
  hd_error (f x) = Some y -> hd_error (flat_map f (x :: l)) = Some y.
Proof.
  cbn. destruct (f x) as [|z zs]; [discriminate|]. now cbn.
Qed.

Lemma rmatch_seq_hd a b c s c1 s1 res :
  hd_error (rmatch a c s) = Some (c1, s1) ->
  hd_error (rmatch b c1 s1) = Some res ->
  hd_error (rmatch (Seq a b) c s) = Some res.
Proof.
  intros Ha Hb. cbn [rmatch].
  destruct (rmatch a c s) as [|[c1' s1'] l]; [discriminate|].
  cbn in Ha. injection Ha as -> ->.
  now apply (hd_flat_map (fun '(c', s') => rmatch b c' s')).
Qed.

Lemma rmatch_chr_hd p x c s :
  p x = true -> hd_error (rmatch (Chr p) c (x :: s)) = Some (c, s).
Proof. intros H. cbn. now rewrite H. Qed.

Lemma rmatch_lit_hd x c s : hd_error (rmatch (lit x) c (x :: s)) = Some (c, s).
Proof. apply rmatch_chr_hd, N.eqb_refl. Qed.

Lemma rmatch_lits_hd p : forall c s,
  hd_error (rmatch (lits p) c (p ++ s)) = Some (c, s).
Proof.
  induction p as [|x p IH]; intros c s; [reflexivity|].
  cbn [lits fold_right app].
  apply rmatch_seq_hd with c (p ++ s); [apply rmatch_lit_hd | apply IH].
Qed.

Lemma hd_app_some {A} (l l' : list A) y :
  hd_error l = Some y -> hd_error (l ++ l') = Some y.
Proof. destruct l; [discriminate | now cbn]. Qed.

Lemma star_iter_step body fuel c s :
  star_iter body (S fuel) c s
  = flat_map (fun '(c', s') =>
                if Nat.ltb (length s') (length s)
                then star_iter body fuel c' s' else [])
             (body c s)
    ++ [(c, s)].
Proof. reflexivity. Qed.

Lemma star_chr_hd p : forall pre fuel c s',
  Forall (fun x => p x = true) pre -> stops p s' ->
  length (pre ++ s') <= fuel ->
  hd_error (star_iter (rmatch (Chr p)) fuel c (pre ++ s')) = Some (c, s').
Proof.
  induction pre as [|x pre IH]; intros fuel c s' Hpre Hstop Hlen.
  - cbn [app]. destruct fuel; [reflexivity|]. rewrite star_iter_step.
    replace (rmatch (Chr p) c s') with (@nil (caps * str)); [reflexivity|].
    cbn. destruct s' as [|y r]; [reflexivity|]. now rewrite (Hstop y r).
  - destruct fuel as [|fuel]; [cbn in Hlen; lia|].
    inversion Hpre as [|? ? Hx Hrest]; subst.
    rewrite star_iter_step.
    replace (rmatch (Chr p) c ((x :: pre) ++ s')) with [(c, pre ++ s')]
      by (cbn; now rewrite Hx).
    cbn [flat_map].
    replace (Nat.ltb (length (pre ++ s')) (length ((x :: pre) ++ s'))) with true
      by (symmetry; apply Nat.ltb_lt; cbn; lia).
    apply hd_app_some, hd_app_some, IH; try assumption.
    cbn in Hlen. lia.
Qed.

Lemma rmatch_star_chr_hd p pre c s' :
  Forall (fun x => p x = true) pre -> stops p s' ->
  hd_error (rmatch (Star (Chr p)) c (pre ++ s')) = Some (c, s').
Proof.
  intros Hpre Hstop. cbn [rmatch]. now apply star_chr_hd.
Qed.

Lemma rmatch_plus_chr_hd p x pre c s' :
  p x = true -> Forall (fun y => p y = true) pre -> stops p s' ->
  hd_error (rmatch (Plus (Chr p)) c (x :: pre ++ s')) = Some (c, s').
Proof.
  intros Hx Hpre Hstop. unfold Plus.
  apply rmatch_seq_hd with c (pre ++ s');
    [now apply rmatch_chr_hd | now apply rmatch_star_chr_hd].
Qed.

Lemma firstn_consumed {A} (pre s' : list A) :
  firstn (length (pre ++ s') - length s') (pre ++ s') = pre.
Proof.
  rewrite length_app, Nat.add_sub. rewrite firstn_app, Nat.sub_diag.
  cbn. now rewrite firstn_all, app_nil_r.
Qed.

Lemma rmatch_grp_hd n a c pre s' c1 :
  hd_error (rmatch a c (pre ++ s')) = Some (c1, s') ->
  hd_error (rmatch (Grp n a) c (pre ++ s')) = Some ((n, pre) :: c1, s').
Proof.
  intros H. cbn [rmatch].
  destruct (rmatch a c (pre ++ s')) as [|[c1' s1'] l]; [discriminate|].
  cbn in H. injection H as -> ->. cbn. now rewrite firstn_consumed.
Qed.

Lemma rmatch_opt_hd a c s :
  hd_error (rmatch (Opt a) c s)
  = match hd_error (rmatch a c s) with
    | Some r => Some r
    | None => Some (c, s)
    end.
Proof.
  cbn. now destruct (rmatch a c s).
Qed.

Lemma rmatch_eps_hd c s : hd_error (rmatch Eps c s) = Some (c, s).
Proof. reflexivity. Qed.

Lemma parse_scalar_dispatch v :
  strip v <> [] -> complex_prefix (strip v) = false ->
  ~ In (strip v) literal_tokens ->
  _parse_scalar v = dispatch (strip v).
Proof.
  intros Hne Hcp Hlit.
  destruct (parse_scalar_cases v)
    as [[H _] | [(_ & H & _) | [(_ & _ & H & _) | (_ & _ & _ & H)]]];
    congruence || contradiction.
Qed.

(** A token that begins with [first], a character no literal token begins
    with. *)
Lemma not_literal first rest :
  ~ In first (py "MNRTFI-") -> ~ In (first :: rest) literal_tokens.
Proof.
  intros Hf Hin. apply Hf. unfold literal_tokens in Hin. cbn [In] in Hin.
  repeat (destruct Hin as [Hin | Hin]); try contradiction;
    vm_compute in Hin; injection Hin as <- _; vm_compute; tauto.
Qed.

(** A match adds captures, of groups of the pattern, in front of those it
    started with. *)
Lemma rmatch_extends r : forall c s c' s',
  In (c', s') (rmatch r c s) ->
  exists ext, c' = ext ++ c
              /\ Forall (fun b => has_group r (fst b) = true) ext.
Proof.
  induction r as [|p|a IHa b IHb|a IHa b IHb|a IHa|n a IHa|];
    intros c s c' s' Hin.
  - destruct Hin as [[= <- <-] | []]. now exists [].
  - cbn in Hin. destruct s as [|x s]; [contradiction|].
    destruct (p x); [|contradiction].
    destruct Hin as [[= <- <-] | []]. now exists [].
  - cbn [rmatch] in Hin. apply in_flat_map in Hin as [[c1 s1] [H1 H2]].
    apply IHa in H1 as [e1 [-> He1]]. apply IHb in H2 as [e2 [-> He2]].
    exists (e2 ++ e1). split; [now rewrite app_assoc|].
    apply Forall_app. split; eapply Forall_impl; try eassumption;
      cbn; intros x Hx; rewrite Hx; auto using orb_true_r.
  - cbn [rmatch] in Hin. apply in_app_or in Hin as [H | H];
      [apply IHa in H | apply IHb in H]; destruct H as [e [-> He]];
      exists e; (split; [reflexivity|]);
      eapply Forall_impl; try eassumption;
      cbn; intros x Hx; rewrite Hx; auto using orb_true_r.
  - cbn [rmatch] in Hin. revert Hin. generalize (length s) at 1 as fuel.
    intros fuel. revert c s c' s'.
    induction fuel as [|fuel IHf]; intros c s c' s' Hin.
    + destruct Hin as [[= <- <-] | []]. now exists [].
    + rewrite star_iter_step in Hin. apply in_app_or in Hin as [Hin | Hin].
      * apply in_flat_map in Hin as [[c1 s1] [H1 H2]].
        destruct (Nat.ltb _ _); [|contradiction].
        apply IHa in H1 as [e1 [-> He1]]. apply IHf in H2 as [e2 [-> He2]].
        exists (e2 ++ e1). split; [now rewrite app_assoc|].
        apply Forall_app. now split.
      * destruct Hin as [[= <- <-] | []]. now exists [].
  - cbn [rmatch] in Hin. apply in_map_iff in Hin as [[c1 s1] [[= <- <-] H]].
    apply IHa in H as [e [-> He]].
    exists ((n, firstn (length s - length s1) s) :: e). split; [reflexivity|].
    constructor.
    + cbn. now rewrite Nat.eqb_refl.
    + eapply Forall_impl; try eassumption.
      cbn; intros x Hx; rewrite Hx; auto using orb_true_r.
  - cbn in Hin. destruct s as [|x [|y s]]; try contradiction.
    + destruct Hin as [[= <- <-] | []]. now exists [].
    + destruct (N.eqb x nl); [|contradiction].
      destruct Hin as [[= <- <-] | []]. now exists [].
Qed.

Lemma group_extends n ext c :
  Forall (fun b => Nat.eqb (fst b) n = false) ext ->
  group n (ext ++ c) = group n c.
Proof.
  induction ext as [|[k v] ext IH]; intros H; [reflexivity|].
  inversion H as [|? ? Hk Hrest]; subst. cbn in *. rewrite Hk. now apply IH.
Qed.

(** ** Prefix matching in [_parse_scalar] *)

Lemma stops_at p x r : p x = false -> stops p (x :: r).
Proof. intros H y r' [= <- _]. exact H. Qed.

Lemma coord_re_prefix a0 a b0 b tail :
  Forall (fun x => none_of (py ",") x = true) (a0 :: a) ->
  Forall (fun x => none_of (py ")") x = true) (b0 :: b) ->
  re_match COORD_RE
    (py "C(" ++ (a0 :: a) ++ ch "," :: (b0 :: b) ++ ch ")" :: tail)
  = Some ([(2, b0 :: b); (1, a0 :: a)], tail).
Proof.
  intros Ha Hb. inversion Ha as [|? ? Ha0 Ha']; subst.
  inversion Hb as [|? ? Hb0 Hb']; subst.
  unfold re_match, COORD_RE, cat. cbn [fold_right].
  eapply rmatch_seq_hd; [apply rmatch_lits_hd|].
  eapply rmatch_seq_hd.
  { apply rmatch_grp_hd. apply rmatch_plus_chr_hd; try assumption.
    now apply stops_at. }
  eapply rmatch_seq_hd; [apply rmatch_lit_hd|].
  eapply rmatch_seq_hd.
  { apply rmatch_grp_hd. apply rmatch_plus_chr_hd; try assumption.
    now apply stops_at. }
  eapply rmatch_seq_hd; [apply rmatch_lit_hd|].
  reflexivity.
Qed.

Lemma bin_re_prefix mime tail :
  Forall (fun x => none_of (py ")") x = true) mime ->
  re_match BIN_RE (py "Bin(" ++ mime ++ ch ")" :: tail)
  = Some ([(1, mime)], tail).
Proof.
  intros Hm. unfold re_match, BIN_RE, cat. cbn [fold_right].
  eapply rmatch_seq_hd; [apply rmatch_lits_hd|].
  eapply rmatch_seq_hd.
  { apply rmatch_grp_hd. apply rmatch_star_chr_hd; try assumption.
    now apply stops_at. }
  eapply rmatch_seq_hd; [apply rmatch_lit_hd|].
  reflexivity.
Qed.

Lemma ref_re_prefix ident tail :
  Forall (fun x => ref_char x = true) ident -> stops ref_char tail ->
  exists m rest,
    re_match REF_RE (ch "@" :: ident ++ tail) = Some (m, rest)
    /\ grp 1 m = ident
    /\ (rmatch REF_DIS_RE [(1, ident)] tail = [] -> group 2 m = None).
Proof.
  intros Hid Hstop.
  assert (Hopt : exists m rest,
             hd_error (rmatch (Opt REF_DIS_RE) [(1, ident)] tail) = Some (m, rest)
             /\ grp 1 m = ident
             /\ (rmatch REF_DIS_RE [(1, ident)] tail = [] -> group 2 m = None)).
  { rewrite rmatch_opt_hd.
    destruct (rmatch REF_DIS_RE [(1, ident)] tail) as [|[m rest] l] eqn:Hd.
    - exists [(1, ident)], tail. now repeat split.
    - exists m, rest. repeat split; [|discriminate].
      destruct (rmatch_extends REF_DIS_RE [(1, ident)] tail m rest)
        as [ext [-> Hext]]; [rewrite Hd; now left|].
      unfold grp. rewrite group_extends; [reflexivity|].
      eapply Forall_impl; [|exact Hext]. intros [k v]. cbn.
      destruct k as [|[|[|k]]]; cbn; congruence. }
  destruct Hopt as (m & rest & Hhd & Hg1 & Hg2).
  exists m, rest. split; [|now split].
  unfold re_match, REF_RE, cat. cbn [fold_right].
  eapply rmatch_seq_hd; [apply rmatch_lit_hd|].
  eapply rmatch_seq_hd.
  { apply rmatch_grp_hd. now apply rmatch_star_chr_hd. }
  eapply rmatch_seq_hd; [exact Hhd|].
  reflexivity.
Qed.

Lemma ref_dis_fails c tail :
  (forall r, tail <> sp :: dq :: r) -> rmatch REF_DIS_RE c tail = [].
Proof.
  intros H. unfold REF_DIS_RE, cat. cbn [fold_right].
  destruct tail as [|x r]; [now apply rmatch_seq_fail|].
  destruct (N.eqb_spec sp x) as [<- | Hx].
  - rewrite (rmatch_seq_one _ _ c (sp :: r) c r)
      by reflexivity.
    destruct r as [|y r]; [now apply rmatch_seq_fail|].
    destruct (N.eqb_spec dq y) as [<- | Hy]; [now destruct (H r)|].
    apply rmatch_seq_fail, rmatch_chr_fail. now apply N.eqb_neq.
  - apply rmatch_seq_fail, rmatch_chr_fail. now apply N.eqb_neq.
Qed.

Lemma parse_scalar_ref_prefix v ident tail :
  strip v = ch "@" :: ident ++ tail ->
  Forall (fun x => ref_char x = true) ident -> stops ref_char tail ->
  exists dis,
    _parse_scalar v = Ok (VRef ident dis)
    /\ ((forall r, tail <> sp :: dq :: r) -> dis = None).
Proof.
  intros Hv Hid Hstop.
  destruct (ref_re_prefix ident tail Hid Hstop) as (m & rest & Hm & Hg1 & Hg2).
  exists (group 2 m). split.
  - rewrite parse_scalar_dispatch; rewrite Hv;
      [| discriminate | reflexivity
       | apply not_literal; vm_compute; intuition discriminate].
    unfold dispatch, decoding_rules. cbn [fold_right].
    change (rule_coord (ch "@" :: ident ++ tail)) with (@None (result scalar)).
    cbn [or_else]. unfold rule_ref.
    change (startswith (py "@") (ch "@" :: ident ++ tail)) with true.
    cbn iota. rewrite Hm, Hg1. reflexivity.
  - intros Htail. apply Hg2. now apply ref_dis_fails.
Qed.

Lemma parse_scalar_coord_prefix v a0 a b0 b tail :
  strip v = py "C(" ++ (a0 :: a) ++ ch "," :: (b0 :: b) ++ ch ")" :: tail ->
  Forall (fun x => none_of (py ",") x = true) (a0 :: a) ->
  Forall (fun x => none_of (py ")") x = true) (b0 :: b) ->
  _parse_scalar v
  = (lat <- to_float (a0 :: a) ;; lng <- to_float (b0 :: b) ;;
     Ok (VCoord lat lng)).
Proof.
  intros Hv Ha Hb.
  rewrite parse_scalar_dispatch; rewrite Hv;
    [| discriminate | reflexivity
     | apply not_literal; vm_compute; intuition discriminate].
  unfold dispatch, decoding_rules. cbn [fold_right]. unfold rule_coord at 1.
  change (startswith (py "C(") (py "C(" ++ ?x)) with true.
  cbn iota. now rewrite (coord_re_prefix a0 a b0 b tail Ha Hb).
Qed.

Lemma parse_scalar_bin_prefix v mime tail :
  strip v = py "Bin(" ++ mime ++ ch ")" :: tail ->
  Forall (fun x => none_of (py ")") x = true) mime ->
  _parse_scalar v = Ok (VBin mime).
Proof.
  intros Hv Hm.
  rewrite parse_scalar_dispatch; rewrite Hv;
    [| discriminate | reflexivity
     | apply not_literal; vm_compute; intuition discriminate].
  unfold dispatch, decoding_rules. cbn [fold_right].
  change (rule_coord (py "Bin(" ++ mime ++ ch ")" :: tail))
    with (@None (result scalar)).
  change (rule_ref (py "Bin(" ++ mime ++ ch ")" :: tail))
    with (@None (result scalar)).
  cbn [or_else]. unfold rule_bin.
  change (startswith (py "Bin(") (py "Bin(" ++ mime ++ ch ")" :: tail)) with true.
  cbn iota. now rewrite (bin_re_prefix mime tail Hm).
Qed.

(** C10.  The Reference, Coordinate, Bin and DateTime rules match their
    pattern at the start of the token and do not look at what follows the
    match.  Whatever the text [tail]: a token [@id tail], where [tail] is
    no display name, is the reference [id] without a display name; a
    token [C(a,b)tail] is the coordinate of [float(a)] and [float(b)]; a
    token [Bin(mime)tail] is the Bin of [mime].  So ["@foo bar"],
    ["C(1,2)x"], ["Bin(text/plain)x"] and ["2020-01-02T03:04:05Zx"] decode
    to what they decode to without their trailing text. *)
Theorem parse_scalar_discards_trailing_text :
  (forall v ident tail,
     strip v = ch "@" :: ident ++ tail ->
     Forall (fun x => ref_char x = true) ident -> stops ref_char tail ->
     (forall r, tail <> sp :: dq :: r) ->
     _parse_scalar v = Ok (VRef ident None))
  /\ (forall v a0 a b0 b tail,
        strip v = py "C(" ++ (a0 :: a) ++ ch "," :: (b0 :: b) ++ ch ")" :: tail ->
        Forall (fun x => none_of (py ",") x = true) (a0 :: a) ->
        Forall (fun x => none_of (py ")") x = true) (b0 :: b) ->
        _parse_scalar v
        = (lat <- to_float (a0 :: a) ;; lng <- to_float (b0 :: b) ;;
           Ok (VCoord lat lng)))
  /\ (forall v mime tail,
        strip v = py "Bin(" ++ mime ++ ch ")" :: tail ->
        Forall (fun x => none_of (py ")") x = true) mime ->
        _parse_scalar v = Ok (VBin mime))
  /\ _parse_scalar (py "@foo bar") = Ok (VRef (py "foo") None)
  /\ _parse_scalar (py "@foo bar") = _parse_scalar (py "@foo")
  /\ _parse_scalar (py "C(1,2)x")
     = (lat <- to_float (py "1") ;; lng <- to_float (py "2") ;;
        Ok (VCoord lat lng))
  /\ _parse_scalar (py "C(1,2)x") = _parse_scalar (py "C(1,2)")
  /\ _parse_scalar (py "Bin(text/plain)x") = Ok (VBin (py "text/plain"))
  /\ _parse_scalar (py "Bin(text/plain)x") = _parse_scalar (py "Bin(text/plain)")
  /\ _parse_scalar (py "2020-01-02T03:04:05Zx")
     = (dt <- of_option (BuiltinError BIso8601 (py "2020-01-02T03:04:05Z"))
                        (iso8601_parse_date (py "2020-01-02T03:04:05Z")) ;;
        Ok (VDateTime dt))
  /\ _parse_scalar (py "2020-01-02T03:04:05Zx")
     = _parse_scalar (py "2020-01-02T03:04:05Z").
Proof.
  split; [|split; [|split]].
  - intros v ident tail Hv Hid Hstop Htail.
    destruct (parse_scalar_ref_prefix v ident tail Hv Hid Hstop)
      as (dis & Hp & Hdis).
    now rewrite Hp, (Hdis Htail).
  - exact parse_scalar_coord_prefix.
  - exact parse_scalar_bin_prefix.
  - repeat split; vm_compute; reflexivity.
Qed.

End Properties.

(** * More properties of the module *)

Section MoreProperties.

Context {E : Externals}.

(** ** The field splitter: round trips *)

Lemma cut_nonempty t cur line : cut t cur line <> [].
Proof.
  revert t cur. induction line as [|c rest IH]; intros t cur; cbn.
  - discriminate.
  - destruct (separator t c); [discriminate | apply IH].
Qed.

Lemma join_cons sep x l : l <> [] -> join sep (x :: l) = x ++ sep ++ join sep l.
Proof. destruct l; [congruence | reflexivity]. Qed.

(** The pieces, put together again with the commas, are the line. *)
Lemma join_cut line : forall t cur,
  join [ch ","] (cut t cur line) = cur ++ line.
Proof.
  induction line as [|c rest IH]; intros t cur; cbn [cut].
  - cbn. now rewrite app_nil_r.
  - destruct (separator t c) eqn:Hsep.
    + rewrite join_cons by apply cut_nonempty. rewrite IH.
      unfold separator in Hsep. apply andb_true_iff in Hsep as [Hc _].
      apply N.eqb_eq in Hc. now subst c.
    + rewrite IH. now rewrite <- app_assoc.
Qed.

Lemma cut_chars (P : char -> Prop) line : forall t cur,
  Forall P cur -> Forall P line -> Forall (Forall P) (cut t cur line).
Proof.
  induction line as [|c rest IH]; intros t cur Hcur Hline; cbn [cut].
  - now constructor.
  - inversion Hline as [|? ? Hc Hrest]; subst.
    destruct (separator t c).
    + constructor; [assumption|]. apply IH; [constructor | assumption].
    + apply IH; [|assumption]. apply Forall_app. split; [assumption|].
      now constructor.
Qed.

Lemma map_strip_plain (l : list str) :
  Forall (Forall (fun c => isspace c = false)) l -> map strip l = l.
Proof.
  induction 1 as [|x l Hx _ IH]; [reflexivity|]. cbn.
  now rewrite IH, plain_text_strip.
Qed.

(** X1.  On a line without white space, joining the fields of
    [_split_csv_values] with commas gives the line back: the splitter
    drops nothing but the white space around the fields. *)
Theorem split_csv_values_join (line : str) :
  Forall (fun c => isspace c = false) line ->
  join [ch ","] (_split_csv_values line) = line.
Proof.
  intros Hline. rewrite split_csv_values_is_split_fields.
  unfold split_fields. destruct line as [|c l] eqn:Hl; [reflexivity|].
  rewrite <- Hl in *. rewrite map_strip_plain.
  - apply (join_cut line trackers_init []).
  - apply cut_chars; [constructor | assumption].
Qed.

Lemma csv_plain_spec c :
  csv_plain c = true ->
  c <> dq /\ c <> btick /\ c <> ch "(" /\ c <> ch ")" /\ c <> ch ",".
Proof.
  intros H. repeat split; intros ->; discriminate H.
Qed.

Lemma track_plain t c :
  inactive t = true -> csv_plain c = true ->
  track t c = t /\ separator t c = false.
Proof.
  intros Ht Hc. apply csv_plain_spec in Hc as (H1 & H2 & H3 & H4 & H5).
  apply N.eqb_neq in H1, H2, H3, H4, H5.
  destruct t as [ins inu esc depth]. unfold inactive in Ht. cbn in Ht.
  destruct ins, inu, esc; try discriminate Ht.
  unfold separator. cbn [track]. rewrite H1, H2, H3, H4, H5.
  now rewrite andb_false_r.
Qed.

Lemma cut_plain f : forall cur rest,
  Forall (fun c => csv_plain c = true) f ->
  cut trackers_init cur (f ++ rest) = cut trackers_init (cur ++ f) rest.
Proof.
  induction f as [|c f IH]; intros cur rest Hf.
  - now rewrite app_nil_r.
  - inversion Hf as [|? ? Hc Hrest]; subst. cbn [app cut].
    destruct (track_plain trackers_init c eq_refl Hc) as [-> ->].
    rewrite IH by assumption. now rewrite <- app_assoc.
Qed.

Lemma cut_inside (d : char) (ins inu : bool) q : forall cur rest,
  (ins || inu)%bool = true ->
  (d = dq /\ ins = true /\ inu = false)
  \/ (d = btick /\ ins = false /\ inu = true) ->
  ~ In d q -> ~ In bslash q ->
  cut (mk_trackers ins inu false 0) cur (q ++ d :: rest)
  = cut trackers_init (cur ++ q ++ [d]) rest.
Proof.
  induction q as [|c q IH]; intros cur rest Hin Hd Hq Hb.
  - cbn [app cut]. unfold separator, inactive. cbn.
    destruct Hd as [(-> & -> & ->) | (-> & -> & ->)]; reflexivity.
  - cbn [app cut].
    assert (Hc1 : N.eqb c bslash = false)
      by (apply N.eqb_neq; intros ->; apply Hb; now left).
    assert (Hc2 : N.eqb c d = false)
      by (apply N.eqb_neq; intros ->; apply Hq; now left).
    assert (Hsep : separator (mk_trackers ins inu false 0) c = false).
    { unfold separator, inactive. cbn.
      destruct Hd as [(_ & -> & ->) | (_ & -> & ->)]; cbn;
        now rewrite andb_false_r. }
    assert (Htr : track (mk_trackers ins inu false 0) c
                  = mk_trackers ins inu false 0).
    { cbn [track]. rewrite Hc1.
      destruct Hd as [(-> & -> & ->) | (-> & -> & ->)]; cbn;
        rewrite Hc2; cbn; rewrite ?andb_false_r; reflexivity. }
    rewrite Hsep, Htr, IH; try assumption.
    + now rewrite <- app_assoc.
    + intros H. apply Hq. now right.
    + intros H. apply Hb. now right.
Qed.

Lemma cut_block f : forall cur rest,
  csv_block f ->
  cut trackers_init cur (f ++ rest) = cut trackers_init (cur ++ f) rest.
Proof.
  intros cur rest [Hp | [(q & -> & Hq & Hb) | (u & -> & Hu & Hb)]].
  - now apply cut_plain.
  - cbn [app cut]. change (separator trackers_init dq) with false.
    cbn iota. change (track trackers_init dq) with (mk_trackers true false false 0).
    rewrite <- app_assoc. cbn [app].
    rewrite (cut_inside dq true false q); auto.
    now rewrite <- app_assoc.
  - cbn [app cut]. change (separator trackers_init btick) with false.
    cbn iota.
    change (track trackers_init btick) with (mk_trackers false true false 0).
    rewrite <- app_assoc. cbn [app].
    rewrite (cut_inside btick false true u); auto.
    now rewrite <- app_assoc.
Qed.

Lemma cut_join fields : forall cur,
  fields <> [] ->
  Forall csv_block fields ->
  cut trackers_init cur (join [ch ","] fields)
  = (cur ++ hd [] fields) :: tl fields.
Proof.
  induction fields as [|f rest IH]; intros cur Hne Hall; [congruence|].
  inversion Hall as [|? ? Hf Hrest]; subst.
  destruct rest as [|g rest].
  - cbn [join hd tl]. rewrite <- (app_nil_r f) at 1.
    now rewrite cut_block.
  - rewrite join_cons by discriminate. rewrite cut_block by assumption.
    cbn [app cut]. change (separator trackers_init (ch ",")) with true.
    cbn iota. rewrite (IH []) by (assumption || discriminate). reflexivity.
Qed.

Lemma join_not_nil sep x fields :
  fields <> [] -> fields <> [[]] -> join (x :: sep) fields <> [].
Proof.
  destruct fields as [|f [|g rest]]; try congruence.
  - cbn. intros _ H ->. congruence.
  - intros _ _. cbn [join]. destruct f; discriminate.
Qed.

(** X2.  A list of trimmed fields, each a text without commas, quotes,
    backticks and parens, a double-quoted string or a backtick URI (commas
    allowed inside these two), joined with commas, is split into these
    fields again; the list of the one empty field is left out, its line
    is empty and has no field. *)
Theorem split_csv_values_of_join (fields : list str) :
  fields <> [] -> fields <> [[]] ->
  Forall (fun f => csv_block f /\ strip f = f) fields ->
  _split_csv_values (join [ch ","] fields) = fields.
Proof.
  intros Hne Hne1 Hall. rewrite split_csv_values_is_split_fields.
  unfold split_fields.
  destruct (join [ch ","] fields) as [|c l] eqn:Hj;
    [now apply join_not_nil in Hj|].
  rewrite <- Hj. rewrite cut_join.
  - assert (Hmap : map strip fields = fields).
    { clear Hj Hne Hne1. induction Hall as [|x xs [_ Hx] _ IH]; [reflexivity|].
      cbn [map]. now rewrite Hx, IH. }
    destruct fields as [|f rest]; [congruence|]. exact Hmap.
  - assumption.
  - eapply Forall_impl; [|exact Hall]. now intros f [Hf _].
Qed.

(** ** The scalar decoder: white space, strings and URIs *)

Lemma lstrip_spaces v : Forall (fun c => isspace c = true) v -> lstrip v = [].
Proof.
  induction 1 as [|c v Hc _ IH]; [reflexivity|]. cbn. now rewrite Hc.
Qed.

(** X3.  The scalar decoder does not see the white space around a token,
    and a token of white space only (the empty token among them) is
    Null. *)
Theorem parse_scalar_ignores_outer_space (v : str) (ver : version) :
  parse_scalar (strip v) ver = parse_scalar v ver
  /\ (Forall (fun c => isspace c = true) v -> parse_scalar v ver = Ok VNull).
Proof.
  unfold parse_scalar, _parse_scalar. split.
  - now rewrite strip_idempotent.
  - intros H. unfold strip. now rewrite (lstrip_spaces v H).
Qed.

Lemma date_re_fails c r : re_digit c = false -> re_match DATE_RE (c :: r) = None.
Proof.
  intros H. unfold re_match, DATE_RE, cat. cbn [fold_right Rep].
  rewrite rmatch_seq_fail; [reflexivity|].
  rewrite rmatch_seq_fail; [reflexivity|].
  now apply rmatch_chr_fail.
Qed.

Lemma time_re_fails c r : re_digit c = false -> re_match TIME_RE (c :: r) = None.
Proof.
  intros H. unfold re_match, TIME_RE, cat. cbn [fold_right Rep].
  rewrite rmatch_seq_fail; [reflexivity|].
  apply rmatch_grp_fail.
  rewrite rmatch_seq_fail; [reflexivity|].
  rewrite rmatch_seq_fail; [reflexivity|].
  now apply rmatch_chr_fail.
Qed.

Lemma number_re_fails c r :
  re_digit c = false -> one_of (py "+-") c = false ->
  re_match NUMBER_RE (c :: r) = None.
Proof.
  intros Hd Hs. unfold re_match, NUMBER_RE, cat, Plus. cbn [fold_right].
  rewrite rmatch_seq_fail; [reflexivity|].
  apply rmatch_grp_fail.
  rewrite (rmatch_seq_one _ _ [] (c :: r) [] (c :: r))
    by now apply rmatch_opt_fail, rmatch_chr_fail.
  rewrite (rmatch_seq_one _ _ [] (c :: r) [] (c :: r)).
  2: { apply rmatch_star_fail.
       rewrite rmatch_seq_fail; [reflexivity|].
       rewrite rmatch_seq_fail; [reflexivity|].
       now apply rmatch_chr_fail. }
  rewrite rmatch_seq_fail; [reflexivity|].
  rewrite rmatch_seq_fail; [reflexivity|].
  now apply rmatch_chr_fail.
Qed.

Lemma xstr_re_fails c r : re_word c = false -> re_match XSTR_RE (c :: r) = None.
Proof.
  intros H. unfold re_match, XSTR_RE, cat, Plus. cbn [fold_right].
  rewrite rmatch_seq_fail; [reflexivity|].
  apply rmatch_grp_fail.
  rewrite rmatch_seq_fail; [reflexivity|].
  now apply rmatch_chr_fail.
Qed.

(** The rules after the string rule, on a token whose first character is
    no digit, no sign. *)
Lemma late_rules_fail c r :
  isdigit c = false -> re_digit c = false -> one_of (py "+-") c = false ->
  rule_datetime (c :: r) = None /\ rule_date (c :: r) = None
  /\ rule_time (c :: r) = None /\ rule_number (c :: r) = None.
Proof.
  intros Hi Hd Hs. repeat split.
  - unfold rule_datetime. rewrite Hi.
    replace (N.eqb c (ch "-")) with false.
    + now rewrite andb_false_r.
    + symmetry. apply orb_false_iff in Hs as [_ Hs].
      apply orb_false_iff in Hs as [Hs _]. exact Hs.
  - unfold rule_date. now rewrite date_re_fails.
  - unfold rule_time. now rewrite time_re_fails.
  - unfold rule_number. now rewrite number_re_fails.
Qed.

Lemma endswith_last x s c : x <> c -> endswith [x] (s ++ [c]) = false.
Proof.
  intros H. unfold endswith. rewrite rev_app_distr. cbn.
  apply N.eqb_neq in H. now rewrite H.
Qed.

Lemma quoted_trimmed d s : isspace d = false -> strip (d :: s ++ [d]) = d :: s ++ [d].
Proof.
  intros Hd. apply trimmed_strip. split.
  - now intros c r [= <- _].
  - intros c r H. change (d :: s ++ [d]) with ((d :: s) ++ [d]) in H.
    apply app_inj_tail in H as [_ <-]. exact Hd.
Qed.

Lemma uri_re_match u :
  ~ In btick u ->
  re_match URI_RE (btick :: u ++ [btick]) = Some ([(1, u)], []).
Proof.
  intros Hu. unfold re_match, URI_RE, cat. cbn [fold_right].
  eapply rmatch_seq_hd; [apply rmatch_lit_hd|].
  eapply rmatch_seq_hd.
  { apply rmatch_grp_hd. apply rmatch_star_chr_hd.
    - apply Forall_forall. intros x Hx. apply negb_true_iff, N.eqb_neq.
      intros ->. contradiction.
    - now apply stops_at. }
  eapply rmatch_seq_hd; [apply rmatch_lit_hd|].
  reflexivity.
Qed.

Lemma xstr_guard_fails d s :
  d <> ch ")" -> rule_xstr (d :: s ++ [d]) = None.
Proof.
  intros Hd. unfold rule_xstr.
  change (d :: s ++ [d]) with ((d :: s) ++ [d]).
  change (py ")") with [ch ")"].
  rewrite endswith_last by congruence.
  now rewrite andb_false_r.
Qed.

(** X4.  A token in backticks whose content has no backtick is the URI of
    its content unescaped in URI mode, and of the content itself when it
    has no backslash; it raises only where the unescaping does. *)
Theorem parse_scalar_uri (u : str) (ver : version) :
  ~ In btick u ->
  parse_scalar (btick :: u ++ [btick]) ver
  = (x <- _unescape true u ;; Ok (VUri x))
  /\ (~ In bslash u -> parse_scalar (btick :: u ++ [btick]) ver = Ok (VUri u)).
Proof.
  intros Hu.
  assert (H : parse_scalar (btick :: u ++ [btick]) ver
              = (x <- _unescape true u ;; Ok (VUri x))).
  { unfold parse_scalar. rewrite parse_scalar_dispatch;
      rewrite (quoted_trimmed btick u eq_refl);
      [| discriminate | reflexivity
       | apply not_literal; vm_compute; intuition discriminate].
    unfold dispatch, decoding_rules. cbn [fold_right].
    change (rule_coord (btick :: u ++ [btick])) with (@None (result scalar)).
    change (rule_ref (btick :: u ++ [btick])) with (@None (result scalar)).
    change (rule_bin (btick :: u ++ [btick])) with (@None (result scalar)).
    rewrite xstr_guard_fails by discriminate.
    cbn [or_else]. unfold rule_uri.
    change (startswith [btick] (btick :: u ++ [btick])) with true.
    cbn iota. now rewrite (uri_re_match u Hu). }
  split; [exact H|].
  intros Hb. rewrite H. unfold _unescape.
  now rewrite (proj2 (has_char_false bslash u) Hb).
Qed.

(** ** String tokens *)

Lemma rmatch_seq_chr p r c x s :
  rmatch (Seq (Chr p) r) c (x :: s) = if p x then rmatch r c s else [].
Proof. cbn [rmatch]. destruct (p x); cbn; [apply app_nil_r | reflexivity]. Qed.

Lemma rmatch_seq_eps r c s : rmatch (Seq r Eps) c s = rmatch r c s.
Proof.
  cbn [rmatch]. induction (rmatch r c s) as [|[c' s'] l IH]; [reflexivity|].
  cbn [flat_map app]. now rewrite IH.
Qed.

Lemma str_body_sound c s c' s' :
  In (c', s') (rmatch STR_BODY c s) ->
  c' = c /\ exists u, s = u ++ s' /\ esc_unit u.
Proof.
  unfold STR_BODY, cat, lit. cbn [fold_right Rep].
  change (rmatch (Alt ?a ?b) c ?s) with (rmatch a c s ++ rmatch b c s).
  change (rmatch (Alt ?a ?b) c ?s) with (rmatch a c s ++ rmatch b c s).
  intros H. destruct s as [|x s]; [contradiction|].
  rewrite !rmatch_seq_chr in H.
  apply in_app_or in H as [H | H]; [|apply in_app_or in H as [H | H]].
  - cbn [rmatch] in H.
    destruct (none_of [dq; bslash] x) eqn:Hx; [|contradiction].
    destruct H as [[= <- <-] | []]. split; [reflexivity|].
    exists [x]. split; [reflexivity|]. left. now exists x.
  - destruct (N.eqb_spec bslash x) as [<-|]; [|contradiction].
    destruct s as [|e s]; [contradiction|].
    rewrite rmatch_seq_chr in H.
    destruct (one_of _ e) eqn:He; [|contradiction].
    destruct H as [[= <- <-] | []]. split; [reflexivity|].
    exists [bslash; e]. split; [reflexivity|]. right; left. now exists e.
  - destruct (N.eqb_spec bslash x) as [<-|]; [|contradiction].
    destruct s as [|e s]; [contradiction|].
    rewrite rmatch_seq_chr in H.
    destruct (one_of _ e) eqn:He; [|contradiction].
    rewrite rmatch_seq_eps in H.
    destruct s as [|h1 s]; [contradiction|].
    rewrite rmatch_seq_chr in H.
    destruct (is_hex h1) eqn:H1; [|contradiction].
    destruct s as [|h2 s]; [contradiction|].
    rewrite rmatch_seq_chr in H.
    destruct (is_hex h2) eqn:H2; [|contradiction].
    destruct s as [|h3 s]; [contradiction|].
    rewrite rmatch_seq_chr in H.
    destruct (is_hex h3) eqn:H3; [|contradiction].
    destruct s as [|h4 s]; [contradiction|].
    rewrite rmatch_seq_chr in H.
    destruct (is_hex h4) eqn:H4; [|contradiction].
    destruct H as [[= <- <-] | []]. split; [reflexivity|].
    exists [bslash; e; h1; h2; h3; h4]. split; [reflexivity|]. right; right.
    exists e, h1, h2, h3, h4. repeat split; assumption.
Qed.

Lemma simple_not_unicode e :
  one_of (py "bfnrt" ++ [bslash; dq] ++ py "$") e = true ->
  one_of (py "uU") e = false.
Proof.
  cbv -[N.eqb].
  repeat match goal with
         | |- context [N.eqb ?a ?b] => destruct (N.eqb_spec a b)
         end; try reflexivity; try lia; try discriminate.
Qed.

Lemma esc_unit_length u : esc_unit u -> 0 < length u.
Proof.
  intros [(x & -> & _) | [(e & -> & _) | (e & h1 & h2 & h3 & h4 & -> & _)]];
    cbn; lia.
Qed.

Lemma str_body_unit u s c :
  esc_unit u -> rmatch STR_BODY c (u ++ s) = [(c, s)].
Proof.
  unfold STR_BODY, cat, lit. cbn [fold_right Rep].
  intros [(x & -> & Hx) | [(e & -> & He) | (e & h1 & h2 & h3 & h4 & -> & He & H1 & H2 & H3 & H4)]].
  - change (rmatch (Alt ?a ?b) c ?s) with (rmatch a c s ++ rmatch b c s).
    change (rmatch (Alt ?a ?b) c ?s) with (rmatch a c s ++ rmatch b c s).
    change (([x] ++ s)) with (x :: s).
    rewrite !rmatch_seq_chr.
    assert (N.eqb bslash x = false) as ->.
    { apply N.eqb_neq. intros <-. discriminate Hx. }
    cbn [rmatch]. rewrite Hx. reflexivity.
  - change (rmatch (Alt ?a ?b) c ?s) with (rmatch a c s ++ rmatch b c s).
    change (rmatch (Alt ?a ?b) c ?s) with (rmatch a c s ++ rmatch b c s).
    change ([bslash; e] ++ s) with (bslash :: e :: s).
    rewrite !rmatch_seq_chr, N.eqb_refl, He, (simple_not_unicode e He).
    reflexivity.
  - change (rmatch (Alt ?a ?b) c ?s) with (rmatch a c s ++ rmatch b c s).
    change (rmatch (Alt ?a ?b) c ?s) with (rmatch a c s ++ rmatch b c s).
    change ([bslash; e; h1; h2; h3; h4] ++ s)
      with (bslash :: e :: h1 :: h2 :: h3 :: h4 :: s).
    rewrite !rmatch_seq_chr, N.eqb_refl, He, rmatch_seq_eps.
    rewrite !rmatch_seq_chr, H1, H2, H3, H4.
    destruct (one_of (py "bfnrt" ++ [bslash; dq] ++ py "$") e) eqn:He'.
    + apply simple_not_unicode in He'. congruence.
    + reflexivity.
Qed.

Lemma str_body_stop c s :
  match s with [] => True | x :: _ => x = dq end ->
  rmatch STR_BODY c s = [].
Proof.
  destruct s as [|x s]; [reflexivity|]. intros ->. reflexivity.
Qed.

Lemma str_star_sound : forall fuel c s c' s',
  In (c', s') (star_iter (rmatch STR_BODY) fuel c s) ->
  c' = c /\ exists pre, s = pre ++ s' /\ escaped_text pre.
Proof.
  induction fuel as [|fuel IH]; intros c s c' s' H.
  - destruct H as [[= <- <-] | []]. split; [reflexivity|].
    exists []. split; [reflexivity | constructor].
  - rewrite star_iter_step in H. apply in_app_or in H as [H | H].
    + apply in_flat_map in H as ((c1, s1) & H1 & H2).
      apply str_body_sound in H1 as (-> & u & -> & Hu).
      destruct (Nat.ltb _ _); [|contradiction].
      apply IH in H2 as (-> & pre & -> & Hpre).
      split; [reflexivity|]. exists (u ++ pre).
      split; [now rewrite app_assoc | now constructor].
    + destruct H as [[= <- <-] | []]. split; [reflexivity|].
      exists []. split; [reflexivity | constructor].
Qed.

Lemma str_star_hd : forall pre, escaped_text pre -> forall fuel c s',
  match s' with [] => True | x :: _ => x = dq end ->
  length (pre ++ s') <= fuel ->
  hd_error (star_iter (rmatch STR_BODY) fuel c (pre ++ s')) = Some (c, s').
Proof.
  induction 1 as [|u s Hu Hs IH]; intros fuel c s' Hs' Hlen.
  - cbn [app]. destruct fuel; [reflexivity|].
    rewrite star_iter_step, str_body_stop by assumption. reflexivity.
  - pose proof (esc_unit_length u Hu) as Hpos.
    rewrite <- app_assoc in *. rewrite length_app in Hlen.
    destruct fuel as [|fuel]; [lia|].
    rewrite star_iter_step, str_body_unit by assumption.
    cbn [flat_map]. rewrite app_nil_r.
    assert (Nat.ltb (length (s ++ s')) (length (u ++ s ++ s')) = true) as ->.
    { apply Nat.ltb_lt. rewrite (length_app u). lia. }
    apply hd_app_some. apply IH; [assumption | lia].
Qed.

(** What [STR_RE] matches: a double quote, an escaped text, a double
    quote, and the end of the text or a last line feed. *)
Lemma str_re_sound s m rest :
  re_match STR_RE s = Some (m, rest) ->
  exists body, escaped_text body /\ grp 1 m = body
               /\ (s = dq :: body ++ [dq] \/ s = dq :: body ++ [dq; nl]).
Proof.
  unfold re_match. intros H.
  assert (Hin : In (m, rest) (rmatch STR_RE [] s)).
  { destruct (rmatch STR_RE [] s); [discriminate|]. injection H as <-. now left. }
  clear H. unfold STR_RE in Hin. fold STR_BODY in Hin.
  unfold cat, lit in Hin. cbn [fold_right] in Hin.
  destruct s as [|x s]; [contradiction|].
  rewrite rmatch_seq_chr in Hin.
  destruct (N.eqb_spec dq x) as [<-|]; [|contradiction].
  change (rmatch (Seq ?a ?b) ?c ?s) with (flat_map (fun '(c', s') => rmatch b c' s') (rmatch a c s)) in Hin.
  apply in_flat_map in Hin as ((c1, s1) & H1 & H2).
  cbn [rmatch] in H1. apply in_map_iff in H1 as ((c0, s0) & [= <- <-] & H1).
  apply str_star_sound in H1 as (-> & pre & -> & Hpre).
  rewrite firstn_consumed in H2.
  destruct s0 as [|y s0]; [contradiction|].
  rewrite rmatch_seq_chr in H2.
  destruct (N.eqb_spec dq y) as [<-|]; [|contradiction].
  rewrite rmatch_seq_eps in H2. cbn [rmatch] in H2.
  exists pre. split; [assumption|].
  destruct s0 as [|z [|? ?]].
  - destruct H2 as [[= <- <-] | []]. split; [reflexivity | now left].
  - destruct (N.eqb_spec z nl) as [->|]; [|contradiction].
    destruct H2 as [[= <- <-] | []]. split; [reflexivity | now right].
  - contradiction.
Qed.

Lemma str_re_match body :
  escaped_text body ->
  re_match STR_RE (dq :: body ++ [dq]) = Some ([(1, body)], []).
Proof.
  intros Hb. unfold re_match, STR_RE. fold STR_BODY.
  unfold cat. cbn [fold_right].
  eapply rmatch_seq_hd; [apply rmatch_lit_hd|].
  eapply rmatch_seq_hd.
  { apply rmatch_grp_hd. cbn [rmatch].
    apply str_star_hd; [assumption | reflexivity | lia]. }
  eapply rmatch_seq_hd; [apply rmatch_lit_hd|].
  reflexivity.
Qed.

Lemma plain_escaped_text s :
  ~ In dq s -> ~ In bslash s -> escaped_text s.
Proof.
  induction s as [|x s IH]; intros Hd Hb; [constructor|].
  change (x :: s) with ([x] ++ s). apply et_unit.
  - left. exists x. split; [reflexivity|].
    unfold none_of, one_of. cbn [existsb].
    destruct (N.eqb_spec x dq) as [->|]; [destruct Hd; now left|].
    destruct (N.eqb_spec x bslash) as [->|]; [destruct Hb; now left|].
    reflexivity.
  - apply IH; intros H; [apply Hd | apply Hb]; now right.
Qed.

(** The dispatch on a token that begins with a double quote. *)
Lemma dispatch_quoted rest :
  dispatch (dq :: rest)
  = match re_match STR_RE (dq :: rest) with
    | Some (m, _) => u <- _unescape false (grp 1 m) ;; Ok (VStr u)
    | None => Ok (VStr (dq :: rest))
    end.
Proof.
  unfold dispatch, decoding_rules. cbn [fold_right].
  change (rule_coord (dq :: rest)) with (@None (result scalar)).
  change (rule_ref (dq :: rest)) with (@None (result scalar)).
  change (rule_bin (dq :: rest)) with (@None (result scalar)).
  change (rule_uri (dq :: rest)) with (@None (result scalar)).
  assert (rule_xstr (dq :: rest) = None) as ->.
  { unfold rule_xstr. rewrite xstr_re_fails by reflexivity.
    now destruct (_ && _ && _)%bool. }
  destruct (late_rules_fail dq rest eq_refl eq_refl eq_refl)
    as (-> & -> & -> & ->).
  cbn [or_else]. unfold rule_str.
  change (startswith [dq] (dq :: rest)) with true. cbn iota.
  now destruct (re_match STR_RE (dq :: rest)) as [[m r]|].
Qed.

Lemma parse_scalar_quoted v rest :
  strip v = dq :: rest -> _parse_scalar v = dispatch (dq :: rest).
Proof.
  intros Hv. rewrite parse_scalar_dispatch; rewrite Hv;
    [reflexivity | discriminate | reflexivity
    | apply not_literal; vm_compute; intuition discriminate].
Qed.

(** X5.  A token made of a double quote, a text of plain characters and
    well-formed escapes, and a double quote is the string of that text
    unescaped; it raises only where the unescaping does. *)
Theorem parse_scalar_string (body : str) (ver : version) :
  escaped_text body ->
  parse_scalar (dq :: body ++ [dq]) ver
  = (u <- _unescape false body ;; Ok (VStr u)).
Proof.
  intros Hb. unfold parse_scalar.
  rewrite (parse_scalar_quoted _ (body ++ [dq])) by now apply quoted_trimmed.
  rewrite dispatch_quoted, (str_re_match body Hb). reflexivity.
Qed.

(** X6.  A text without double quote and backslash, put between double
    quotes, is decoded to itself. *)
Theorem parse_scalar_plain_string (s : str) (ver : version) :
  ~ In dq s -> ~ In bslash s ->
  parse_scalar (dq :: s ++ [dq]) ver = Ok (VStr s).
Proof.
  intros Hd Hb. unfold parse_scalar.
  rewrite (parse_scalar_quoted _ (s ++ [dq])) by now apply quoted_trimmed.
  rewrite dispatch_quoted, (str_re_match s (plain_escaped_text s Hd Hb)).
  unfold _unescape, grp. cbn [group Nat.eqb].
  now rewrite (proj2 (has_char_false bslash s) Hb).
Qed.

(** X7.  A token that begins with a double quote and is no well-formed
    string literal is not rejected: it is returned as a string, quotes
    and backslashes included. *)
Theorem parse_scalar_malformed_string (v rest : str) (ver : version) :
  strip v = dq :: rest ->
  (forall body, rest = body ++ [dq] -> ~ escaped_text body) ->
  parse_scalar v ver = Ok (VStr (strip v)).
Proof.
  intros Hv Hno. unfold parse_scalar.
  rewrite (parse_scalar_quoted v rest Hv), dispatch_quoted, Hv.
  destruct (re_match STR_RE (dq :: rest)) as [[m r]|] eqn:Hm; [|reflexivity].
  apply str_re_sound in Hm as (body & Hb & _ & [H | H]).
  - injection H as ->. now destruct (Hno body eq_refl).
  - exfalso. pose proof (strip_trimmed v) as [_ Hlast].
    rewrite Hv, H in Hlast.
    assert (Hnl : isspace nl = false); [|now rewrite nl_is_space in Hnl].
    apply (Hlast nl (dq :: body ++ [dq])).
    cbn [app]. now rewrite <- app_assoc.
Qed.

(** With a runtime whose [int(_, 16)] reads four hexadecimal digits. *)
Section Runtime.
Context {ES : ExternalsSpec E}.

Lemma unescape_scan_escaped uri body :
  escaped_text body -> exists x, unescape_scan uri body = Ok x.
Proof.
  induction 1 as [|u s Hu Hs [r IH]]; [now exists []|].
  destruct Hu as [(x & -> & Hx) | [(e & -> & He)
                  | (e & h1 & h2 & h3 & h4 & -> & He & H1 & H2 & H3 & H4)]].
  - cbn [app]. rewrite scan_plain_char, IH; [now eexists|].
    intros ->. discriminate Hx.
  - cbn [app]. rewrite scan_escape, IH; [now eexists|].
    left. now apply simple_not_unicode.
  - cbn [app]. rewrite scan_unicode by assumption.
    unfold is_hex in H1, H2, H3, H4.
    destruct (hex_value h1) as [v1|] eqn:E1; [|discriminate].
    destruct (hex_value h2) as [v2|] eqn:E2; [|discriminate].
    destruct (hex_value h3) as [v3|] eqn:E3; [|discriminate].
    destruct (hex_value h4) as [v4|] eqn:E4; [|discriminate].
    rewrite (@py_int16_hex _ _ h1 h2 h3 h4 v1 v2 v3 v4 E1 E2 E3 E4).
    cbn [of_option bind]. rewrite py_chr_of_N.
    + cbn [of_option bind]. rewrite IH. now eexists.
    + apply hex_value_bound in E1, E2, E3, E4. lia.
Qed.

(** X8.  A token that begins with a double quote never raises, and its
    value is a string. *)
Theorem parse_scalar_quoted_returns (v rest : str) (ver : version) :
  strip v = dq :: rest -> exists x, parse_scalar v ver = Ok (VStr x).
Proof.
  intros Hv. unfold parse_scalar.
  rewrite (parse_scalar_quoted v rest Hv), dispatch_quoted.
  destruct (re_match STR_RE (dq :: rest)) as [[m r]|] eqn:Hm; [|now eexists].
  apply str_re_sound in Hm as (body & Hb & -> & _).
  rewrite unescape_is_scan.
  destruct (unescape_scan_escaped false body Hb) as [x ->]. now exists x.
Qed.

End Runtime.

(** ** Number tokens *)

Ltac char_cases :=
  cbv -[N.eqb N.leb N.ltb N.le N.lt];
  repeat match goal with
         | |- context [N.leb ?a ?b] => destruct (N.leb_spec a b)
         | |- context [N.ltb ?a ?b] => destruct (N.ltb_spec a b)
         | |- context [N.eqb ?a ?b] => destruct (N.eqb_spec a b)
         end;
  try reflexivity; try lia; try discriminate.

Lemma no_results {A} (l : list A) : (forall x, ~ In x l) -> l = [].
Proof. destruct l as [|a l]; [reflexivity|]. intros H. destruct (H a). now left. Qed.

Lemma in_rmatch_seq a b c s x :
  In x (rmatch (Seq a b) c s) ->
  exists c1 s1, In (c1, s1) (rmatch a c s) /\ In x (rmatch b c1 s1).
Proof.
  cbn [rmatch]. intros H. apply in_flat_map in H as ((c1, s1) & H1 & H2).
  now exists c1, s1.
Qed.

Lemma in_rmatch_lit a r c s x :
  In x (rmatch (Seq (lit a) r) c s) ->
  exists s1, s = a :: s1 /\ In x (rmatch r c s1).
Proof.
  unfold lit. destruct s as [|y s]; [contradiction|].
  rewrite rmatch_seq_chr. destruct (N.eqb_spec a y) as [<-|]; [|contradiction].
  intros H. now exists s.
Qed.

Lemma rep_chr_sound p : forall n c s c' s',
  In (c', s') (rmatch (Rep n (Chr p)) c s) ->
  c' = c /\ exists pre, s = pre ++ s' /\ length pre = n
                        /\ Forall (fun x => p x = true) pre.
Proof.
  induction n as [|n IH]; intros c s c' s' H.
  - destruct H as [[= <- <-] | []]. split; [reflexivity|]. now exists [].
  - cbn [Rep] in H. destruct s as [|x s]; [contradiction|].
    rewrite rmatch_seq_chr in H. destruct (p x) eqn:Hx; [|contradiction].
    apply IH in H as (-> & pre & -> & Hlen & Hpre).
    split; [reflexivity|]. exists (x :: pre). cbn [length app].
    repeat split; [now rewrite Hlen | now constructor].
Qed.

Lemma plus_chr_sound p c s c' s' :
  In (c', s') (rmatch (Plus (Chr p)) c s) ->
  c' = c /\ exists pre, s = pre ++ s' /\ pre <> []
                        /\ Forall (fun x => p x = true) pre.
Proof.
  unfold Plus. intros H. destruct s as [|x s]; [contradiction|].
  rewrite rmatch_seq_chr in H. destruct (p x) eqn:Hx; [|contradiction].
  cbn [rmatch] in H. apply star_chr_sound in H as (-> & pre & -> & Hpre).
  split; [reflexivity|]. exists (x :: pre).
  repeat split; [discriminate | now constructor].
Qed.

(** A text the patterns for dates cannot match: it has no hyphen after
    four digits. *)
Lemma rep4_dash_fails r c s :
  ~ In (ch "-") s ->
  rmatch (Seq (Rep 4 D) (Seq (lit (ch "-")) r)) c s = [].
Proof.
  intros Hs. apply no_results. intros [c' s'] H.
  apply in_rmatch_seq in H as (c1 & s1 & H1 & H2).
  apply rep_chr_sound in H1 as (-> & pre & -> & _).
  apply in_rmatch_lit in H2 as (s2 & -> & _).
  apply Hs, in_or_app. right. now left.
Qed.

Lemma date_re_needs_dash s : ~ In (ch "-") s -> re_match DATE_RE s = None.
Proof.
  intros Hs. unfold re_match, DATE_RE, cat. cbn [fold_right].
  now rewrite rep4_dash_fails.
Qed.

Lemma datetime_re_needs_dash s :
  ~ In (ch "-") s -> re_match DATETIME_RE s = None.
Proof.
  intros Hs. unfold re_match, DATETIME_RE, cat. cbn [fold_right].
  rewrite rmatch_seq_fail; [reflexivity|].
  apply rmatch_grp_fail. now apply rep4_dash_fails.
Qed.

Lemma time_re_needs_colon s : ~ In (ch ":") s -> re_match TIME_RE s = None.
Proof.
  intros Hs. unfold re_match, TIME_RE, cat. cbn [fold_right].
  rewrite rmatch_seq_fail; [reflexivity|].
  apply rmatch_grp_fail. apply no_results. intros [c' s'] H.
  apply in_rmatch_seq in H as (c1 & s1 & H1 & H2).
  apply rep_chr_sound in H1 as (-> & pre & -> & _).
  apply in_rmatch_lit in H2 as (s2 & -> & _).
  apply Hs, in_or_app. right. now left.
Qed.

Lemma digit_bounds c : ascii_digit c = true -> (48 <= c <= 57)%N.
Proof.
  unfold ascii_digit, in_range. rewrite andb_true_iff, !N.leb_le. tauto.
Qed.

Lemma letter_bounds c :
  ascii_letter c = true -> (97 <= c <= 122)%N \/ (65 <= c <= 90)%N.
Proof.
  unfold ascii_letter, ascii_lower, ascii_upper, in_range.
  rewrite orb_true_iff, !andb_true_iff, !N.leb_le. tauto.
Qed.

Lemma digit_re_digit c : ascii_digit c = true -> re_digit c = true.
Proof. intros H. apply digit_bounds in H. char_cases. Qed.

Lemma digit_no_sign c : ascii_digit c = true -> one_of (py "+-") c = false.
Proof. intros H. apply digit_bounds in H. char_cases. Qed.

Lemma letter_no_digit c : ascii_letter c = true -> re_digit c = false.
Proof. intros H. apply letter_bounds in H. char_cases. Qed.

Lemma letter_unit_char c : ascii_letter c = true -> unit_char c = true.
Proof. intros H. apply letter_bounds in H. char_cases. Qed.

Lemma number_char_cases c :
  number_char c = true ->
  (48 <= c <= 57)%N \/ (97 <= c <= 122)%N \/ (65 <= c <= 90)%N \/ c = 46%N.
Proof.
  unfold number_char. rewrite !orb_true_iff, N.eqb_eq.
  intros [[H | H] | H].
  - left. now apply digit_bounds.
  - right. apply letter_bounds in H. tauto.
  - right; right; right. exact H.
Qed.

Lemma number_char_not x c :
  number_char c = true -> number_char x = false -> c <> x.
Proof. intros Hc Hx ->. congruence. Qed.

Lemma number_chars_not_in x s :
  Forall (fun c => number_char c = true) s -> number_char x = false ->
  ~ In x s.
Proof.
  intros Hs Hx Hin. rewrite Forall_forall in Hs. specialize (Hs x Hin).
  congruence.
Qed.

Lemma number_char_no_space c : number_char c = true -> isspace c = false.
Proof. intros H. apply number_char_cases in H. char_cases. Qed.

Lemma sign_no_space c : one_of (py "+-") c = true -> isspace c = false.
Proof. char_cases. Qed.

Lemma unsigned_chars ds frac unit :
  Forall (fun c => ascii_digit c = true) ds ->
  (frac = [] \/ exists fs, frac = ch "." :: fs /\ fs <> []
                           /\ Forall (fun c => ascii_digit c = true) fs) ->
  Forall (fun c => ascii_letter c = true) unit ->
  Forall (fun c => number_char c = true) (ds ++ frac ++ unit).
Proof.
  intros Hds Hfrac Hunit. unfold number_char.
  assert (Hd : forall l, Forall (fun c => ascii_digit c = true) l ->
                         Forall (fun c => (ascii_digit c || ascii_letter c
                                           || N.eqb c (ch "."))%bool = true) l).
  { intros l Hl. eapply Forall_impl; [|exact Hl]. cbn beta. now intros c ->. }
  apply Forall_app. split; [now apply Hd|].
  apply Forall_app. split.
  - destruct Hfrac as [-> | (fs & -> & _ & Hfs)]; [constructor|].
    constructor; [reflexivity | now apply Hd].
  - eapply Forall_impl; [|exact Hunit]. cbn beta. intros c ->.
    now rewrite orb_true_r.
Qed.

Lemma all_nonspace_strip s :
  Forall (fun c => isspace c = false) s -> strip s = s.
Proof.
  intros H. apply trimmed_strip. split; intros c r ->.
  - now inversion H.
  - apply Forall_app in H as [_ H]. now inversion H.
Qed.

Lemma drop_underscores_none s :
  ~ In (ch "_") s -> drop_underscores s = s.
Proof.
  unfold drop_underscores. induction s as [|x s IH]; intros H; [reflexivity|].
  cbn [filter]. destruct (N.eqb_spec x (ch "_")) as [->|].
  - destruct H. now left.
  - cbn [negb]. rewrite IH; [reflexivity|]. intros Hin. apply H. now right.
Qed.

(** The repeated group [(?:\d+_)] matches nothing in a text without
    underscore. *)
Lemma digits_underscore_fails c s :
  ~ In (ch "_") s -> rmatch (cat [Plus D; lit (ch "_")]) c s = [].
Proof.
  intros Hs. apply no_results. intros [c' s'] H.
  unfold cat in H. cbn [fold_right] in H.
  apply in_rmatch_seq in H as (c1 & s1 & H1 & H2).
  apply plus_chr_sound in H1 as (-> & pre & -> & _).
  apply in_rmatch_lit in H2 as (s2 & -> & _).
  apply Hs, in_or_app. right. now left.
Qed.

(** The exponent part matches nothing at the start of a text of
    letters. *)
Lemma exponent_fails c unit :
  Forall (fun x => ascii_letter x = true) unit ->
  rmatch (cat [Chr (one_of (py "eE")); Opt (Chr (one_of (py "+-"))); Plus D])
         c unit = [].
Proof.
  intros Hu. apply no_results. intros [c' s'] H.
  unfold cat in H. cbn [fold_right] in H.
  destruct unit as [|e us]; [contradiction|].
  rewrite rmatch_seq_chr in H. destruct (one_of (py "eE") e); [|contradiction].
  apply in_rmatch_seq in H as (c1 & s1 & H1 & H2).
  rewrite rmatch_seq_eps in H2.
  apply plus_chr_sound in H2 as (_ & pre & Hs1 & Hpre & Hd).
  destruct pre as [|d pre]; [contradiction|].
  inversion Hd as [|? ? Hd1 _]; subst.
  inversion Hu as [|? ? _ Hus]; subst.
  assert (Hstop : forall l, Forall (fun x => ascii_letter x = true) l ->
                            l <> (d :: pre) ++ s').
  { intros l Hl ->. inversion Hl as [|? ? Hd2 _]; subst.
    apply letter_no_digit in Hd2. congruence. }
  unfold Opt in H1. cbn [rmatch] in H1. apply in_app_or in H1 as [H1 | H1].
  - destruct us as [|x us]; [contradiction|].
    destruct (one_of (py "+-") x); [|contradiction].
    destruct H1 as [[= _ Heq] | []].
    apply Forall_inv_tail in Hus. exact (Hstop us Hus Heq).
  - destruct H1 as [[= _ Heq] | []]. exact (Hstop us Hus Heq).
Qed.

Lemma rmatch_opt_hd_some a c s r :
  hd_error (rmatch a c s) = Some r -> hd_error (rmatch (Opt a) c s) = Some r.
Proof. intros H. now rewrite rmatch_opt_hd, H. Qed.

Lemma letters_stop_digits unit :
  Forall (fun x => ascii_letter x = true) unit -> stops re_digit unit.
Proof.
  intros H x r ->. inversion H; subst. now apply letter_no_digit.
Qed.

Lemma number_re_match sgn ds frac unit :
  (sgn = [] \/ sgn = [ch "-"] \/ sgn = [ch "+"]) ->
  ds <> [] -> Forall (fun c => ascii_digit c = true) ds ->
  (frac = [] \/ exists fs, frac = ch "." :: fs /\ fs <> []
                           /\ Forall (fun c => ascii_digit c = true) fs) ->
  Forall (fun c => ascii_letter c = true) unit ->
  re_match NUMBER_RE ((sgn ++ ds ++ frac) ++ unit)
  = Some (match unit with [] => [] | _ => [(2, unit)] end
          ++ [(1, sgn ++ ds ++ frac)], []).
Proof.
  intros Hsgn Hne Hds Hfrac Hunit.
  pose proof (unsigned_chars ds frac unit Hds Hfrac Hunit) as Hchars.
  assert (Hdig : forall l, Forall (fun c => ascii_digit c = true) l ->
                           Forall (fun c => re_digit c = true) l).
  { intros l Hl. eapply Forall_impl; [|exact Hl]. apply digit_re_digit. }
  assert (Hstop : stops re_digit (frac ++ unit)).
  { destruct Hfrac as [-> | (fs & -> & _)].
    - now apply letters_stop_digits.
    - now apply stops_at. }
  unfold re_match, NUMBER_RE, cat. cbn [fold_right].
  eapply rmatch_seq_hd.
  - apply rmatch_grp_hd. rewrite <- !app_assoc.
    destruct ds as [|d ds]; [contradiction|].
    inversion Hds as [|? ? Hd Hds']; subst.
    eapply rmatch_seq_hd.
    { rewrite rmatch_opt_hd.
      instantiate (1 := ((d :: ds) ++ frac ++ unit)). instantiate (1 := []).
      destruct Hsgn as [-> | [-> | ->]]; [|reflexivity|reflexivity].
      cbn [app rmatch]. now rewrite (digit_no_sign d Hd). }
    eapply rmatch_seq_hd.
    { rewrite rmatch_star_fail; [reflexivity|].
      apply digits_underscore_fails.
      now apply (number_chars_not_in _ _ Hchars). }
    eapply rmatch_seq_hd.
    { cbn [app]. apply rmatch_plus_chr_hd;
        [now apply digit_re_digit | now apply Hdig | exact Hstop]. }
    eapply rmatch_seq_hd.
    { rewrite rmatch_opt_hd.
      instantiate (1 := unit). instantiate (1 := []).
      destruct Hfrac as [-> | (fs & -> & Hfs & Hfd)].
      - cbn [app].
        replace (rmatch _ [] unit) with (@nil (caps * str)); [reflexivity|].
        symmetry. apply rmatch_seq_fail.
        destruct unit as [|u us]; [reflexivity|].
        apply rmatch_chr_fail. apply Forall_inv in Hunit.
        destruct (N.eqb_spec (ch ".") u) as [<-|];
          [discriminate Hunit | reflexivity].
      - destruct fs as [|f fs]; [contradiction|].
        inversion Hfd; subst.
        assert (H0 : hd_error (rmatch (Seq (lit (ch ".")) (Seq (Plus D) Eps)) []
                       ((ch "." :: f :: fs) ++ unit)) = Some ([], unit)).
        { eapply rmatch_seq_hd; [apply rmatch_lit_hd|].
          rewrite rmatch_seq_eps.
          apply rmatch_plus_chr_hd;
            [now apply digit_re_digit | now apply Hdig
            | now apply letters_stop_digits]. }
        now rewrite H0. }
    rewrite rmatch_seq_eps, rmatch_opt_hd.
    now rewrite exponent_fails.
  - destruct unit as [|u us].
    + reflexivity.
    + inversion Hunit; subst.
      assert (H0 : hd_error (rmatch (Grp 2 (Plus (Chr unit_char)))
                               [(1, sgn ++ ds ++ frac)] ((u :: us) ++ []))
                   = Some ((2, u :: us) :: [(1, sgn ++ ds ++ frac)], [])).
      { apply rmatch_grp_hd. cbn [app].
        apply rmatch_plus_chr_hd.
        - now apply letter_unit_char.
        - eapply Forall_impl; [|eassumption]. apply letter_unit_char.
        - intros x r [=]. }
      rewrite app_nil_r in H0.
      eapply rmatch_seq_hd; [apply rmatch_opt_hd_some, H0 | reflexivity].
Qed.

Lemma datetime_re_fails c r :
  re_digit c = false -> re_match DATETIME_RE (c :: r) = None.
Proof.
  intros H. unfold re_match, DATETIME_RE, cat. cbn [fold_right Rep].
  rewrite rmatch_seq_fail; [reflexivity|].
  apply rmatch_grp_fail.
  rewrite rmatch_seq_fail; [reflexivity|].
  rewrite rmatch_seq_fail; [reflexivity|].
  now apply rmatch_chr_fail.
Qed.

Lemma sign_cases (sgn : str) :
  (sgn = [] \/ sgn = [ch "-"] \/ sgn = [ch "+"]) ->
  Forall (fun c => one_of (py "+-") c = true) sgn.
Proof. intros [-> | [-> | ->]]; repeat constructor. Qed.

Lemma one_of_neq l c x : one_of l c = false -> one_of l x = true -> x <> c.
Proof. intros H1 H2 ->. congruence. Qed.

(** The head of a number token: a sign or a digit. *)
Lemma number_head c :
  one_of (py "+-") c = true \/ ascii_digit c = true ->
  isspace c = false
  /\ one_of (py "[{<C@B" ++ [btick; dq]) c = false
  /\ (c <> ch "-" -> ~ In c (py "MNRTFI-")).
Proof.
  intros H. split; [|split].
  - destruct H as [H | H];
      [revert H; char_cases | apply digit_bounds in H; char_cases].
  - destruct H as [H | H];
      [revert H; char_cases | apply digit_bounds in H; char_cases].
  - intros Hne Hin. vm_compute in Hin.
    repeat (destruct Hin as [Hin | Hin]); try contradiction; subst c;
      try (now destruct Hne); destruct H as [H | H]; vm_compute in H;
      discriminate H.
Qed.

(** X9.  A decimal literal followed by a unit of ASCII letters, or by
    nothing, is the number [float] makes of the literal, with that unit;
    it raises only where [float] does. *)
Theorem parse_scalar_number (n unit : str) (ver : version) :
  decimal n ->
  Forall (fun c => ascii_letter c = true) unit ->
  parse_scalar (n ++ unit) ver
  = (num <- to_float n ;;
     Ok (VNumber num (match unit with [] => None | _ => Some unit end))).
Proof.
  intros (sgn & ds & frac & -> & Hsgn & Hne & Hds & Hfrac) Hunit.
  pose proof (unsigned_chars ds frac unit Hds Hfrac Hunit) as Hchars.
  pose proof (number_re_match sgn ds frac unit Hsgn Hne Hds Hfrac Hunit) as Hm.
  pose proof (sign_cases sgn Hsgn) as Hsg.
  set (value := (sgn ++ ds ++ frac) ++ unit) in *.
  assert (Hval : value = sgn ++ ds ++ frac ++ unit).
  { unfold value. now rewrite <- !app_assoc. }
  assert (Hall : Forall (fun c => one_of (py "+-") c = true
                                  \/ number_char c = true) value).
  { rewrite Hval. apply Forall_app. split.
    - eapply Forall_impl; [|exact Hsg]. cbn beta. tauto.
    - eapply Forall_impl; [|exact Hchars]. cbn beta. tauto. }
  assert (Hnot : forall x, one_of (py "+-") x = false ->
                           number_char x = false -> ~ In x value).
  { intros x H1 H2 Hin. rewrite Forall_forall in Hall.
    destruct (Hall x Hin); congruence. }
  assert (Hhead : exists c0 r, value = c0 :: r
            /\ (one_of (py "+-") c0 = true \/ ascii_digit c0 = true)
            /\ (sgn = [] -> ~ In (ch "-") value)
            /\ (sgn <> [] -> re_digit c0 = false)
            /\ (c0 = ch "-" -> exists d r', r = d :: r' /\ ascii_digit d = true)).
  { rewrite Hval. destruct ds as [|d ds]; [contradiction|].
    pose proof (Forall_inv Hds) as Hd.
    destruct Hsgn as [-> | [-> | ->]].
    - exists d, (ds ++ frac ++ unit). split; [reflexivity|].
      split; [now right|]. split; [|split; [congruence|]].
      + intros _. now apply (number_chars_not_in _ _ Hchars).
      + intros ->. discriminate Hd.
    - exists (ch "-"), ((d :: ds) ++ frac ++ unit). split; [reflexivity|].
      split; [now left|]. split; [congruence|]. split; [reflexivity|].
      intros _. now exists d, (ds ++ frac ++ unit).
    - exists (ch "+"), ((d :: ds) ++ frac ++ unit). split; [reflexivity|].
      split; [now left|]. split; [congruence|]. split; [reflexivity|].
      intros [=]. }
  destruct Hhead as (c0 & r & Hcr & Hc0 & Hnodash & Hsigned & Hminus).
  destruct (number_head c0 Hc0) as (Hsp & Hnin & Hlit).
  assert (Hstrip : strip value = value).
  { apply all_nonspace_strip. eapply Forall_impl; [|exact Hall].
    cbn beta. intros c [H | H];
      [now apply sign_no_space | now apply number_char_no_space]. }
  unfold parse_scalar. rewrite parse_scalar_dispatch; rewrite Hstrip.
  2: { rewrite Hcr. discriminate. }
  2: { rewrite Hcr. unfold complex_prefix.
       change (py "[") with [ch "["]. change (py "{") with [ch "{"].
       change (py "<<") with [ch "<"; ch "<"].
       rewrite !startswith_head; [reflexivity | | |];
         now apply (one_of_neq _ _ _ Hnin). }
  2: { rewrite Hcr. destruct (N.eq_dec c0 (ch "-")) as [-> | Hne0].
       - destruct (Hminus eq_refl) as (d & r' & -> & Hd).
         unfold literal_tokens. cbn [In]. intros Hin.
         repeat (destruct Hin as [Hin | Hin]); try contradiction;
           vm_compute in Hin; try discriminate Hin.
         injection Hin as <- _. discriminate Hd.
       - now apply not_literal, Hlit. }
  unfold dispatch, decoding_rules. cbn [fold_right].
  assert (rule_coord value = None) as ->.
  { rewrite Hcr. unfold rule_coord. change (py "C(") with [ch "C"; ch "("].
    rewrite startswith_head; [reflexivity|].
    now apply (one_of_neq _ _ _ Hnin). }
  assert (rule_ref value = None) as ->.
  { rewrite Hcr. unfold rule_ref. change (py "@") with [ch "@"].
    rewrite startswith_head; [reflexivity|].
    now apply (one_of_neq _ _ _ Hnin). }
  assert (rule_bin value = None) as ->.
  { rewrite Hcr. unfold rule_bin.
    change (py "Bin(") with (ch "B" :: py "in(").
    rewrite startswith_head; [reflexivity|].
    now apply (one_of_neq _ _ _ Hnin). }
  assert (rule_xstr value = None) as ->.
  { unfold rule_xstr.
    rewrite (proj2 (has_char_false (ch "(") value)); [reflexivity|].
    now apply Hnot. }
  assert (rule_uri value = None) as ->.
  { rewrite Hcr. unfold rule_uri. rewrite startswith_head; [reflexivity|].
    now apply (one_of_neq _ _ _ Hnin). }
  assert (rule_str value = None) as ->.
  { rewrite Hcr. unfold rule_str. rewrite startswith_head; [reflexivity|].
    now apply (one_of_neq _ _ _ Hnin). }
  assert (Hdt : re_match DATETIME_RE value = None
                /\ re_match DATE_RE value = None).
  { destruct sgn as [|s0 sgn'] eqn:Hs.
    - split; [apply datetime_re_needs_dash | apply date_re_needs_dash];
        now apply Hnodash.
    - rewrite Hcr. split; [apply datetime_re_fails | apply date_re_fails];
        now apply Hsigned. }
  destruct Hdt as [Hdt Hda].
  assert (rule_datetime value = None) as ->.
  { unfold rule_datetime. rewrite Hdt. now destruct (_ && _)%bool. }
  assert (rule_date value = None) as ->.
  { unfold rule_date. now rewrite Hda. }
  assert (rule_time value = None) as ->.
  { unfold rule_time. rewrite time_re_needs_colon; [reflexivity|].
    now apply Hnot. }
  cbn [or_else]. unfold rule_number. rewrite Hm.
  assert (Hdrop : drop_underscores (sgn ++ ds ++ frac) = sgn ++ ds ++ frac).
  { apply drop_underscores_none. intros Hin.
    apply (Hnot (ch "_") eq_refl eq_refl).
    unfold value. apply in_or_app. now left. }
  destruct unit as [|u us]; cbn [app or_else]; unfold grp;
    cbn [group Nat.eqb]; now rewrite Hdrop.
Qed.

(** ** [_unescape] *)

Lemma of_option_err {A} (e e' : error) (o : option A) :
  of_option e o = Err e' -> e' = e /\ o = None.
Proof. destruct o; [discriminate|]. now intros [= <-]. Qed.

Lemma of_option_ok {A} (e : error) (o : option A) x :
  of_option e o = Ok x -> o = Some x.
Proof. destruct o; [|discriminate]. now intros [= <-]. Qed.

Lemma bind_ok {A B} (m : result A) (k : A -> result B) b :
  bind m k = Ok b -> exists a, m = Ok a /\ k a = Ok b.
Proof. destruct m as [a | e]; cbn; [now exists a | discriminate]. Qed.

(** Where the scanning loop raises: at a [\u] or [\U] with four characters
    after it that [int(_, 16)] or [chr] rejects. *)
Lemma unescape_scan_raises uri : forall n s e,
  length s <= n -> unescape_scan uri s = Err e ->
  exists a x hex b,
    s = a ++ bslash :: x :: hex ++ b /\ one_of (py "uU") x = true
    /\ length hex = 4
    /\ ((e = BuiltinError BInt16 hex /\ py_int16 hex = None)
        \/ (e = BuiltinError BChr hex
            /\ exists n, py_int16 hex = Some n /\ py_chr n = None)).
Proof.
  induction n as [|n IH]; intros s e Hlen.
  - destruct s; [discriminate | cbn in Hlen; lia].
  - destruct s as [|c rest]; [discriminate|].
    assert (Hrec : forall pre t, c :: rest = pre ++ t -> pre <> [] ->
              unescape_scan uri t = Err e ->
              exists a x hex b,
                c :: rest = a ++ bslash :: x :: hex ++ b
                /\ one_of (py "uU") x = true /\ length hex = 4
                /\ ((e = BuiltinError BInt16 hex /\ py_int16 hex = None)
                    \/ (e = BuiltinError BChr hex
                        /\ exists n, py_int16 hex = Some n
                                     /\ py_chr n = None))).
    { intros pre t Heq Hpre H.
      destruct (IH t e) as (a & x & hex & b & -> & Hx & Hhex & He);
        [|exact H|].
      - apply (f_equal (@length _)) in Heq. rewrite length_app in Heq.
        destruct pre; [contradiction|]. cbn in Heq, Hlen. lia.
      - exists (pre ++ a), x, hex, b. rewrite Heq, <- app_assoc. auto. }
    destruct (N.eq_dec c bslash) as [-> | Hc].
    + destruct rest as [|esc_c rest']; [discriminate|].
      destruct (one_of (py "uU") esc_c) eqn:Hu.
      * destruct rest' as [|h1 [|h2 [|h3 [|h4 rest'']]]].
        5: { rewrite (scan_unicode uri esc_c h1 h2 h3 h4 rest'' Hu).
             intros H. apply bind_err in H as [H | [x [Hx H]]].
             { apply of_option_err in H as [-> Hn].
               exists [], esc_c, [h1; h2; h3; h4], rest''. auto 6. }
             apply of_option_ok in Hx.
             apply bind_err in H as [H | [y [_ H]]].
             { apply of_option_err in H as [-> Hn].
               exists [], esc_c, [h1; h2; h3; h4], rest''.
               repeat split; [assumption|]. right. split; [reflexivity|].
               now exists x. }
             apply bind_err in H as [H | [z [_ H]]]; [|discriminate].
             apply (Hrec [bslash; esc_c; h1; h2; h3; h4] rest'');
               [reflexivity | discriminate | exact H]. }
        all: rewrite scan_escape by (right; cbn; lia);
          intros H; apply bind_err in H as [H | [x [_ H]]]; [|discriminate];
          refine (Hrec [bslash; esc_c] _ eq_refl _ H); discriminate.
      * rewrite scan_escape by now left.
        intros H. apply bind_err in H as [H | [x [_ H]]]; [|discriminate].
        refine (Hrec [bslash; esc_c] _ eq_refl _ H); discriminate.
    + rewrite scan_plain_char by assumption.
      intros H. apply bind_err in H as [H | [x [_ H]]]; [|discriminate].
      refine (Hrec [c] _ eq_refl _ H); discriminate.
Qed.

(** X10.  [_unescape] raises only at a backslash, [u] or [U] and four
    characters that [int(_, 16)] or [chr] rejects; the error is the one of
    that call on the four characters. *)
Theorem unescape_raises (uri : bool) (s : str) (e : error) :
  _unescape uri s = Err e ->
  exists a x hex b,
    s = a ++ bslash :: x :: hex ++ b /\ one_of (py "uU") x = true
    /\ length hex = 4
    /\ ((e = BuiltinError BInt16 hex /\ py_int16 hex = None)
        \/ (e = BuiltinError BChr hex
            /\ exists n, py_int16 hex = Some n /\ py_chr n = None)).
Proof.
  rewrite unescape_is_scan. apply (unescape_scan_raises uri (length s)). lia.
Qed.

Lemma unescape_scan_length uri : forall n s r,
  length s <= n -> unescape_scan uri s = Ok r -> length r <= length s.
Proof.
  induction n as [|n IH]; intros s r Hlen.
  - destruct s; [now intros [= <-] | cbn in Hlen; lia].
  - destruct s as [|c rest]; [now intros [= <-]|].
    destruct (N.eq_dec c bslash) as [-> | Hc].
    + destruct rest as [|esc_c rest']; [now intros [= <-]|].
      assert (Hesc : length (escaped uri esc_c) <= 2).
      { unfold escaped.
        repeat match goal with |- context [if ?b then _ else _] => destruct b end;
          cbn; lia. }
      assert (Hsimple :
        (r' <- unescape_scan uri rest' ;; Ok (escaped uri esc_c ++ r')) = Ok r ->
        length r <= length (bslash :: esc_c :: rest')).
      { intros H. apply bind_ok in H as (r' & Hr' & [= <-]).
        apply IH in Hr'; [|cbn in Hlen; lia].
        rewrite length_app. cbn [length]. lia. }
      destruct (one_of (py "uU") esc_c) eqn:Hu.
      * destruct rest' as [|h1 [|h2 [|h3 [|h4 rest'']]]].
        5: { rewrite (scan_unicode uri esc_c h1 h2 h3 h4 rest'' Hu).
             intros H. apply bind_ok in H as (x & _ & H).
             apply bind_ok in H as (y & _ & H).
             apply bind_ok in H as (z & Hz & [= <-]).
             apply IH in Hz; [|cbn in Hlen; lia]. cbn [length]. lia. }
        all: rewrite scan_escape by (right; cbn; lia); exact Hsimple.
      * rewrite scan_escape by now left. exact Hsimple.
    + rewrite scan_plain_char by assumption.
      intros H. apply bind_ok in H as (r' & Hr' & [= <-]).
      apply IH in Hr'; [|cbn in Hlen; lia]. cbn [length]. lia.
Qed.

(** X11.  The text [_unescape] returns is never longer than the text it
    reads. *)
Theorem unescape_never_longer (uri : bool) (s r : str) :
  _unescape uri s = Ok r -> length r <= length s.
Proof.
  rewrite unescape_is_scan. apply (unescape_scan_length uri (length s)). lia.
Qed.

(** ** Tag lists *)

Lemma meta_fold_in_quote q : forall its key cur,
  ~ In dq q -> ~ In bslash q ->
  fold_left meta_step q (mk_meta its key cur true false false)
  = mk_meta its key (cur ++ q) true false false.
Proof.
  induction q as [|c q IH]; intros its key cur Hq Hb.
  - now rewrite app_nil_r.
  - cbn [fold_left].
    assert (meta_step (mk_meta its key cur true false false) c
            = mk_meta its key (cur ++ [c]) true false false) as ->.
    { cbn [meta_step].
      destruct (N.eqb_spec c bslash) as [-> | _]; [destruct Hb; now left|].
      destruct (N.eqb_spec c dq) as [-> | _]; [destruct Hq; now left|].
      cbn [andb negb]. now rewrite !andb_false_r. }
    rewrite IH, <- app_assoc; [reflexivity | |];
      intros H; [apply Hq | apply Hb]; now right.
Qed.

Lemma meta_fold_in_uri u : forall its key cur,
  ~ In btick u -> ~ In bslash u ->
  fold_left meta_step u (mk_meta its key cur false true false)
  = mk_meta its key (cur ++ u) false true false.
Proof.
  induction u as [|c u IH]; intros its key cur Hu Hb.
  - now rewrite app_nil_r.
  - cbn [fold_left].
    assert (meta_step (mk_meta its key cur false true false) c
            = mk_meta its key (cur ++ [c]) false true false) as ->.
    { cbn [meta_step].
      destruct (N.eqb_spec c bslash) as [-> | _]; [destruct Hb; now left|].
      destruct (N.eqb_spec c btick) as [-> | _]; [destruct Hu; now left|].
      cbn [andb negb]. now rewrite !andb_false_r. }
    rewrite IH, <- app_assoc; [reflexivity | |];
      intros H; [apply Hu | apply Hb]; now right.
Qed.

Lemma meta_fold_quoted v its key :
  quoted_value v ->
  fold_left meta_step v (mk_meta its key [] false false false)
  = mk_meta its key v false false false.
Proof.
  intros [(q & -> & Hq & Hb) | (u & -> & Hu & Hb)].
  - cbn [fold_left].
    change (meta_step (mk_meta its key [] false false false) dq)
      with (mk_meta its key [dq] true false false).
    rewrite fold_left_app, meta_fold_in_quote by assumption.
    reflexivity.
  - cbn [fold_left].
    change (meta_step (mk_meta its key [] false false false) btick)
      with (mk_meta its key [btick] false true false).
    rewrite fold_left_app, meta_fold_in_uri by assumption.
    reflexivity.
Qed.

Lemma quoted_value_strip v : quoted_value v -> v <> [] /\ strip v = v.
Proof.
  intros [(q & -> & _) | (u & -> & _)]; (split; [discriminate|]);
    now apply quoted_trimmed.
Qed.

Lemma scan_tag tok its :
  tag_text tok ->
  fold_left meta_step (render_token tok) (mk_meta its None [] false false false)
  = mk_meta its (token_key tok) (token_val tok) false false false.
Proof.
  destruct tok as [n | n v]; cbn [tag_text].
  - intros H. now apply (scan_token (TBare n)).
  - intros [Hn [Hv | Hv]]; [now apply (scan_token (TPair n v))|].
    cbn [render_token token_key token_val].
    apply name_text_plain in Hn as (_ & Hp & Hc & Hs).
    rewrite fold_left_app, meta_fold_plain; [|assumption|now left].
    cbn [app fold_left].
    change (meta_step (mk_meta its None n false false false) (ch ":"))
      with (mk_meta its (Some (strip n)) [] false false false).
    rewrite Hs. now apply meta_fold_quoted.
Qed.

Lemma close_tag tok its :
  tag_text tok ->
  close_item its (token_key tok) (token_val tok) = (its ++ [item_of tok], None).
Proof.
  destruct tok as [n | n v]; cbn [tag_text].
  - intros H. now apply (close_token (TBare n)).
  - intros [Hn [Hv | Hv]]; [now apply (close_token (TPair n v))|].
    cbn [token_key token_val item_of].
    apply name_text_plain in Hn as (Hne & _).
    apply quoted_value_strip in Hv as (Hnv & Hs).
    unfold close_item. rewrite Hs.
    destruct v; [congruence|]. destruct n; [congruence | reflexivity].
Qed.

Lemma meta_items_tags_from toks : forall its,
  toks <> [] -> Forall tag_text toks ->
  let st := fold_left meta_step (render_tags toks)
                      (mk_meta its None [] false false false) in
  fst (close_item (items st) (current_key st) (current_val st))
  = its ++ map item_of toks.
Proof.
  induction toks as [|tok rest IH]; intros its Hne Hall; [congruence|].
  inversion Hall as [|? ? Htok Hrest]; subst.
  destruct rest as [|tok2 rest].
  - cbn [render_tags]. cbn zeta. rewrite scan_tag by assumption. cbn.
    now rewrite close_tag by assumption.
  - change (render_tags (tok :: tok2 :: rest))
      with (render_token tok ++ [sp] ++ render_tags (tok2 :: rest)).
    cbn zeta. rewrite fold_left_app, scan_tag by assumption.
    cbn [app fold_left]. rewrite meta_step_space, close_tag by assumption.
    cbn [fst snd]. cbn zeta in IH. rewrite IH; [|discriminate|assumption].
    now rewrite <- app_assoc.
Qed.

Lemma meta_items_tags toks :
  Forall tag_text toks -> meta_items (render_tags toks) = map item_of toks.
Proof.
  intros H. destruct toks as [|tok rest]; [reflexivity|].
  apply (meta_items_tags_from (tok :: rest) []); [discriminate | assumption].
Qed.

Lemma render_tags_first tok rest c r :
  token_name tok = c :: r -> exists s, render_tags (tok :: rest) = c :: s.
Proof.
  intros Hn.
  assert (Hr : exists s, render_token tok = c :: s).
  { destruct tok as [n | n v]; cbn in *; subst; eexists; reflexivity. }
  destruct Hr as [s Hr].
  destruct rest as [|tok2 rest].
  - now exists s.
  - exists (s ++ [sp] ++ render_tags (tok2 :: rest)).
    change (render_tags (tok :: tok2 :: rest))
      with (render_token tok ++ [sp] ++ render_tags (tok2 :: rest)).
    now rewrite Hr.
Qed.

Lemma lower_is_not_upper c : ascii_lower c = true -> isupper c = false.
Proof.
  intros H. unfold ascii_lower, in_range in H.
  apply andb_true_iff in H as [H1 H2]. apply N.leb_le in H1, H2.
  unfold isupper, is_ascii, ascii_upper, in_range.
  destruct (N.ltb_spec c 128); [|lia].
  apply andb_false_iff. right. apply N.leb_gt. lia.
Qed.

(** X12.  A tag list of tokens with one space between them, the values
    plain texts, double-quoted strings or backtick URIs (white space and
    colons allowed inside the delimiters), is the mapping of the tag names
    to the decoded values, bare tags to the marker. *)
Theorem parse_meta_quoted_values (toks : list tag_token) (xs : list scalar) :
  Forall tag_text toks ->
  Forall (fun tok => tag_name (token_name tok)) toks ->
  Forall2 token_value toks xs ->
  _parse_meta (render_tags toks) = Ok (tags_of toks xs).
Proof.
  intros Ht Hn Hv. destruct toks as [|tok rest].
  - inversion Hv. reflexivity.
  - pose proof (Forall_inv Hn) as (c & r & Hname & Hc & _). cbn beta in Hname.
    destruct (render_tags_first tok rest c r Hname) as [s Hr].
    unfold _parse_meta. rewrite Hr, <- Hr.
    rewrite (lower_is_not_upper c Hc). cbn [negb].
    rewrite meta_items_tags by assumption.
    unfold tags_of. now apply meta_convert_tokens.
Qed.

Lemma meta_convert_value_error pre : forall xs m0 n v more e,
  Forall (fun tok => tag_name (token_name tok)) pre ->
  Forall2 token_value pre xs ->
  tag_name n -> _parse_scalar v = Err e ->
  meta_convert (map item_of pre ++ Pair n v :: more) m0 = Err e.
Proof.
  induction pre as [|tok pre IH]; intros xs m0 n v more e Hn Hv Hname He.
  - cbn [app map item_of meta_convert].
    now rewrite (tag_re_complete n Hname), He.
  - inversion Hv as [|? x ? xs' Hx Hxs]; subst.
    inversion Hn as [|? ? Hn1 Hns]; subst.
    apply tag_re_complete in Hn1.
    destruct tok as [n1 | n1 v1];
      cbn [app map item_of meta_convert token_name] in *.
    + rewrite Hn1. now apply (IH xs').
    + rewrite Hn1. cbn in Hx. rewrite Hx. cbn [bind]. now apply (IH xs').
Qed.

(** The loop only adds to [items]. *)
Lemma close_item_items its key cur :
  exists more, fst (close_item its key cur) = its ++ more.
Proof.
  unfold close_item. destruct (is_empty (strip cur)).
  - exists []. now rewrite app_nil_r.
  - destruct (truthy key); eexists; reflexivity.
Qed.

Lemma meta_step_items st c : exists more, items (meta_step st c) = items st ++ more.
Proof.
  destruct st as [its key cur inq inu esc]. cbn [meta_step items].
  assert (H0 : exists more : list meta_item, its = its ++ more)
    by (exists []; now rewrite app_nil_r).
  repeat match goal with
         | |- context [if ?b then _ else _] => destruct b
         end; try exact H0.
  destruct (close_item_items its key cur) as [more Hm].
  destruct (close_item its key cur) as [its' key']. now exists more.
Qed.

Lemma meta_fold_items s : forall st,
  exists more, items (fold_left meta_step s st) = items st ++ more.
Proof.
  induction s as [|c s IH]; intros st.
  - exists []. now rewrite app_nil_r.
  - cbn [fold_left]. destruct (IH (meta_step st c)) as [m1 H1].
    destruct (meta_step_items st c) as [m0 H0].
    exists (m0 ++ m1). now rewrite H1, H0, app_assoc.
Qed.

(** The state of the loop after a list of tokens. *)
Lemma scan_tags toks : forall its,
  toks <> [] -> Forall tag_text toks ->
  exists its' key cur,
    fold_left meta_step (render_tags toks)
              (mk_meta its None [] false false false)
    = mk_meta its' key cur false false false
    /\ close_item its' key cur = (its ++ map item_of toks, None).
Proof.
  induction toks as [|tok rest IH]; intros its Hne Hall; [congruence|].
  inversion Hall as [|? ? Htok Hrest]; subst.
  destruct rest as [|tok2 rest].
  - cbn [render_tags]. rewrite scan_tag by assumption.
    exists its, (token_key tok), (token_val tok).
    split; [reflexivity | now apply close_tag].
  - change (render_tags (tok :: tok2 :: rest))
      with (render_token tok ++ [sp] ++ render_tags (tok2 :: rest)).
    rewrite fold_left_app, scan_tag by assumption.
    cbn [app fold_left]. rewrite meta_step_space, close_tag by assumption.
    cbn [fst snd].
    destruct (IH (its ++ [item_of tok])) as (its' & key & cur & Hf & Hc);
      [discriminate | assumption |].
    exists its', key, cur. split; [exact Hf|].
    rewrite Hc. cbn [map]. now rewrite <- app_assoc.
Qed.

(** The items of a text that goes on after a list of tokens and a space
    begin with the items of the tokens. *)
Lemma meta_items_tags_then toks rest :
  toks <> [] -> Forall tag_text toks ->
  exists more,
    meta_items (render_tags toks ++ sp :: rest) = map item_of toks ++ more.
Proof.
  intros Hne Hall. unfold meta_items, meta_init.
  rewrite fold_left_app.
  destruct (scan_tags toks [] Hne Hall) as (its' & key & cur & -> & Hc).
  cbn [fold_left]. rewrite meta_step_space, Hc. cbn [fst snd app].
  destruct (meta_fold_items rest
              (mk_meta (map item_of toks) None [] false false false))
    as [m1 H1].
  destruct (close_item_items
              (items (fold_left meta_step rest
                        (mk_meta (map item_of toks) None [] false false false)))
              (current_key (fold_left meta_step rest
                        (mk_meta (map item_of toks) None [] false false false)))
              (current_val (fold_left meta_step rest
                        (mk_meta (map item_of toks) None [] false false false))))
    as [m2 H2].
  exists (m1 ++ m2). rewrite H2, H1. cbn [items]. now rewrite app_assoc.
Qed.

(** X13.  When the tags before it are well formed and decode, and a tag
    with a valid name has a value (a plain text, or a text in double
    quotes or in backticks without backslash) on which the scalar decoder
    raises, [_parse_meta] raises that error, whether the tag ends the text
    or a space and any text whatever follow it. *)
Theorem parse_meta_value_error
    (pre : list tag_token) (xs : list scalar) (n v : str) (e : error) :
  Forall tag_text (pre ++ [TPair n v]) ->
  Forall (fun tok => tag_name (token_name tok)) pre ->
  Forall2 token_value pre xs ->
  tag_name n -> _parse_scalar v = Err e ->
  _parse_meta (render_tags (pre ++ [TPair n v])) = Err e
  /\ forall rest,
       _parse_meta (render_tags (pre ++ [TPair n v]) ++ sp :: rest) = Err e.
Proof.
  intros Ht Hn Hv Hname He.
  assert (Hhd : exists tok tl c r,
            pre ++ [TPair n v] = tok :: tl
            /\ token_name tok = c :: r /\ ascii_lower c = true).
  { destruct pre as [|tok pre].
    - destruct Hname as (c & r & -> & Hc & _).
      now exists (TPair (c :: r) v), [], c, r.
    - pose proof (Forall_inv Hn) as (c & r & Hnm & Hc & _).
      now exists tok, (pre ++ [TPair n v]), c, r. }
  destruct Hhd as (tok & tl & c & r & Heq & Hnm & Hc).
  destruct (render_tags_first tok tl c r Hnm) as [s Hr].
  assert (Hne : pre ++ [TPair n v] <> []) by (rewrite Heq; discriminate).
  split.
  - unfold _parse_meta. rewrite Heq, Hr, <- Hr, <- Heq.
    rewrite (lower_is_not_upper c Hc). cbn [negb].
    rewrite meta_items_tags by assumption.
    rewrite map_app. cbn [map item_of].
    now apply (meta_convert_value_error pre xs).
  - intros rest.
    destruct (meta_items_tags_then (pre ++ [TPair n v]) rest Hne Ht)
      as [more Hm].
    unfold _parse_meta. rewrite Heq, Hr. cbn [app].
    rewrite (lower_is_not_upper c Hc). cbn [negb].
    change (c :: s ++ sp :: rest) with ((c :: s) ++ sp :: rest).
    rewrite <- Hr, <- Heq, Hm, map_app. cbn [map item_of].
    rewrite <- app_assoc. cbn [app].
    now apply (meta_convert_value_error pre xs).
Qed.

(** ** Grids *)

Lemma lits_sound p : forall c s c' s',
  In (c', s') (rmatch (lits p) c s) -> c' = c /\ s = p ++ s'.
Proof.
  induction p as [|x p IH]; intros c s c' s' H.
  - destruct H as [[= <- <-] | []]. now split.
  - cbn [lits fold_right] in H. fold (lits p) in H.
    apply in_rmatch_lit in H as (s1 & -> & H).
    apply IH in H as [-> ->]. now split.
Qed.

Lemma hd_error_in {A} (l : list A) x : hd_error l = Some x -> In x l.
Proof. destruct l; [discriminate|]. intros [= <-]. now left. Qed.

(** What [VERSION_RE] matches: [ver:], a double quote, a non-empty text
    without double quote, a double quote. *)
Lemma version_re_sound line m after :
  re_match VERSION_RE line = Some (m, after) ->
  exists v, line = py "ver:" ++ dq :: v ++ dq :: after
            /\ v <> [] /\ ~ In dq v /\ grp 1 m = v.
Proof.
  unfold re_match. intros H. apply hd_error_in in H.
  unfold VERSION_RE, cat in H. cbn [fold_right] in H.
  apply in_rmatch_seq in H as (c1 & s1 & H1 & H).
  apply lits_sound in H1 as [-> ->].
  apply in_rmatch_lit in H as (s2 & -> & H).
  apply in_rmatch_seq in H as (c3 & s3 & H3 & H).
  cbn [rmatch] in H3. apply in_map_iff in H3 as ((c0, s0) & [= <- <-] & H3).
  fold (rmatch (Plus (Chr not_dq)) [] s2) in H3.
  apply plus_chr_sound in H3 as (-> & v & -> & Hne & Hv).
  rewrite firstn_consumed in H.
  apply in_rmatch_lit in H as (s4 & -> & H).
  destruct H as [[= <- <-] | []].
  exists v. split; [reflexivity|]. split; [assumption|].
  split; [|reflexivity]. intros Hin. rewrite Forall_forall in Hv. specialize (Hv dq Hin).
  discriminate Hv.
Qed.

Lemma parse_columns_each col_parts : forall columns,
  parse_columns col_parts = Ok columns ->
  Forall2 (fun f col => parse_column f = Ok col) col_parts columns.
Proof.
  induction col_parts as [|f rest IH]; intros columns H.
  - injection H as <-. constructor.
  - cbn [parse_columns] in H.
    apply bind_ok in H as (col & Hcol & H).
    apply bind_ok in H as (cols & Hcols & [= <-]).
    constructor; [assumption | now apply IH].
Qed.

Lemma split_once_has_sep sep s a :
  split_once sep s = (a, None) -> has_char sep s = false.
Proof.
  revert a. induction s as [|c s IH]; intros a H; [reflexivity|].
  cbn [split_once] in H. cbn [has_char existsb].
  rewrite N.eqb_sym. destruct (N.eqb c sep); [discriminate|].
  destruct (split_once sep s) as [a' [b|]]; [discriminate|].
  cbn [orb]. now apply (IH a').
Qed.

Lemma split_once_some_has_sep sep s a b :
  split_once sep s = (a, Some b) -> has_char sep s = true.
Proof.
  revert a. induction s as [|c s IH]; intros a H; [discriminate|].
  cbn [split_once] in H. cbn [has_char existsb].
  rewrite N.eqb_sym. destruct (N.eqb c sep); [reflexivity|].
  destruct (split_once sep s) as [a' [b'|]]; [|discriminate].
  injection H as _ <-. cbn [orb]. now apply (IH a').
Qed.

Lemma parse_column_tags col_str col :
  parse_column col_str = Ok col ->
  fst col = column_name col_str
  /\ _parse_meta (column_tags col_str) = Ok (snd col).
Proof.
  intros H. split; [now apply parse_column_name|]. revert H.
  unfold parse_column, column_tags.
  destruct (split_once sp (strip col_str)) as [name [rest|]] eqn:Hs.
  - rewrite (split_once_some_has_sep _ _ _ _ Hs).
    intros H. apply bind_ok in H as (m & Hm & [= <-]). exact Hm.
  - rewrite (split_once_has_sep _ _ _ Hs). now intros [= <-].
Qed.

(** X14.  A text the fast path returns a grid for has at least two lines;
    the first is [ver:], a non-empty version text in double quotes and the
    tag list of the grid: the version of the grid is [Version] of that
    text, its metadata the mapping of that tag list. *)
Theorem parse_grid_fast_header (grid_str : str) (g : grid) :
  parse_grid_fast grid_str = Ok g ->
  exists v after col_line lines,
    split_on nl grid_str
    = (py "ver:" ++ dq :: v ++ dq :: after) :: col_line :: lines
    /\ v <> [] /\ ~ In dq v
    /\ mk_version v = Some (g_version g)
    /\ _parse_meta (strip after) = Ok (g_metadata g).
Proof.
  intros H.
  apply parse_grid_fast_inv in H
    as (line1 & col_line & lines & m & after & ver & grid_meta & columns
        & Hsplit & Hver & Hmk & Hmeta & _ & Hrows).
  apply version_re_sound in Hver as (v & -> & Hne & Hq & Hg).
  apply parse_rows_spec in Hrows as (Hv & Hm & _). cbn in Hv, Hm.
  subst v. exists (grp 1 m), after, col_line, lines. rewrite Hv, Hm.
  split; [exact Hsplit|]. split; [exact Hne|]. split; [exact Hq|].
  split; assumption.
Qed.

(** X15.  The columns of the returned grid are the fields of the second
    line, in order: the name of a column is the field up to its first
    space, its metadata the mapping of the tag list after that space (empty
    when the field has no space). *)
Theorem parse_grid_fast_columns (grid_str : str) (g : grid) :
  parse_grid_fast grid_str = Ok g ->
  Forall2 (fun col_str col =>
             fst col = column_name col_str
             /\ _parse_meta (column_tags col_str) = Ok (snd col))
          (_split_csv_values (nth 1 (split_on nl grid_str) []))
          (g_columns g).
Proof.
  intros H.
  apply parse_grid_fast_inv in H
    as (line1 & col_line & lines & m & after & ver & grid_meta & columns
        & Hsplit & _ & _ & _ & Hcols & Hrows).
  apply parse_rows_spec in Hrows as (_ & _ & Hc & _). cbn in Hc.
  rewrite Hsplit, Hc. cbn [nth].
  apply parse_columns_each in Hcols.
  eapply Forall2_impl; [|exact Hcols]. cbn beta.
  intros f col. apply parse_column_tags.
Qed.

Lemma Forall2_in_r {A B} (P : A -> B -> Prop) l l' y :
  Forall2 P l l' -> In y l' -> exists x, In x l /\ P x y.
Proof.
  induction 1 as [|a b l l' Hab _ IH]; intros Hin; [contradiction|].
  destruct Hin as [<- | Hin].
  - exists a. split; [now left | assumption].
  - destruct (IH Hin) as (x & Hx & Hp). exists x. split; [now right | assumption].
Qed.

(** X16.  In a returned grid every key of the grid metadata and of the
    metadata of a column is a tag name. *)
Theorem parse_grid_fast_tag_names (grid_str : str) (g : grid) :
  parse_grid_fast grid_str = Ok g ->
  (forall k, In k (keys (g_metadata g)) -> tag_name k)
  /\ (forall col k, In col (g_columns g) -> In k (keys (snd col)) ->
                    tag_name k).
Proof.
  intros H.
  apply parse_grid_fast_inv in H
    as (line1 & col_line & lines & m & after & ver & grid_meta & columns
        & _ & _ & _ & Hmeta & Hcols & Hrows).
  apply parse_rows_spec in Hrows as (_ & Hm & Hc & _). cbn in Hm, Hc.
  rewrite Hm, Hc. split.
  - now apply (parse_meta_keys _ _ Hmeta).
  - intros col k Hcol Hk. apply parse_columns_each in Hcols.
    destruct (Forall2_in_r _ _ _ _ Hcols Hcol) as (f & _ & Hf).
    apply parse_column_tags in Hf as [_ Hf].
    now apply (parse_meta_keys _ _ Hf).
Qed.

(** *** Lines *)

Lemma split_on_no_sep sep s : ~ In sep s -> split_on sep s = [s].
Proof.
  induction s as [|c s IH]; intros H; [reflexivity|].
  cbn [split_on]. destruct (N.eqb_spec c sep) as [-> | _].
  - destruct H. now left.
  - rewrite IH; [reflexivity|]. intros Hin. apply H. now right.
Qed.

Lemma split_on_sep sep a b :
  ~ In sep a -> split_on sep (a ++ sep :: b) = a :: split_on sep b.
Proof.
  induction a as [|c a IH]; intros H.
  - cbn [app split_on]. now rewrite N.eqb_refl.
  - cbn [app split_on]. destruct (N.eqb_spec c sep) as [-> | _].
    + destruct H. now left.
    + rewrite IH; [reflexivity|]. intros Hin. apply H. now right.
Qed.

Lemma split_on_not_nil sep s : split_on sep s <> [].
Proof.
  destruct s as [|c s]; [discriminate|]. cbn [split_on].
  destruct (N.eqb c sep); [discriminate|].
  now destruct (split_on sep s).
Qed.

Lemma split_on_snoc sep s : split_on sep (s ++ [sep]) = split_on sep s ++ [[]].
Proof.
  induction s as [|c s IH].
  - cbn. now rewrite N.eqb_refl.
  - cbn [app split_on]. rewrite IH.
    destruct (N.eqb c sep); [reflexivity|].
    pose proof (split_on_not_nil sep s) as Hne.
    now destruct (split_on sep s).
Qed.

(** The text up to the first separator and the rest. *)
Lemma first_sep (sep : char) (s : str) :
  In sep s -> exists a b, s = a ++ sep :: b /\ ~ In sep a.
Proof.
  induction s as [|c s IH]; intros H; [contradiction|].
  destruct (N.eq_dec c sep) as [-> | Hc].
  - exists [], s. split; [reflexivity | intros []].
  - destruct H as [-> | H]; [congruence|].
    destruct (IH H) as (a & b & -> & Ha).
    exists (c :: a), b. split; [reflexivity|].
    intros [<- | Hin]; [congruence | contradiction].
Qed.

Lemma split_once_no_sep sep s : ~ In sep s -> split_once sep s = (s, None).
Proof.
  induction s as [|c s IH]; intros H; [reflexivity|].
  cbn [split_once]. destruct (N.eqb_spec c sep) as [-> | _].
  - destruct H. now left.
  - rewrite IH; [reflexivity|]. intros Hin. apply H. now right.
Qed.

(** [split(sep, n)] and [split(sep)] begin with the same line. *)
Lemma split_on_max_head sep n s :
  exists l1 tl tl',
    split_on sep s = l1 :: tl /\ split_on_max sep (S n) s = l1 :: tl'.
Proof.
  destruct (in_dec N.eq_dec sep s) as [Hin | Hin].
  - destruct (first_sep sep s Hin) as (a & b & -> & Ha).
    exists a, (split_on sep b), (split_on_max sep n b).
    split; [now apply split_on_sep|].
    cbn [split_on_max]. now rewrite split_once_app.
  - exists s, [], []. split; [now apply split_on_no_sep|].
    cbn [split_on_max]. now rewrite split_once_no_sep.
Qed.

(** *** A text of one line *)

(** X17.  The fast path raises on every text without a line feed: a
    grid needs the line of the columns. *)
Theorem parse_grid_fast_one_line (grid_str : str) :
  ~ In nl grid_str -> exists e, parse_grid_fast grid_str = Err e.
Proof.
  intros Hnl. destruct (parse_grid_fast grid_str) as [g | e] eqn:H;
    [|now exists e].
  apply parse_grid_fast_inv in H as (l1 & l2 & ls & ? & ? & ? & ? & ? & Hs & _).
  rewrite split_on_no_sep in Hs by assumption. discriminate Hs.
Qed.

(** *** Escaped backticks *)

Lemma lstrip_keeps a x r :
  isspace x = false -> lstrip (a ++ x :: r) = lstrip (a ++ [x]) ++ r.
Proof.
  intros Hx. induction a as [|c a IH].
  - cbn. now rewrite Hx.
  - cbn [app lstrip]. destruct (isspace c); [exact IH|].
    cbn [app]. now rewrite <- app_assoc.
Qed.

Lemma lstrip_last a x :
  isspace x = false -> exists a', lstrip (a ++ [x]) = a' ++ [x].
Proof.
  intros Hx. induction a as [|c a IH].
  - exists []. cbn. now rewrite Hx.
  - cbn [app lstrip]. destruct (isspace c); [exact IH|].
    now exists (c :: a).
Qed.

(** Stripping keeps what lies between two characters that are no white
    space. *)
Lemma strip_keeps a x mid y b :
  isspace x = false -> isspace y = false ->
  exists a' b', strip (a ++ x :: mid ++ y :: b) = a' ++ x :: mid ++ y :: b'.
Proof.
  intros Hx Hy. unfold strip, rstrip.
  rewrite lstrip_keeps by assumption.
  destruct (lstrip_last a x Hx) as [a' ->].
  replace ((a' ++ [x]) ++ mid ++ y :: b)
    with ((a' ++ x :: mid) ++ y :: b)
    by (now rewrite <- !app_assoc).
  rewrite rev_app_distr. cbn [rev]. rewrite <- app_assoc. cbn [app].
  rewrite lstrip_keeps by assumption.
  destruct (lstrip_last (rev b) y Hy) as [b' ->].
  exists a', (rev b').
  rewrite rev_app_distr, rev_involutive, rev_app_distr. cbn [rev app].
  now rewrite <- !app_assoc.
Qed.

Lemma contains_escaped_backtick_strip l :
  contains [bslash; btick] l = true ->
  contains [bslash; btick] (strip l) = true.
Proof.
  intros H. apply contains_spec in H as (a & b & ->).
  destruct (strip_keeps a bslash [] btick b eq_refl eq_refl) as (a' & b' & Hs).
  apply contains_spec. exists a', b'. exact Hs.
Qed.

Lemma parse_rows_each names lines : forall g0 g l,
  parse_rows names lines g0 = Ok g -> In l lines -> strip l <> [] ->
  exists r, parse_row names (strip l) = Ok r.
Proof.
  induction lines as [|l0 lines IH]; intros g0 g l H Hin Hl; [contradiction|].
  cbn [parse_rows] in H.
  destruct Hin as [-> | Hin].
  - destruct (strip l) as [|c r] eqn:Hs; [congruence|].
    cbn [is_empty] in H. apply bind_ok in H as (rw & Hrw & _). now exists rw.
  - destruct (is_empty (strip l0)); [now apply (IH g0 g)|].
    apply bind_ok in H as (rw & _ & H). now apply (IH (grid_append g0 rw) g).
Qed.

(** X18.  The fast path raises when the first line or a row line has a
    backslash followed by a backtick; the second line is not checked. *)
Theorem parse_grid_fast_escaped_backtick (grid_str l : str) (i : nat) :
  i <> 1 -> nth_error (split_on nl grid_str) i = Some l ->
  contains [bslash; btick] l = true ->
  exists e, parse_grid_fast grid_str = Err e.
Proof.
  intros Hi Hl Hc. destruct (parse_grid_fast grid_str) as [g | e] eqn:H;
    [exfalso | now exists e].
  destruct i as [|[|i]]; [|congruence|].
  - (* the first line *)
    destruct (split_on_max_head nl 1 grid_str) as (l1 & tl & tl' & Hs & Hm).
    rewrite Hs in Hl. injection Hl as ->.
    unfold parse_grid_fast in H. rewrite Hm, Hc in H.
    repeat match type of H with
           | (if ?b then _ else _) = _ => destruct b; [|discriminate H]
           end.
    cbn [negb] in H. destruct (negb _); discriminate H.
  - (* a row line *)
    apply parse_grid_fast_inv in H
      as (l1 & l2 & ls & ? & ? & ? & ? & ? & Hs & _ & _ & _ & _ & Hrows).
    rewrite Hs in Hl. cbn [nth_error] in Hl. apply nth_error_In in Hl.
    pose proof (contains_escaped_backtick_strip l Hc) as Hc'.
    destruct (parse_rows_each _ _ _ _ l Hrows Hl) as [r Hr].
    + intros Hnil. rewrite Hnil in Hc'. discriminate Hc'.
    + unfold parse_row in Hr. rewrite Hc' in Hr. discriminate Hr.
Qed.

(** *** Bare words in a row *)

Lemma ident_call_needs_paren val :
  re_test IDENT_CALL_RE val = true -> In (ch "(") val.
Proof.
  intros H. apply re_test_true in H as [[m s] H].
  unfold IDENT_CALL_RE, cat in H. cbn [fold_right] in H.
  destruct val as [|x val]; [contradiction|].
  rewrite rmatch_seq_chr in H. destruct (_ || _)%bool; [|contradiction].
  apply in_rmatch_seq in H as (c1 & s1 & H1 & H).
  cbn [rmatch] in H1. apply star_chr_sound in H1 as (_ & pre & -> & _).
  apply in_rmatch_lit in H as (s2 & -> & _).
  right. apply in_or_app. right. now left.
Qed.

Lemma lower_starts_nothing c :
  ascii_lower c = true ->
  one_of ([dq; btick] ++ py "@MNTFRCB") c = false
  /\ isdigit c = false /\ one_of (py "-+") c = false
  /\ one_of (py "IN-") c = false /\ isspace c = false.
Proof.
  intros H. apply lower_bounds in H. repeat split; char_cases.
Qed.

(** The check of the row loop rejects a field that begins with a
    lowercase letter and has no opening paren. *)
Lemma value_ok_bare_word c r :
  ascii_lower c = true -> ~ In (ch "(") (c :: r) -> strip (c :: r) = c :: r ->
  value_ok (c :: r) = false.
Proof.
  intros Hc Hp Hs. unfold value_ok. rewrite Hs.
  destruct (lower_starts_nothing c Hc) as (H1 & H2 & H3 & H4 & _).
  rewrite H1, H2, H3. cbn [negb andb].
  destruct (re_test IDENT_CALL_RE (c :: r)) eqn:Hr.
  { now apply ident_call_needs_paren in Hr. }
  cbn [negb andb existsb].
  assert (Hne : forall x t, one_of (py "IN-") x = true ->
                            str_eqb (c :: r) (x :: t) = false).
  { intros x t Hx. apply str_eqb_neq. intros [= <- _]. congruence. }
  change (py "INF") with (ch "I" :: py "NF").
  change (py "-INF") with (ch "-" :: py "INF").
  change (py "NaN") with (ch "N" :: py "aN").
  change (py "NA") with (ch "N" :: py "A").
  now rewrite !Hne.
Qed.

Lemma validate_values_each vals : forall u,
  validate_values vals = Ok u -> Forall (fun v => value_ok v = true) vals.
Proof.
  induction vals as [|v vals IH]; intros u H; [constructor|].
  cbn [validate_values] in H. destruct (value_ok v) eqn:Hv; [|discriminate].
  constructor; [assumption | now apply (IH u)].
Qed.

Lemma split_csv_values_stripped line f :
  In f (_split_csv_values line) -> strip f = f.
Proof.
  rewrite split_csv_values_is_split_fields. unfold split_fields.
  destruct line as [|c line]; [contradiction|].
  intros H. apply in_map_iff in H as (x & <- & _). apply strip_idempotent.
Qed.

(** X19.  The fast path raises when a field of a row line begins with a
    lowercase letter and has no opening paren, although [_parse_scalar]
    alone reads such a word as a string. *)
Theorem parse_grid_fast_bare_word
    (grid_str l : str) (i : nat) (c : char) (r : str) :
  nth_error (split_on nl grid_str) (2 + i) = Some l ->
  In (c :: r) (_split_csv_values (strip l)) ->
  ascii_lower c = true -> ~ In (ch "(") r ->
  exists e, parse_grid_fast grid_str = Err e.
Proof.
  intros Hl Hf Hc Hp. destruct (parse_grid_fast grid_str) as [g | e] eqn:H;
    [exfalso | now exists e].
  apply parse_grid_fast_inv in H
    as (l1 & l2 & ls & ? & ? & ? & ? & ? & Hs & _ & _ & _ & _ & Hrows).
  rewrite Hs in Hl. cbn [nth_error Nat.add] in Hl. apply nth_error_In in Hl.
  destruct (parse_rows_each _ _ _ _ l Hrows Hl) as [rw Hr].
  - intros Hnil. rewrite Hnil in Hf. contradiction.
  - unfold parse_row in Hr.
    destruct (negb _); [|discriminate Hr].
    apply bind_ok in Hr as (u & Hu & _).
    apply validate_values_each in Hu. rewrite Forall_forall in Hu.
    specialize (Hu _ Hf).
    rewrite value_ok_bare_word in Hu;
      [discriminate | assumption |
      | now apply (split_csv_values_stripped (strip l))].
    intros [-> | Hin]; [discriminate Hc | contradiction].
Qed.

(** *** A final line feed *)

Lemma startswith_snoc sub s c :
  sub <> [] -> ~ In c sub ->
  startswith sub (s ++ [c]) = startswith sub s.
Proof.
  revert s. induction sub as [|x sub IH]; intros s Hne Hc; [congruence|].
  destruct s as [|y s].
  - cbn [app startswith]. destruct (N.eqb_spec x c) as [-> | _];
      [destruct Hc; now left | reflexivity].
  - cbn [app startswith]. destruct sub as [|x' sub'].
    + now destruct s.
    + rewrite IH; [reflexivity | discriminate|].
      intros Hin. apply Hc. now right.
Qed.

Lemma contains_snoc sub s c :
  sub <> [] -> ~ In c sub -> contains sub (s ++ [c]) = contains sub s.
Proof.
  intros Hne Hc. induction s as [|y s IH].
  - destruct sub as [|x sub]; [congruence|]. cbn [app contains startswith].
    destruct (N.eqb_spec x c) as [-> | _]; [destruct Hc; now left|].
    reflexivity.
  - cbn [app contains]. fold (app s [c]).
    change (y :: s ++ [c]) with ((y :: s) ++ [c]).
    now rewrite startswith_snoc, IH.
Qed.

Lemma has_char_snoc x s c : x <> c -> has_char x (s ++ [c]) = has_char x s.
Proof.
  intros H. unfold has_char. rewrite existsb_app. cbn [existsb].
  apply N.eqb_neq in H. rewrite H. now rewrite !orb_false_r.
Qed.

Lemma has_char_firstn_snoc x n s c :
  x <> c -> has_char x (firstn n (s ++ [c])) = has_char x (firstn n s).
Proof.
  intros H. rewrite firstn_app. unfold has_char. rewrite existsb_app.
  destruct (n - length s) as [|k]; cbn [firstn existsb];
    [now rewrite orb_false_r|].
  apply N.eqb_neq in H. rewrite firstn_nil. cbn [existsb].
  now rewrite H, !orb_false_r.
Qed.

Lemma parse_rows_blank names lines : forall g0,
  parse_rows names (lines ++ [[]]) g0 = parse_rows names lines g0.
Proof.
  induction lines as [|l lines IH]; intros g0; [reflexivity|].
  cbn [app parse_rows]. destruct (is_empty (strip l)); [apply IH|].
  destruct (parse_row names (strip l)) as [rw | e]; [apply IH | reflexivity].
Qed.

(** X20.  A line feed added at the end of a text of two lines or more
    changes nothing: the same grid, or the same error. *)
Theorem parse_grid_fast_final_line_feed (grid_str : str) :
  In nl grid_str ->
  parse_grid_fast (grid_str ++ [nl]) = parse_grid_fast grid_str.
Proof.
  intros Hin. destruct (first_sep nl grid_str Hin) as (a & b & Hs & Ha).
  unfold parse_grid_fast.
  rewrite contains_snoc by (vm_compute; intuition discriminate).
  rewrite has_char_snoc by discriminate.
  rewrite !slice_to_min, has_char_firstn_snoc by discriminate.
  assert (Hm : split_on_max nl 2 grid_str = a :: split_on_max nl 1 b).
  { rewrite Hs. cbn [split_on_max]. now rewrite split_once_app. }
  assert (Hm' : split_on_max nl 2 (grid_str ++ [nl])
                = a :: split_on_max nl 1 (b ++ [nl])).
  { rewrite Hs, <- app_assoc. cbn [app split_on_max].
    now rewrite split_once_app. }
  rewrite Hm, Hm', split_on_snoc.
  assert (Hl : split_on nl grid_str = a :: split_on nl b).
  { rewrite Hs. now apply split_on_sep. }
  rewrite Hl. cbn [app].
  destruct (split_on nl b) as [|col_line lines] eqn:Hb;
    [now destruct (split_on_not_nil nl b)|].
  cbn [app].
  repeat first
    [ reflexivity
    | apply parse_rows_blank
    | match goal with
      | |- (if ?c then _ else _) = _ => destruct c
      | |- bind ?m _ = _ => destruct m; cbn [bind]
      | |- match ?x with _ => _ end = _ => destruct x
      end ].
Qed.

(** ** More scalar tokens *)

(** *** Extended strings *)

Lemma tag_char_cases c :
  tag_char c = true ->
  (97 <= c <= 122)%N \/ (65 <= c <= 90)%N \/ (48 <= c <= 57)%N \/ c = 95%N.
Proof.
  unfold tag_char, ascii_alnum, ascii_lower, ascii_upper, ascii_digit, in_range.
  rewrite !orb_true_iff, !andb_true_iff, !N.leb_le, N.eqb_eq. tauto.
Qed.

Lemma tag_char_word c : tag_char c = true -> re_word c = true.
Proof. intros H. apply tag_char_cases in H. char_cases. Qed.

Lemma tag_char_head c :
  tag_char c = true ->
  isspace c = false
  /\ one_of (py "[{<@" ++ [btick; dq] ++ py "(-") c = false.
Proof. intros H. apply tag_char_cases in H. split; char_cases. Qed.

Lemma app_sep_inj (x : char) a b r t :
  ~ In x a -> ~ In x b -> a ++ x :: r = b ++ x :: t -> a = b.
Proof.
  revert b. induction a as [|c a IH]; intros b Ha Hb H.
  - destruct b as [|d b]; [reflexivity|]. injection H as <- _.
    destruct Hb. now left.
  - destruct b as [|d b].
    + injection H as -> _. destruct Ha. now left.
    + injection H as -> H. f_equal. apply IH; [| |assumption].
      * intros Hin. apply Ha. now right.
      * intros Hin. apply Hb. now right.
Qed.

Lemma endswith_snoc x s : endswith [x] (s ++ [x]) = true.
Proof.
  unfold endswith. rewrite rev_app_distr. cbn [rev app startswith].
  now rewrite N.eqb_refl.
Qed.

Lemma literal_chars t c :
  In t literal_tokens -> In c t -> one_of (py "MNARTFI-a") c = true.
Proof.
  unfold literal_tokens. cbn [In]. intros Ht Hc.
  repeat (destruct Ht as [<- | Ht]; [vm_compute in Hc; revert Hc; clear;
            intros Hc; repeat (destruct Hc as [<- | Hc]; [reflexivity|]);
            contradiction|]).
  contradiction.
Qed.

Lemma xstr_re_match name payload :
  name <> [] -> Forall (fun c => tag_char c = true) name ->
  ~ In dq payload ->
  re_match XSTR_RE (name ++ ch "(" :: dq :: payload ++ [dq; ch ")"])
  = Some ([(2, payload); (1, name)], []).
Proof.
  intros Hne Hn Hp. unfold re_match, XSTR_RE, cat. cbn [fold_right].
  destruct name as [|n0 ns]; [congruence|]. inversion Hn; subst.
  eapply rmatch_seq_hd.
  { apply rmatch_grp_hd. cbn [app]. apply rmatch_plus_chr_hd.
    - now apply tag_char_word.
    - eapply Forall_impl; [|eassumption]. apply tag_char_word.
    - now apply stops_at. }
  eapply rmatch_seq_hd; [apply rmatch_lit_hd|].
  eapply rmatch_seq_hd; [apply rmatch_lit_hd|].
  eapply rmatch_seq_hd.
  { apply rmatch_grp_hd. apply rmatch_star_chr_hd.
    - apply Forall_forall. intros x Hx. unfold not_dq.
      destruct (N.eqb_spec x dq) as [-> | _]; [contradiction | reflexivity].
    - now apply stops_at. }
  eapply rmatch_seq_hd; [apply rmatch_lit_hd|].
  eapply rmatch_seq_hd; [apply rmatch_lit_hd|].
  reflexivity.
Qed.

(** X21.  A token made of a type name of ASCII letters, digits and
    underscores other than [C] and [Bin], an opening paren, a text without
    double quote in double quotes and a closing paren is the extended
    string of the name and the text unescaped. *)
Theorem parse_scalar_xstr (name payload : str) (ver : version) :
  name <> [] -> Forall (fun c => tag_char c = true) name ->
  name <> py "C" -> name <> py "Bin" ->
  ~ In dq payload ->
  parse_scalar (name ++ ch "(" :: dq :: payload ++ [dq; ch ")"]) ver
  = (p <- _unescape false payload ;; Ok (VXStr name p)).
Proof.
  intros Hne Hn HC HB Hp.
  pose proof (xstr_re_match name payload Hne Hn Hp) as Hm.
  set (value := name ++ ch "(" :: dq :: payload ++ [dq; ch ")"]) in *.
  assert (Hnp : forall x, tag_char x = false -> ~ In x name).
  { intros x Hx Hin. rewrite Forall_forall in Hn. specialize (Hn x Hin).
    congruence. }
  assert (Hhead : exists c0 r, value = c0 :: r /\ tag_char c0 = true).
  { unfold value. destruct name as [|n0 ns]; [congruence|].
    exists n0, (ns ++ ch "(" :: dq :: payload ++ [dq; ch ")"]).
    split; [reflexivity | now inversion Hn]. }
  destruct Hhead as (c0 & r & Hcr & Hc0).
  destruct (tag_char_head c0 Hc0) as [Hsp Hnin].
  assert (Hparen : In (ch "(") value).
  { unfold value. apply in_or_app. right. now left. }
  assert (Hprefix : forall p, p <> name -> ~ In (ch "(") p ->
                              startswith (p ++ [ch "("]) value = false).
  { intros p Hpn Hpp. destruct (startswith _ value) eqn:Hs; [|reflexivity].
    apply startswith_spec in Hs as [t Ht]. unfold value in Ht.
    rewrite <- app_assoc in Ht. cbn [app] in Ht.
    apply app_sep_inj in Ht; [congruence | now apply Hnp | assumption]. }
  assert (Hstrip : strip value = value).
  { apply trimmed_strip. split; intros c t Hv.
    - rewrite Hcr in Hv. now injection Hv as <- _.
    - unfold value in Hv.
      replace (name ++ ch "(" :: dq :: payload ++ [dq; ch ")"])
        with ((name ++ ch "(" :: dq :: payload ++ [dq]) ++ [ch ")"]) in Hv
        by (rewrite <- !app_assoc; cbn [app]; now rewrite <- !app_assoc).
      apply app_inj_tail in Hv as [_ <-]. reflexivity. }
  unfold parse_scalar. rewrite parse_scalar_dispatch; rewrite Hstrip.
  2: { rewrite Hcr. discriminate. }
  2: { rewrite Hcr. unfold complex_prefix.
       change (py "[") with [ch "["]. change (py "{") with [ch "{"].
       change (py "<<") with [ch "<"; ch "<"].
       rewrite !startswith_head; [reflexivity | | |];
         now apply (one_of_neq _ _ _ Hnin). }
  2: { intros Hl. now pose proof (literal_chars value (ch "(") Hl Hparen). }
  unfold dispatch, decoding_rules. cbn [fold_right].
  assert (HsC : startswith (py "C(") value = false).
  { apply (Hprefix (py "C")); [congruence|].
    intros Hin; vm_compute in Hin; intuition discriminate. }
  assert (rule_coord value = None) as ->.
  { unfold rule_coord. now rewrite HsC. }
  assert (rule_ref value = None) as ->.
  { rewrite Hcr. unfold rule_ref. change (py "@") with [ch "@"].
    rewrite startswith_head; [reflexivity|].
    now apply (one_of_neq _ _ _ Hnin). }
  assert (rule_bin value = None) as ->.
  { unfold rule_bin. change (py "Bin(") with (py "Bin" ++ [ch "("]).
    rewrite (Hprefix (py "Bin")); [reflexivity | congruence|].
    intros Hin; vm_compute in Hin; intuition discriminate. }
  cbn [or_else]. unfold rule_xstr.
  rewrite (proj2 (has_char_In (ch "(") value) Hparen), HsC.
  assert (endswith (py ")") value = true) as ->.
  { unfold value.
    replace (name ++ ch "(" :: dq :: payload ++ [dq; ch ")"])
      with ((name ++ ch "(" :: dq :: payload ++ [dq]) ++ [ch ")"])
      by (rewrite <- !app_assoc; cbn [app]; now rewrite <- !app_assoc).
    apply endswith_snoc. }
  cbn [andb negb]. rewrite Hm. reflexivity.
Qed.

(** *** Dates and times *)

Lemma rep_chr_hd p : forall pre c s',
  Forall (fun x => p x = true) pre ->
  hd_error (rmatch (Rep (length pre) (Chr p)) c (pre ++ s')) = Some (c, s').
Proof.
  induction pre as [|x pre IH]; intros c s' H; [reflexivity|].
  inversion H; subst. cbn [length Rep app].
  eapply rmatch_seq_hd; [now apply rmatch_chr_hd | now apply IH].
Qed.

(** The dispatch on a token that begins with a digit and has no opening
    paren: the rules for dates, times and numbers remain. *)
Lemma dispatch_digit_head c r :
  ascii_digit c = true -> ~ In (ch "(") (c :: r) ->
  strip (c :: r) = c :: r ->
  _parse_scalar (c :: r)
  = or_else (rule_datetime (c :: r))
      (or_else (rule_date (c :: r))
         (or_else (rule_time (c :: r))
            (or_else (rule_number (c :: r)) (Ok (VStr (c :: r)))))).
Proof.
  intros Hc Hp Hs.
  destruct (number_head c (or_intror Hc)) as (_ & Hnin & Hlit).
  rewrite parse_scalar_dispatch; rewrite Hs.
  2: discriminate.
  2: { unfold complex_prefix.
       change (py "[") with [ch "["]. change (py "{") with [ch "{"].
       change (py "<<") with [ch "<"; ch "<"].
       rewrite !startswith_head; [reflexivity | | |];
         now apply (one_of_neq _ _ _ Hnin). }
  2: { apply not_literal, Hlit. intros ->. discriminate Hc. }
  unfold dispatch, decoding_rules. cbn [fold_right].
  assert (rule_coord (c :: r) = None) as ->.
  { unfold rule_coord. change (py "C(") with [ch "C"; ch "("].
    rewrite startswith_head; [reflexivity|].
    now apply (one_of_neq _ _ _ Hnin). }
  assert (rule_ref (c :: r) = None) as ->.
  { unfold rule_ref. change (py "@") with [ch "@"].
    rewrite startswith_head; [reflexivity|].
    now apply (one_of_neq _ _ _ Hnin). }
  assert (rule_bin (c :: r) = None) as ->.
  { unfold rule_bin. change (py "Bin(") with (ch "B" :: py "in(").
    rewrite startswith_head; [reflexivity|].
    now apply (one_of_neq _ _ _ Hnin). }
  assert (rule_xstr (c :: r) = None) as ->.
  { unfold rule_xstr.
    now rewrite (proj2 (has_char_false (ch "(") (c :: r)) Hp). }
  assert (rule_uri (c :: r) = None) as ->.
  { unfold rule_uri. rewrite startswith_head; [reflexivity|].
    now apply (one_of_neq _ _ _ Hnin). }
  assert (rule_str (c :: r) = None) as ->.
  { unfold rule_str. rewrite startswith_head; [reflexivity|].
    now apply (one_of_neq _ _ _ Hnin). }
  reflexivity.
Qed.

Lemma clock_char_no_space c : clock_char c = true -> isspace c = false.
Proof.
  unfold clock_char. rewrite orb_true_iff. intros [H | H].
  - apply digit_bounds in H. char_cases.
  - revert H. char_cases.
Qed.

Lemma clock_chars_strip s :
  Forall (fun c => clock_char c = true) s -> strip s = s.
Proof.
  intros H. apply all_nonspace_strip. eapply Forall_impl; [|exact H].
  apply clock_char_no_space.
Qed.

Lemma clock_chars_not_in x s :
  Forall (fun c => clock_char c = true) s -> clock_char x = false ->
  ~ In x s.
Proof.
  intros Hs Hx Hin. rewrite Forall_forall in Hs. specialize (Hs x Hin).
  congruence.
Qed.

Lemma digits_not_in x s :
  Forall (fun c => ascii_digit c = true) s -> ascii_digit x = false ->
  ~ In x s.
Proof.
  intros Hs Hx Hin. rewrite Forall_forall in Hs. specialize (Hs x Hin).
  congruence.
Qed.

Lemma digits_clock s :
  Forall (fun c => ascii_digit c = true) s ->
  Forall (fun c => clock_char c = true) s.
Proof.
  intros H. eapply Forall_impl; [|exact H]. cbn beta. unfold clock_char.
  now intros c ->.
Qed.

Lemma digits_re_digit s :
  Forall (fun c => ascii_digit c = true) s ->
  Forall (fun c => re_digit c = true) s.
Proof. intros H. eapply Forall_impl; [|exact H]. apply digit_re_digit. Qed.

Lemma date_re_match y m d :
  digits 4 y -> digits 2 m -> digits 2 d ->
  re_match DATE_RE (y ++ ch "-" :: m ++ ch "-" :: d) = Some ([], []).
Proof.
  intros [Ly Hy] [Lm Hm] [Ld Hd].
  unfold re_match, DATE_RE, cat. cbn [fold_right].
  rewrite <- Ly, <- Lm at 1. rewrite <- Ld.
  eapply rmatch_seq_hd; [now apply rep_chr_hd, digits_re_digit|].
  eapply rmatch_seq_hd; [apply rmatch_lit_hd|].
  eapply rmatch_seq_hd; [now apply rep_chr_hd, digits_re_digit|].
  eapply rmatch_seq_hd; [apply rmatch_lit_hd|].
  eapply rmatch_seq_hd.
  { rewrite <- (app_nil_r d) at 2. now apply rep_chr_hd, digits_re_digit. }
  reflexivity.
Qed.

(** X22.  A token of four digits, a hyphen, two digits, a hyphen and two
    digits is the date [strptime] reads in it; it raises only where
    [strptime] does. *)
Theorem parse_scalar_date (y m d : str) (ver : version) :
  digits 4 y -> digits 2 m -> digits 2 d ->
  let value := y ++ ch "-" :: m ++ ch "-" :: d in
  parse_scalar value ver
  = (x <- of_option (BuiltinError BStrptime value) (strptime_date value) ;;
     Ok (VDate x)).
Proof.
  intros Hy Hm Hd value.
  pose proof (date_re_match y m d Hy Hm Hd) as Hre. fold value in Hre.
  assert (Hall : Forall (fun c => clock_char c = true) value).
  { destruct Hy as [_ Hy], Hm as [_ Hm], Hd as [_ Hd]. unfold value.
    apply Forall_app. split; [now apply digits_clock|].
    constructor; [reflexivity|].
    apply Forall_app. split; [now apply digits_clock|].
    constructor; [reflexivity | now apply digits_clock]. }
  assert (Hhead : exists c r, value = c :: r /\ ascii_digit c = true).
  { destruct Hy as [Ly Hy]. unfold value.
    destruct y as [|c y]; [discriminate Ly|].
    exists c, (y ++ ch "-" :: m ++ ch "-" :: d).
    split; [reflexivity | now inversion Hy]. }
  destruct Hhead as (c & r & Hcr & Hc).
  unfold parse_scalar. rewrite Hcr, dispatch_digit_head, <- Hcr;
    [ | assumption
      | rewrite <- Hcr; now apply (clock_chars_not_in _ _ Hall)
      | rewrite <- Hcr; now apply clock_chars_strip ].
  assert (rule_datetime value = None) as ->.
  { unfold rule_datetime.
    rewrite (proj2 (has_char_false (ch "T") value)); [reflexivity|].
    now apply (clock_chars_not_in _ _ Hall). }
  cbn [or_else]. unfold rule_date. now rewrite Hre.
Qed.

Lemma time_re_match h mi s frac :
  digits 2 h -> digits 2 mi -> digits 2 s ->
  (frac = [] \/ exists fs, frac = ch "." :: fs /\ fs <> []
                           /\ Forall (fun c => ascii_digit c = true) fs) ->
  re_match TIME_RE (h ++ ch ":" :: mi ++ ch ":" :: s ++ frac)
  = Some ([(1, h ++ ch ":" :: mi ++ ch ":" :: s ++ frac)], []).
Proof.
  intros [Lh Hh] [Lm Hm] [Ls Hs] Hfrac.
  unfold re_match, TIME_RE, cat. cbn [fold_right].
  assert (Hin : hd_error
            (rmatch (Seq (Rep 2 D) (Seq (lit (ch ":")) (Seq (Rep 2 D)
               (Seq (lit (ch ":")) (Seq (Rep 2 D)
                  (Seq (Opt (Seq (lit (ch ".")) (Seq (Plus D) Eps))) Eps))))))
               [] ((h ++ ch ":" :: mi ++ ch ":" :: s ++ frac) ++ []))
            = Some ([], [])).
  { rewrite app_nil_r. rewrite <- Lh at 1. rewrite <- Lm at 1. rewrite <- Ls.
    eapply rmatch_seq_hd; [now apply rep_chr_hd, digits_re_digit|].
    eapply rmatch_seq_hd; [apply rmatch_lit_hd|].
    eapply rmatch_seq_hd; [now apply rep_chr_hd, digits_re_digit|].
    eapply rmatch_seq_hd; [apply rmatch_lit_hd|].
    eapply rmatch_seq_hd; [now apply rep_chr_hd, digits_re_digit|].
    rewrite rmatch_seq_eps.
    destruct Hfrac as [-> | (fs & -> & Hne & Hfs)]; [reflexivity|].
    apply rmatch_opt_hd_some.
    eapply rmatch_seq_hd; [apply rmatch_lit_hd|].
    rewrite rmatch_seq_eps. destruct fs as [|f fs]; [congruence|].
    inversion Hfs; subst. rewrite <- (app_nil_r fs).
    apply rmatch_plus_chr_hd;
      [now apply digit_re_digit | now apply digits_re_digit | intros x t [=]]. }
  apply (rmatch_grp_hd 1) in Hin. rewrite app_nil_r in Hin.
  eapply rmatch_seq_hd; [exact Hin | reflexivity].
Qed.

(** X23.  A token of two digits, a colon, two digits, a colon, two digits
    and an optional fraction of a point and digits is the time [strptime]
    reads in it, with the format of fractions exactly when it has one. *)
Theorem parse_scalar_time (h mi s frac : str) (ver : version) :
  digits 2 h -> digits 2 mi -> digits 2 s ->
  (frac = [] \/ exists fs, frac = ch "." :: fs /\ fs <> []
                           /\ Forall (fun c => ascii_digit c = true) fs) ->
  let value := h ++ ch ":" :: mi ++ ch ":" :: s ++ frac in
  parse_scalar value ver
  = (x <- of_option (BuiltinError BStrptime value)
                    (strptime_time (negb (is_empty frac)) value) ;;
     Ok (VTime x)).
Proof.
  intros Hh Hm Hs Hfrac value.
  pose proof (time_re_match h mi s frac Hh Hm Hs Hfrac) as Hre.
  fold value in Hre.
  assert (Hdot : has_char (ch ".") value = negb (is_empty frac)).
  { destruct Hh as [_ Hh], Hm as [_ Hm], Hs as [_ Hs]. unfold value.
    destruct Hfrac as [-> | (fs & -> & _)].
    - apply has_char_false. rewrite app_nil_r. intros Hin.
      apply in_app_or in Hin as [Hin | [Hin | Hin]]; [|discriminate Hin|].
      + rewrite Forall_forall in Hh. now specialize (Hh _ Hin).
      + apply in_app_or in Hin as [Hin | [Hin | Hin]]; [|discriminate Hin|].
        * rewrite Forall_forall in Hm. now specialize (Hm _ Hin).
        * rewrite Forall_forall in Hs. now specialize (Hs _ Hin).
    - apply has_char_In. apply in_or_app. right. right.
      apply in_or_app. right. right. apply in_or_app. right. now left. }
  assert (Hall : Forall (fun c => clock_char c = true) value).
  { destruct Hh as [_ Hh], Hm as [_ Hm], Hs as [_ Hs]. unfold value.
    apply Forall_app. split; [now apply digits_clock|].
    constructor; [reflexivity|].
    apply Forall_app. split; [now apply digits_clock|].
    constructor; [reflexivity|].
    apply Forall_app. split; [now apply digits_clock|].
    destruct Hfrac as [-> | (fs & -> & _ & Hfs)]; [constructor|].
    constructor; [reflexivity | now apply digits_clock]. }
  assert (Hhead : exists c r, value = c :: r /\ ascii_digit c = true).
  { destruct Hh as [Lh Hh]. unfold value.
    destruct h as [|c h]; [discriminate Lh|].
    exists c, (h ++ ch ":" :: mi ++ ch ":" :: s ++ frac).
    split; [reflexivity | now inversion Hh]. }
  destruct Hhead as (c & r & Hcr & Hc).
  unfold parse_scalar. rewrite Hcr, dispatch_digit_head, <- Hcr;
    [ | assumption
      | rewrite <- Hcr; now apply (clock_chars_not_in _ _ Hall)
      | rewrite <- Hcr; now apply clock_chars_strip ].
  assert (rule_datetime value = None) as ->.
  { unfold rule_datetime.
    rewrite (proj2 (has_char_false (ch "T") value)); [reflexivity|].
    now apply (clock_chars_not_in _ _ Hall). }
  assert (rule_date value = None) as ->.
  { unfold rule_date. rewrite date_re_needs_dash; [reflexivity|].
    destruct Hh as [_ Hh], Hm as [_ Hm], Hs as [_ Hs]. unfold value.
    intros Hin.
    apply in_app_or in Hin as [Hin | [Hin | Hin]]; [|discriminate Hin|].
    { now apply (digits_not_in _ _ Hh) in Hin. }
    apply in_app_or in Hin as [Hin | [Hin | Hin]]; [|discriminate Hin|].
    { now apply (digits_not_in _ _ Hm) in Hin. }
    apply in_app_or in Hin as [Hin | Hin].
    { now apply (digits_not_in _ _ Hs) in Hin. }
    destruct Hfrac as [-> | (fs & -> & _ & Hfs)]; [contradiction|].
    destruct Hin as [Hin | Hin]; [discriminate Hin|].
    now apply (digits_not_in _ _ Hfs) in Hin. }
  cbn [or_else]. unfold rule_time. rewrite Hre. unfold grp.
  cbn [group Nat.eqb]. now rewrite Hdot.
Qed.

(** ** The check of the column line *)

Lemma re_search_suffix r a s : re_test r s = true -> re_search r (a ++ s) = true.
Proof.
  intros H. induction a as [|c a IH].
  - destruct s; cbn [app re_search]; now rewrite H.
  - cbn [app re_search]. rewrite IH. apply orb_true_r.
Qed.

Lemma upper_tag_re_test ws u1 u2 b :
  isspace ws = true -> ascii_upper u1 = true -> ascii_upper u2 = true ->
  re_test UPPER_TAG_RE (ws :: u1 :: u2 :: b) = true.
Proof.
  intros Hw H1 H2. apply re_test_true.
  unfold UPPER_TAG_RE, cat, Plus. cbn [fold_right].
  rewrite !rmatch_seq_chr. unfold re_space. rewrite Hw, H1, rmatch_seq_eps.
  rewrite rmatch_seq_chr, H2. cbn [rmatch].
  exists ([], b). apply star_iter_last.
Qed.

(** X24.  The fast path raises when the second line has a white-space
    character followed by two uppercase ASCII letters, wherever they are,
    within a quoted value too. *)
Theorem parse_grid_fast_upper_case_columns
    (grid_str a b : str) (ws u1 u2 : char) :
  nth_error (split_on nl grid_str) 1 = Some (a ++ ws :: u1 :: u2 :: b) ->
  isspace ws = true -> ascii_upper u1 = true -> ascii_upper u2 = true ->
  exists e, parse_grid_fast grid_str = Err e.
Proof.
  intros Hl Hw H1 H2.
  pose proof (re_search_suffix UPPER_TAG_RE a _
                (upper_tag_re_test ws u1 u2 b Hw H1 H2)) as Hs.
  destruct (split_on nl grid_str) as [|l1 [|col_line lines]] eqn:Hsplit;
    try discriminate Hl.
  injection Hl as ->.
  destruct (parse_grid_fast grid_str) as [g | e] eqn:H; [exfalso | now exists e].
  unfold parse_grid_fast in H. rewrite Hsplit, Hs in H. cbn [negb] in H.
  repeat match type of H with
         | (if ?c then _ else _) = _ => destruct c; [|discriminate H]
         | bind ?m _ = _ => destruct m; [cbn [bind] in H | discriminate H]
         | match ?x with _ => _ end = _ => destruct x; try discriminate H
         end.
  discriminate H.
Qed.
End MoreProperties.

(** * The examples, run in the runtime [Ref.externals] *)

#[local] Existing Instance Ref.externals.

Lemma ref_hex_value_reject c : non_hex_letter c = true -> hex_value c = None.
Proof.
  unfold non_hex_letter, hex_value, ascii_digit, in_range.
  repeat match goal with
         | |- context [N.leb ?a ?b] => destruct (N.leb_spec a b)
         | |- context [N.eqb ?a ?b] => destruct (N.eqb_spec a b)
         end; cbn; try discriminate; try reflexivity; lia.
Qed.

Lemma ref_read_hex_reject s c acc :
  In c s -> non_hex_letter c = true -> Ref.read_hex s acc = None.
Proof.
  revert acc. induction s as [|x s IH]; intros acc Hin Hc; [contradiction|].
  simpl. destruct Hin as [-> | Hin].
  - now rewrite (ref_hex_value_reject _ Hc).
  - destruct (hex_value x); [now apply IH | reflexivity].
Qed.

Lemma ref_externals_spec : ExternalsSpec Ref.externals.
Proof.
  split.
  - intros a b c d va vb vc vd Ha Hb Hc Hd.
    cbn. unfold Ref.int16. cbn. rewrite Ha, Hb, Hc, Hd. reflexivity.
  - intros s c Hin Hc. cbn. unfold Ref.int16.
    destruct s as [|x s]; [reflexivity|].
    now rewrite (ref_read_hex_reject (x :: s) c 0%N Hin Hc).
Qed.

Lemma parse_grid_fast_rejects_complex_witness :
  (exists a b, py "ver<<" = a ++ py "<<" ++ b)
  /\ parse_grid_fast (py "ver<<") = Err ComplexGrid.
Proof.
  assert (H : exists a b, py "ver<<" = a ++ py "<<" ++ b)
    by (exists (py "ver"), []; reflexivity).
  split; [exact H|].
  apply (parse_grid_fast_rejects_complex (py "ver<<")). now left.
Defined.

Lemma parse_grid_falls_back_witness :
  parse_grid_fast [] = Err MissingVersion
  /\ parse_grid slow_example [] true = slow_example [] true.
Proof.
  assert (H : parse_grid_fast [] = Err MissingVersion) by reflexivity.
  split; [exact H|].
  exact (parse_grid_falls_back unit slow_example [] true MissingVersion H).
Defined.

Lemma unescape_decodes_witness :
  _unescape true [bslash; ch "u"; ch "0"; ch "0"; ch "4"; ch "1";
                  bslash; ch "#"; bslash; ch "n"]
  = Ok [ch "A"; bslash; ch "#"; nl].
Proof.
  destruct (@unescape_decodes Ref.externals ref_externals_spec)
    as (Hplain & Hu & Hctl & Hother & Hchar & _).
  rewrite (Hu true (ch "u") (ch "0") (ch "0") (ch "4") (ch "1") 0 0 4 1)%N
    by (try reflexivity; now left).
  rewrite (Hother true (ch "#")) by (try reflexivity; left; split; discriminate).
  rewrite (Hctl true (ch "n") nl) by reflexivity.
  rewrite (Hplain true []) by (intros []).
  reflexivity.
Defined.

(** C9, as the spec states it, fails on [\uzzzz]: the [u] is followed by
    four characters that are no hexadecimal digits, so the spec reads it
    as an escaped character that stands for itself; [_unescape] raises the
    [ValueError] of [int("zzzz", 16)] in both modes. *)
Lemma unescape_raises_on_non_hex_digits :
  is_hex (ch "z") = false
  /\ _unescape false ([bslash] ++ py "uzzzz")
     = Err (BuiltinError BInt16 (py "zzzz"))
  /\ _unescape true ([bslash] ++ py "uzzzz")
     = Err (BuiltinError BInt16 (py "zzzz"))
  /\ _unescape false ([bslash] ++ py "uzzzz") <> Ok (py "uzzzz").
Proof.
  repeat split. discriminate.
Qed.

Lemma split_csv_values_correct_witness :
  inactive (fold_left track (py "a") trackers_init) = true
  /\ _split_csv_values (py "a" ++ [ch ","]) = _split_csv_values (py "a") ++ [[]].
Proof.
  split; [reflexivity|].
  destruct (@split_csv_values_correct Ref.externals) as (_ & _ & H & _).
  apply H; [discriminate | reflexivity].
Defined.

Lemma meta_separator_once_witness :
  separator_at two_tag_tokens 1 = true
  /\ forall j, 1 < j -> separator_at two_tag_tokens j = true ->
               exists k, 1 < k < j /\ token_break_at two_tag_tokens k.
Proof.
  assert (H : separator_at two_tag_tokens 1 = true) by reflexivity.
  split; [exact H|].
  exact (proj2 (proj2 (proj2 (proj2 (meta_separator_once two_tag_tokens 1 H))))).
Defined.

(** C8, as the spec states it, fails on [quoted_key_token]: the colon at
    position 3 is taken as the separator although a double quote has
    opened at position 0 of the same token (there is no space in it); the
    key is the quoted text. *)
Lemma meta_separator_after_quote :
  separator_at quoted_key_token 3 = true
  /\ nth_error quoted_key_token 0 = Some dq
  /\ in_quote (meta_state_at quoted_key_token 1) = true
  /\ has_char sp quoted_key_token = false
  /\ meta_items quoted_key_token = [Pair ([dq] ++ py "a" ++ [dq]) (py "5")]
  /\ _parse_meta quoted_key_token = Err (InvalidTagName ([dq] ++ py "a" ++ [dq])).
Proof.
  repeat split.
Qed.

Lemma parse_scalar_errors_witness :
  Forall (fun c => ascii_lower c = true) (py "xyz")
  /\ _parse_scalar (py "xyz") = Ok (VStr (py "xyz")).
Proof.
  assert (H : Forall (fun c => ascii_lower c = true) (py "xyz"))
    by (repeat constructor).
  split; [exact H|].
  destruct (@parse_scalar_errors Ref.externals (py "xyz")) as (_ & _ & _ & Hl).
  apply Hl; [discriminate | exact H].
Defined.

(** C4, as the spec states it, fails on [bad_escape_token] and on
    [C(a,b)]: neither begins with a bracket, a brace or [<<], and
    [_parse_scalar] raises on both, the [ValueError] of [int("zzzz", 16)]
    and of [float("a")]. *)
Lemma parse_scalar_raises_without_complex_prefix :
  _parse_scalar bad_escape_token = Err (BuiltinError BInt16 (py "zzzz"))
  /\ ~ begins_complex (strip bad_escape_token)
  /\ _parse_scalar (py "C(a,b)") = Err (BuiltinError BFloat (py "a"))
  /\ ~ begins_complex (strip (py "C(a,b)")).
Proof.
  split; [|split; [|split]].
  - exact (@parse_scalar_bad_unicode_escape Ref.externals ref_externals_spec).
  - intros [r [H | [H | H]]]; vm_compute in H; discriminate.
  - reflexivity.
  - intros [r [H | [H | H]]]; vm_compute in H; discriminate.
Qed.

(** C5.  Every tag name has to match the pattern of tag names, and the
    code misses a case: a token made of a name and a colon with nothing
    after it gives no entry to [items], so the loop that validates the
    tag names never sees its name.  [foo Bar:] and [foo 1x:] are read as
    the one tag [foo], and a grid with such a tag list on its version
    line is returned by the fast path; with a value after the colon the
    same names are refused. *)
Theorem parse_meta_skips_check_of_empty_value :
  _parse_meta (py "foo Bar:") = Ok [(py "foo", VMarker)]
  /\ ~ tag_name (py "Bar")
  /\ _parse_meta (py "foo 1x:") = Ok [(py "foo", VMarker)]
  /\ ~ tag_name (py "1x")
  /\ parse_grid_fast (py "ver:" ++ [dq] ++ py "3.0" ++ [dq] ++ py " foo Bar:"
                       ++ [nl] ++ py "a" ++ [nl] ++ py "1")
     = Ok (mk_grid (py "3.0") [(py "foo", VMarker)] [(py "a", [])]
                   [[(py "a", VNumber (Ref.Dec 1 0) None)]])
  /\ _parse_meta (py "foo Bar:1") = Err (InvalidTagName (py "Bar"))
  /\ _parse_meta (py "foo 1x:1") = Err (InvalidTagName (py "1x")).
Proof.
  repeat split.
  - intros (c & r & [= <- <-] & Hc & _). discriminate Hc.
  - intros (c & r & [= <- <-] & Hc & _). discriminate Hc.
Qed.

Lemma parse_meta_tag_names_witness :
  Forall token_text two_tokens
  /\ Forall (fun tok => tag_name (token_name tok)) two_tokens
  /\ _parse_meta (py "foo bar:5")
     = Ok [(py "foo", VMarker); (py "bar", VNumber (Ref.Dec 5 0) None)].
Proof.
  assert (Ht : Forall token_text two_tokens).
  { repeat constructor; try discriminate; intros H; discriminate H. }
  assert (Hn : Forall (fun tok => tag_name (token_name tok)) two_tokens).
  { constructor; [|constructor; [|constructor]].
    - exists (ch "f"), (py "oo"). repeat split. repeat constructor.
    - exists (ch "b"), (py "ar"). repeat split. repeat constructor. }
  assert (Hv : Forall2 token_value two_tokens
                       [VMarker; VNumber (Ref.Dec 5 0) None]).
  { repeat constructor. }
  split; [exact Ht|]. split; [exact Hn|].
  destruct (@parse_meta_tag_names Ref.externals) as (_ & _ & _ & H & _).
  exact (H two_tokens _ Ht Hn Hv).
Defined.

Lemma parse_grid_fast_rows_witness :
  parse_grid_fast grid_text_2_of_4 = Ok grid_2_of_4
  /\ Forall2 (row_of_line [py "a"; py "b"; py "c"; py "d"])
             (row_lines grid_text_2_of_4) (g_rows grid_2_of_4).
Proof.
  assert (H : parse_grid_fast grid_text_2_of_4 = Ok grid_2_of_4) by reflexivity.
  split; [exact H|].
  exact (proj1 (proj2 (proj1 parse_grid_fast_rows grid_text_2_of_4 grid_2_of_4 H))).
Defined.

Lemma parse_scalar_discards_trailing_text_witness :
  strip (py "@foo bar") = ch "@" :: py "foo" ++ py " bar"
  /\ _parse_scalar (py "@foo bar") = Ok (VRef (py "foo") None).
Proof.
  assert (H : strip (py "@foo bar") = ch "@" :: py "foo" ++ py " bar")
    by reflexivity.
  split; [exact H|].
  destruct (@parse_scalar_discards_trailing_text Ref.externals) as (Href & _).
  apply (Href (py "@foo bar") (py "foo") (py " bar") H).
  - repeat constructor.
  - intros x r [= <- _]. reflexivity.
  - intros r Hr. discriminate Hr.
Defined.

(** ** The examples of section 8 of the spec *)

Example number_with_unit :
  _parse_scalar (py "12.5kWh")
  = Ok (VNumber (Ref.Dec 125 1) (Some (py "kWh"))).
Proof. reflexivity. Qed.

Example number_with_group_separator :
  _parse_scalar (py "1_000") = Ok (VNumber (Ref.Dec 1000 0) None).
Proof. reflexivity. Qed.

Example reference_with_display_name :
  _parse_scalar (py "@foo.bar " ++ [dq] ++ py "Label" ++ [dq])
  = Ok (VRef (py "foo.bar") (Some (py "Label"))).
Proof. reflexivity. Qed.

Example reference_without_display_name :
  _parse_scalar (py "@foo") = Ok (VRef (py "foo") None).
Proof. reflexivity. Qed.

Example coordinate :
  _parse_scalar (py "C(37.5,-122.3)")
  = Ok (VCoord (Ref.Dec 375 1) (Ref.Dec (-1223) 1)).
Proof. reflexivity. Qed.

Example bare_word_in_row :
  parse_grid_fast (version_line ++ py "a" ++ [nl] ++ py "xyz")
  = Err (MalformedValue (py "xyz")).
Proof. reflexivity. Qed.

Example escaped_backtick_in_row :
  parse_grid_fast (version_line ++ py "a" ++ [nl; btick; bslash; btick; btick])
  = Err ComplexUriEscapingRow.
Proof. reflexivity. Qed.

Example escaped_backtick_in_first_line :
  parse_grid_fast (py "ver:" ++ [dq] ++ py "3.0" ++ [dq] ++ py " a:"
                   ++ [btick; bslash; btick; btick; nl] ++ py "a")
  = Err ComplexUriEscaping.
Proof. reflexivity. Qed.

Example uppercase_tag_in_version_line :
  parse_grid_fast (py "ver:" ++ [dq] ++ py "3.0" ++ [dq] ++ py " Foo"
                   ++ [nl] ++ py "a")
  = Err InvalidMetadata.
Proof. reflexivity. Qed.

(** ** The further properties, at examples *)

Lemma split_csv_values_join_witness :
  Forall (fun c => isspace c = false) (py "a,(b,c),d")
  /\ join [ch ","] (_split_csv_values (py "a,(b,c),d")) = py "a,(b,c),d".
Proof.
  assert (H : Forall (fun c => isspace c = false) (py "a,(b,c),d"))
    by (repeat constructor).
  split; [exact H|]. exact (split_csv_values_join (py "a,(b,c),d") H).
Defined.

Lemma split_csv_values_of_join_witness :
  Forall (fun f => csv_block f /\ strip f = f)
         [py "12"; [dq] ++ py "a, b" ++ [dq]; []]
  /\ _split_csv_values (py "12," ++ [dq] ++ py "a, b" ++ [dq] ++ py ",")
     = [py "12"; [dq] ++ py "a, b" ++ [dq]; []].
Proof.
  assert (H : Forall (fun f => csv_block f /\ strip f = f)
                     [py "12"; [dq] ++ py "a, b" ++ [dq]; []]).
  { constructor; [|constructor; [|constructor; [|constructor]]].
    - split; [|reflexivity]. left. repeat constructor.
    - split; [|reflexivity]. right. left. exists (py "a, b").
      split; [reflexivity|].
      split; intros Hin; vm_compute in Hin; intuition discriminate.
    - split; [|reflexivity]. left. constructor. }
  split; [exact H|].
  apply (split_csv_values_of_join [py "12"; [dq] ++ py "a, b" ++ [dq]; []]);
    [discriminate | discriminate | exact H].
Defined.

Lemma parse_scalar_ignores_outer_space_witness :
  Forall (fun c => isspace c = true) (py "  ")
  /\ parse_scalar (py "  ") (py "3.0") = Ok VNull.
Proof.
  assert (H : Forall (fun c => isspace c = true) (py "  "))
    by (repeat constructor).
  split; [exact H|].
  exact (proj2 (@parse_scalar_ignores_outer_space Ref.externals (py "  ") (py "3.0")) H).
Defined.

Lemma parse_scalar_uri_witness :
  ~ In btick (py "http://x/a b")
  /\ parse_scalar ([btick] ++ py "http://x/a b" ++ [btick]) (py "3.0")
     = Ok (VUri (py "http://x/a b")).
Proof.
  assert (H : ~ In btick (py "http://x/a b"))
    by (intros Hin; vm_compute in Hin; intuition discriminate).
  split; [exact H|].
  apply (proj2 (@parse_scalar_uri Ref.externals (py "http://x/a b") (py "3.0") H)).
  intros Hin; vm_compute in Hin; intuition discriminate.
Defined.

Lemma parse_scalar_string_witness :
  escaped_text escaped_body
  /\ parse_scalar ([dq] ++ escaped_body ++ [dq]) (py "3.0")
     = Ok (VStr [ch "a"; nl; ch "b"]).
Proof.
  assert (H : escaped_text escaped_body).
  { apply (et_unit (u := [ch "a"])); [left; now exists (ch "a")|].
    apply (et_unit (u := [bslash; ch "n"]));
      [right; left; now exists (ch "n")|].
    apply (et_unit (u := [ch "b"])); [left; now exists (ch "b")|].
    constructor. }
  split; [exact H|].
  exact (parse_scalar_string escaped_body (py "3.0") H).
Defined.

Lemma parse_scalar_plain_string_witness :
  ~ In dq (py "a, b") /\ ~ In bslash (py "a, b")
  /\ parse_scalar ([dq] ++ py "a, b" ++ [dq]) (py "3.0") = Ok (VStr (py "a, b")).
Proof.
  assert (H1 : ~ In dq (py "a, b"))
    by (intros Hin; vm_compute in Hin; intuition discriminate).
  assert (H2 : ~ In bslash (py "a, b"))
    by (intros Hin; vm_compute in Hin; intuition discriminate).
  split; [exact H1|]. split; [exact H2|].
  exact (@parse_scalar_plain_string Ref.externals (py "a, b") (py "3.0") H1 H2).
Defined.

Lemma parse_scalar_malformed_string_witness :
  strip ([dq] ++ py "abc ") = dq :: py "abc"
  /\ parse_scalar ([dq] ++ py "abc ") (py "3.0") = Ok (VStr ([dq] ++ py "abc")).
Proof.
  assert (H : strip ([dq] ++ py "abc ") = dq :: py "abc") by reflexivity.
  split; [exact H|].
  apply (@parse_scalar_malformed_string Ref.externals ([dq] ++ py "abc ") (py "abc") (py "3.0") H).
  intros body Hb _.
  apply (f_equal (@rev char)) in Hb. rewrite rev_app_distr in Hb.
  discriminate Hb.
Defined.

Lemma parse_scalar_quoted_returns_witness :
  strip ([dq] ++ py "a" ++ [bslash] ++ py "qb" ++ [dq])
  = dq :: py "a" ++ [bslash] ++ py "qb" ++ [dq]
  /\ exists x, parse_scalar ([dq] ++ py "a" ++ [bslash] ++ py "qb" ++ [dq])
                            (py "3.0") = Ok (VStr x).
Proof.
  assert (H : strip ([dq] ++ py "a" ++ [bslash] ++ py "qb" ++ [dq])
              = dq :: py "a" ++ [bslash] ++ py "qb" ++ [dq]) by reflexivity.
  split; [exact H|].
  exact (@parse_scalar_quoted_returns Ref.externals ref_externals_spec
           _ _ (py "3.0") H).
Defined.

Lemma parse_scalar_number_witness :
  decimal (py "-12.5")
  /\ Forall (fun c => ascii_letter c = true) (py "kWh")
  /\ parse_scalar (py "-12.5" ++ py "kWh") (py "3.0")
     = Ok (VNumber (Ref.Dec (-125) 1) (Some (py "kWh"))).
Proof.
  assert (H1 : decimal (py "-12.5")).
  { exists [ch "-"], (py "12"), (py ".5"). split; [reflexivity|].
    split; [right; now left|]. split; [discriminate|].
    split; [repeat constructor|].
    right. exists (py "5"). split; [reflexivity|]. split; [discriminate|].
    repeat constructor. }
  assert (H2 : Forall (fun c => ascii_letter c = true) (py "kWh"))
    by (repeat constructor).
  split; [exact H1|]. split; [exact H2|].
  exact (@parse_scalar_number Ref.externals (py "-12.5") (py "kWh") (py "3.0") H1 H2).
Defined.

Lemma unescape_raises_witness :
  _unescape false ([bslash] ++ py "uzzzz")
  = Err (BuiltinError BInt16 (py "zzzz"))
  /\ exists a x hex b,
       [bslash] ++ py "uzzzz" = a ++ bslash :: x :: hex ++ b
       /\ length hex = 4.
Proof.
  assert (H : _unescape false ([bslash] ++ py "uzzzz")
              = Err (BuiltinError BInt16 (py "zzzz"))) by reflexivity.
  split; [exact H|].
  destruct (unescape_raises false _ _ H) as (a & x & hex & b & Hs & _ & Hl & _).
  now exists a, x, hex, b.
Defined.

Lemma unescape_never_longer_witness :
  _unescape false ([bslash] ++ py "u0041bc") = Ok (py "Abc")
  /\ length (py "Abc") <= length ([bslash] ++ py "u0041bc").
Proof.
  assert (H : _unescape false ([bslash] ++ py "u0041bc") = Ok (py "Abc"))
    by reflexivity.
  split; [exact H|].
  exact (unescape_never_longer false _ _ H).
Defined.

Lemma parse_meta_quoted_values_witness :
  Forall tag_text quoted_tokens
  /\ Forall (fun tok => tag_name (token_name tok)) quoted_tokens
  /\ _parse_meta (py "dis:" ++ [dq] ++ py "Main hall" ++ [dq] ++ py " site")
     = Ok [(py "dis", VStr (py "Main hall")); (py "site", VMarker)].
Proof.
  assert (Ht : Forall tag_text quoted_tokens).
  { constructor; [|constructor; [|constructor]].
    - split.
      + split; [discriminate|].
        repeat constructor; try discriminate; intros H; discriminate H.
      + right. left. exists (py "Main hall"). split; [reflexivity|].
        split; intros Hin; vm_compute in Hin; intuition discriminate.
    - split; [discriminate|].
      repeat constructor; try discriminate; intros H; discriminate H. }
  assert (Hn : Forall (fun tok => tag_name (token_name tok)) quoted_tokens).
  { constructor; [|constructor; [|constructor]].
    - exists (ch "d"), (py "is"). repeat split. repeat constructor.
    - exists (ch "s"), (py "ite"). repeat split. repeat constructor. }
  assert (Hv : Forall2 token_value quoted_tokens
                       [VStr (py "Main hall"); VMarker]).
  { repeat constructor. }
  split; [exact Ht|]. split; [exact Hn|].
  exact (parse_meta_quoted_values quoted_tokens _ Ht Hn Hv).
Defined.

Lemma parse_meta_value_error_witness :
  _parse_scalar (py "[1]") = Err ComplexType
  /\ _parse_meta (py "site a:[1]") = Err ComplexType
  /\ _parse_meta (py "site a:[1] B:: " ++ [dq]) = Err ComplexType.
Proof.
  assert (H : _parse_scalar (py "[1]") = Err ComplexType) by reflexivity.
  split; [exact H|].
  assert (Ht : Forall tag_text [TBare (py "site"); TPair (py "a") (py "[1]")]).
  { constructor; [|constructor; [|constructor]].
    - split; [discriminate|].
      repeat constructor; try discriminate; intros H0; discriminate H0.
    - split.
      + split; [discriminate|].
        repeat constructor; try discriminate; intros H0; discriminate H0.
      + left. split; [discriminate|].
        repeat constructor; try discriminate; intros H0; discriminate H0. }
  assert (Hn : Forall (fun tok => tag_name (token_name tok))
                      [TBare (py "site")]).
  { constructor; [|constructor].
    exists (ch "s"), (py "ite"). repeat split. repeat constructor. }
  assert (Hv : Forall2 token_value [TBare (py "site")] [VMarker])
    by (repeat constructor).
  assert (Ha : tag_name (py "a")).
  { exists (ch "a"), []. repeat split. constructor. }
  destruct (parse_meta_value_error [TBare (py "site")] [VMarker]
              (py "a") (py "[1]") ComplexType Ht Hn Hv Ha H) as [H1 H2].
  split; [exact H1|]. exact (H2 (py "B:: " ++ [dq])).
Defined.

Lemma parse_grid_fast_header_witness :
  parse_grid_fast grid_text_tags = Ok grid_tags
  /\ exists v after col_line lines,
       split_on nl grid_text_tags
       = (py "ver:" ++ dq :: v ++ dq :: after) :: col_line :: lines
       /\ v <> [] /\ ~ In dq v
       /\ mk_version v = Some (g_version grid_tags)
       /\ _parse_meta (strip after) = Ok (g_metadata grid_tags).
Proof.
  assert (H : parse_grid_fast grid_text_tags = Ok grid_tags) by reflexivity.
  split; [exact H|].
  exact (parse_grid_fast_header grid_text_tags grid_tags H).
Defined.

Lemma parse_grid_fast_columns_witness :
  parse_grid_fast grid_text_tags = Ok grid_tags
  /\ Forall2 (fun col_str col =>
                fst col = column_name col_str
                /\ _parse_meta (column_tags col_str) = Ok (snd col))
             (_split_csv_values (nth 1 (split_on nl grid_text_tags) []))
             (g_columns grid_tags).
Proof.
  assert (H : parse_grid_fast grid_text_tags = Ok grid_tags) by reflexivity.
  split; [exact H|].
  exact (parse_grid_fast_columns grid_text_tags grid_tags H).
Defined.

Lemma parse_grid_fast_tag_names_witness :
  parse_grid_fast grid_text_tags = Ok grid_tags
  /\ forall k, In k (keys (g_metadata grid_tags)) -> tag_name k.
Proof.
  assert (H : parse_grid_fast grid_text_tags = Ok grid_tags) by reflexivity.
  split; [exact H|].
  exact (proj1 (parse_grid_fast_tag_names grid_text_tags grid_tags H)).
Defined.

Lemma parse_grid_fast_one_line_witness :
  ~ In nl (py "ver:" ++ [dq] ++ py "3.0" ++ [dq])
  /\ exists e, parse_grid_fast (py "ver:" ++ [dq] ++ py "3.0" ++ [dq]) = Err e.
Proof.
  assert (H : ~ In nl (py "ver:" ++ [dq] ++ py "3.0" ++ [dq]))
    by (intros Hin; vm_compute in Hin; intuition discriminate).
  split; [exact H|].
  exact (parse_grid_fast_one_line _ H).
Defined.

Lemma parse_grid_fast_escaped_backtick_witness :
  nth_error (split_on nl (version_line ++ py "a" ++ [nl; btick; bslash; btick; btick])) 2
  = Some [btick; bslash; btick; btick]
  /\ exists e,
       parse_grid_fast (version_line ++ py "a" ++ [nl; btick; bslash; btick; btick])
       = Err e.
Proof.
  assert (H : nth_error (split_on nl (version_line ++ py "a"
                                      ++ [nl; btick; bslash; btick; btick])) 2
              = Some [btick; bslash; btick; btick]) by reflexivity.
  split; [exact H|].
  apply (parse_grid_fast_escaped_backtick
           (version_line ++ py "a" ++ [nl; btick; bslash; btick; btick])
           [btick; bslash; btick; btick] 2);
    [discriminate | exact H | reflexivity].
Defined.

Lemma parse_grid_fast_bare_word_witness :
  nth_error (split_on nl (version_line ++ py "a,b" ++ [nl] ++ py "1, xyz")) 2
  = Some (py "1, xyz")
  /\ _parse_scalar (py "xyz") = Ok (VStr (py "xyz"))
  /\ exists e,
       parse_grid_fast (version_line ++ py "a,b" ++ [nl] ++ py "1, xyz") = Err e.
Proof.
  assert (H : nth_error (split_on nl (version_line ++ py "a,b" ++ [nl]
                                      ++ py "1, xyz")) 2
              = Some (py "1, xyz")) by reflexivity.
  split; [exact H|]. split; [reflexivity|].
  apply (parse_grid_fast_bare_word
           (version_line ++ py "a,b" ++ [nl] ++ py "1, xyz")
           (py "1, xyz") 0 (ch "x") (py "yz") H).
  - right. now left.
  - reflexivity.
  - intros Hin; vm_compute in Hin; intuition discriminate.
Defined.

Lemma parse_grid_fast_final_line_feed_witness :
  In nl grid_text_tags
  /\ parse_grid_fast (grid_text_tags ++ [nl]) = parse_grid_fast grid_text_tags.
Proof.
  assert (H : In nl grid_text_tags) by (vm_compute; tauto).
  split; [exact H|].
  exact (parse_grid_fast_final_line_feed grid_text_tags H).
Defined.

Lemma parse_scalar_xstr_witness :
  Forall (fun c => tag_char c = true) (py "Span")
  /\ ~ In dq (py "today")
  /\ parse_scalar (py "Span" ++ ch "(" :: dq :: py "today" ++ [dq; ch ")"])
                  (py "3.0")
     = Ok (VXStr (py "Span") (py "today")).
Proof.
  assert (H1 : Forall (fun c => tag_char c = true) (py "Span"))
    by (repeat constructor).
  assert (H2 : ~ In dq (py "today"))
    by (intros Hin; vm_compute in Hin; intuition discriminate).
  split; [exact H1|]. split; [exact H2|].
  apply (@parse_scalar_xstr Ref.externals (py "Span") (py "today") (py "3.0"));
    [discriminate | exact H1 | discriminate | discriminate | exact H2].
Defined.

Lemma parse_scalar_date_witness :
  digits 4 (py "2020") /\ digits 2 (py "01") /\ digits 2 (py "31")
  /\ parse_scalar (py "2020" ++ ch "-" :: py "01" ++ ch "-" :: py "31") (py "3.0")
     = Ok (VDate [2020; 1; 31]%N).
Proof.
  assert (H1 : digits 4 (py "2020")) by (split; [reflexivity | repeat constructor]).
  assert (H2 : digits 2 (py "01")) by (split; [reflexivity | repeat constructor]).
  assert (H3 : digits 2 (py "31")) by (split; [reflexivity | repeat constructor]).
  split; [exact H1|]. split; [exact H2|]. split; [exact H3|].
  exact (@parse_scalar_date Ref.externals (py "2020") (py "01") (py "31")
           (py "3.0") H1 H2 H3).
Defined.

Lemma parse_scalar_time_witness :
  digits 2 (py "12") /\ digits 2 (py "30") /\ digits 2 (py "05")
  /\ parse_scalar (py "12" ++ ch ":" :: py "30" ++ ch ":" :: py "05" ++ py ".25")
                  (py "3.0")
     = Ok (VTime [12; 30; 5; 25]%N).
Proof.
  assert (H1 : digits 2 (py "12")) by (split; [reflexivity | repeat constructor]).
  assert (H2 : digits 2 (py "30")) by (split; [reflexivity | repeat constructor]).
  assert (H3 : digits 2 (py "05")) by (split; [reflexivity | repeat constructor]).
  split; [exact H1|]. split; [exact H2|]. split; [exact H3|].
  apply (@parse_scalar_time Ref.externals (py "12") (py "30") (py "05")
           (py ".25") (py "3.0") H1 H2 H3).
  right. exists (py "25"). split; [reflexivity|]. split; [discriminate|].
  repeat constructor.
Defined.

Lemma parse_grid_fast_upper_case_columns_witness :
  nth_error (split_on nl (version_line ++ py "a dis:" ++ [dq] ++ py "My AHU"
                                       ++ [dq; nl] ++ py "1")) 1
  = Some ((py "a dis:" ++ [dq] ++ py "My") ++ sp :: ch "A" :: ch "H" :: py "U" ++ [dq])
  /\ exists e, parse_grid_fast (version_line ++ py "a dis:" ++ [dq] ++ py "My AHU"
                                             ++ [dq; nl] ++ py "1") = Err e.
Proof.
  assert (H : nth_error (split_on nl (version_line ++ py "a dis:" ++ [dq]
                           ++ py "My AHU" ++ [dq; nl] ++ py "1")) 1
              = Some ((py "a dis:" ++ [dq] ++ py "My")
                      ++ sp :: ch "A" :: ch "H" :: py "U" ++ [dq]))
    by reflexivity.
  split; [exact H|].
  apply (parse_grid_fast_upper_case_columns _ _ _ _ _ _ H); reflexivity.
Defined.
